(** * Seminar scripts of mmp_practicum_fall_2025: a shallow embedding

  The development follows four scripts of the repository:

  - [Seminars/15-parallel/matmul.py]: the naive matrix product and the
    thread / process drivers around it (modules [Matmul], [MatmulHeap],
    [MatmulMain]);
  - [Seminars/15-parallel/habr.py]: the retrying page fetch, the title
    extraction and the four execution strategies (module [Habr]), and the
    threads of [threads] run request by request (module [HabrThreads]);
  - [Seminars/11-intro-web/toy_project/server.py]: the single route of the
    toy server (module [Server]);
  - [Seminars/13-ctypes/http_parser.py]: the profiled download loop (module
    [HttpParser]).

  Python values are modelled as the code uses them: [float] is IEEE
  binary64 (the kernel's primitive floats, which round to nearest even as
  CPython does), [int] is [Z], a list is a [list] addressed with stdpp's
  lookup and insert, an exception is a constructor of [exn] carried by the
  [outcome] type.  A request of [requests.get] ends with a response, with
  an exception, or never: the [result] type of [Habr] carries the three. *)

From Stdlib Require Import ZArith List Bool Lia Floats String Ascii DecimalString DecimalZ
  DecimalPos Permutation.
From stdpp Require Import base list.
Import ListNotations.

#[local] Open Scope nat_scope.

(** ** Python basics shared by the scripts *)

Module Py.

(** The exceptions the modelled code can raise. *)
Inductive exn : Type :=
| IndexError
| TypeError
| ValueError (msg : string)
| SystemExit (msg : string)
| ConnectionError.  (* requests.exceptions.ConnectionError *)

(** The result of evaluating a Python expression or statement. *)
Inductive outcome (A : Type) : Type :=
| Ok (a : A)
| Raise (e : exn).
Arguments Ok {A} a.
Arguments Raise {A} e.

Definition bind {A B : Type} (m : outcome A) (k : A -> outcome B) : outcome B :=
  match m with
  | Ok a => k a
  | Raise e => Raise e
  end.

Definition is_ok {A : Type} (m : outcome A) : bool :=
  match m with Ok _ => true | Raise _ => false end.

(** [l[i]] for an index that is a non-negative [int], as every index taken
    from a [range(n)] is. *)
Definition getitem {A : Type} (l : list A) (i : nat) : outcome A :=
  match l !! i with
  | Some x => Ok x
  | None => Raise IndexError
  end.

(** Python's index normalisation for a list of length [n]: a negative index
    counts from the end; anything outside [-n, n) is an [IndexError]. *)
Definition norm_index (n : nat) (i : Z) : outcome nat :=
  if (0 <=? i)%Z && (i <? Z.of_nat n)%Z then Ok (Z.to_nat i)
  else if (- Z.of_nat n <=? i)%Z && (i <? 0)%Z then Ok (Z.to_nat (Z.of_nat n + i))
  else Raise IndexError.

(** [l[i] = v] with an [int] index. *)
Definition setitem {A : Type} (l : list A) (i : Z) (v : A) : outcome (list A) :=
  match norm_index (length l) i with
  | Ok k => Ok (<[k := v]> l)
  | Raise e => Raise e
  end.

(** [range(a, b)] as the list it iterates over; empty when [b <= a]. *)
Definition range (a b : Z) : list Z :=
  (fun k => (a + Z.of_nat k)%Z) <$> seq 0 (Z.to_nat (b - a)).

(** [for x in xs: s = body(x, s)], stopped by the first exception. *)
Fixpoint for_each {S X : Type} (xs : list X) (body : X -> S -> outcome S) (s : S)
  : outcome S :=
  match xs with
  | [] => Ok s
  | x :: xs' =>
      match body x s with
      | Ok s' => for_each xs' body s'
      | Raise e => Raise e
      end
  end.

(** [str(i)] for an [int]. *)
Definition str_int (i : Z) : string :=
  NilZero.string_of_int (Z.to_int i).

End Py.

Import Py.

Notation "'let*' x ':=' m 'in' k" := (Py.bind m (fun x => k))
  (at level 10, x name, m at level 100, k at level 200).

(** ** matmul.py: the matrix product on values *)

Module Matmul.

Abbreviation matrix := (list (list float)).

(** The statement [C[i][j] += A[i][k] * B[k][j]] on the matrix under
    construction.  The target [C[i][j]] is read first, then the right-hand
    side is evaluated, then the sum is stored. *)
Definition body (A B : matrix) (i j k : nat) (C : matrix) : outcome matrix :=
  let* Ci := getitem C i in
  let* cij := getitem Ci j in
  let* Ai := getitem A i in
  let* aik := getitem Ai k in
  let* Bk := getitem B k in
  let* bkj := getitem Bk j in
  Ok (<[i := <[j := (cij + aik * bkj)%float]> Ci]> C).

(** The three nested [for] loops over [range(m)], [range(n)], [range(l)]. *)
Definition loops (A B : matrix) (m n l : nat) (C : matrix) : outcome matrix :=
  for_each (seq 0 m) (fun i =>
    for_each (seq 0 n) (fun j =>
      for_each (seq 0 l) (fun k => body A B i j k))) C.

(** [matmul(A, B)].  [len(A[0])] and [len(B[0])] raise [IndexError] on an
    empty list; the result is built from [m] fresh rows of [n] zeros.  The
    line printed before returning is kept by [MatmulHeap], where jobs share
    a standard output. *)
Definition matmul (A B : matrix) : outcome matrix :=
  let* A0 := getitem A 0 in
  let m := length A in
  let l := length A0 in
  let* B0 := getitem B 0 in
  let n := length B0 in
  let C := replicate m (replicate n 0%float) in
  loops A B m n l C.

(** Entry [(i, j)] of a matrix, when it exists. *)
Definition entry (M : matrix) (i j : nat) : option float :=
  match M !! i with
  | Some r => r !! j
  | None => None
  end.

(** Entry [(i, j)] with [0.0] outside the matrix: only used to write the
    sums below at indices that the hypotheses keep inside. *)
Definition at_ (M : matrix) (i j : nat) : float :=
  match entry M i j with
  | Some x => x
  | None => 0%float
  end.

(** The sum [Σ_{k < t} A[i][k]·B[k][j]] of the specification, in binary64
    arithmetic, accumulated from [0.0] in increasing [k]. *)
Fixpoint dot (A B : matrix) (i j t : nat) : float :=
  match t with
  | 0 => 0%float
  | S t' => (dot A B i j t' + at_ A i t' * at_ B t' j)%float
  end.

Definition rows_ge (M : matrix) (n : nat) : Prop :=
  Forall (fun r => n <= length r) M.

(** An [m]×[n] matrix: [m] rows, each of length [n]. *)
Definition shape (M : matrix) (m n : nat) : Prop :=
  length M = m /\ Forall (fun r => length r = n) M.

Definition identity (n : nat) : matrix :=
  (fun i => (fun j => if Nat.eqb i j then 1%float else 0%float) <$> seq 0 n)
    <$> seq 0 n.

Definition zeros (m n : nat) : matrix := replicate m (replicate n 0%float).

(** A float that is neither an infinity nor a NaN. *)
Definition finite (x : float) : Prop :=
  match Prim2SF x with
  | S754_zero _ | S754_finite _ _ _ => True
  | _ => False
  end.

Definition all_finite (M : matrix) : Prop := Forall (Forall finite) M.

(** Python's [==] on floats: [0.0 == -0.0], and a NaN equals nothing. *)
Definition float_eq (x y : float) : Prop := PrimFloat.eqb x y = true.

(** Python's [==] on lists of lists of floats of the same shape. *)
Definition mat_eq (M N : matrix) : Prop := Forall2 (Forall2 float_eq) M N.


(** *** Binary64 facts used by the identity and zero products *)

Definition is_zero (x : float) : Prop :=
  match Prim2SF x with S754_zero _ => True | _ => False end.

Lemma one_mul_SF (x : spec_float) :
  valid_binary x = true -> SF64mul (Prim2SF 1%float) x = x.
Proof.
  intros Hv.
  replace (Prim2SF 1%float) with (S754_finite false 4503599627370496 (-52))
    by (vm_compute; reflexivity).
  destruct x as [s | s | | s m e]; try reflexivity.
  unfold SF64mul, SFmul. cbn [xorb].
  unfold SpecFloat.valid_binary, bounded, canonical_mantissa in Hv.
  apply andb_prop in Hv. destruct Hv as [Hc He].
  apply Z.eqb_eq in Hc.
  replace (4503599627370496 * m)%positive with
    (m~0~0~0~0~0~0~0~0~0~0~0~0~0~0~0~0~0~0~0~0~0~0~0~0~0~0~0~0~0~0~0~0~0~0~0~0~0~0~0~0~0~0~0~0~0~0~0~0~0~0~0~0)%positive
    by reflexivity.
  unfold binary_round_aux.
  unfold shr_fexp at 1.
  match goal with
  | |- context [shr _ _ ?n] => assert (Hn : n = 52%Z)
  end.
  { cbn [Zdigits2 digits2_pos]. unfold fexp in *. lia. }
  rewrite Hn.
  cbn [shr shr_record_of_loc SpecFloat.iter_pos shr_1 orb].
  cbn [shr_m loc_of_shr_record shr_r shr_s round_nearest_even].
  unfold shr_fexp.
  match goal with
  | |- context [shr _ ?e0 ?n] => assert (Hn0 : n = 0%Z /\ e0 = e)
  end.
  { cbn [Zdigits2]. unfold fexp in *. lia. }
  destruct Hn0 as [-> ->].
  cbn [shr shr_record_of_loc shr_m].
  rewrite He. reflexivity.
Qed.

(** [1.0 * x] is [x], bit for bit, for every binary64 [x]. *)
Lemma one_mul (x : float) : (1 * x)%float = x.
Proof.
  apply Prim2SF_inj. rewrite mul_spec. apply one_mul_SF, Prim2SF_valid.
Qed.

Lemma zero_mul_finite (x : float) : finite x -> is_zero (0 * x)%float.
Proof.
  unfold finite, is_zero. rewrite mul_spec.
  replace (Prim2SF 0%float) with (S754_zero false) by (vm_compute; reflexivity).
  destruct (Prim2SF x); simpl; tauto.
Qed.

Lemma finite_mul_zero (x : float) : finite x -> is_zero (x * 0)%float.
Proof.
  unfold finite, is_zero. rewrite mul_spec.
  replace (Prim2SF 0%float) with (S754_zero false) by (vm_compute; reflexivity).
  destruct (Prim2SF x); simpl; tauto.
Qed.

(** [0.0 + z] is [0.0] when [z] is either zero. *)
Lemma zero_add_zero (z : float) : is_zero z -> (0 + z)%float = 0%float.
Proof.
  unfold is_zero. intros Hz. apply Prim2SF_inj. rewrite add_spec.
  replace (Prim2SF 0%float) with (S754_zero false) by (vm_compute; reflexivity).
  destruct (Prim2SF z) as [[] | | |]; simpl in *; tauto.
Qed.

(** [0.0 + x] is [x] unless [x] is the negative zero. *)
Lemma zero_add_nonzero (x : float) : ~ is_zero x -> (0 + x)%float = x.
Proof.
  unfold is_zero. intros Hx. apply Prim2SF_inj. rewrite add_spec.
  replace (Prim2SF 0%float) with (S754_zero false) by (vm_compute; reflexivity).
  destruct (Prim2SF x); simpl in *; tauto.
Qed.

(** Adding either zero to a non-zero [x] leaves it unchanged. *)
Lemma nonzero_add_zero (x z : float) : ~ is_zero x -> is_zero z -> (x + z)%float = x.
Proof.
  unfold is_zero. intros Hx Hz. apply Prim2SF_inj. rewrite add_spec.
  destruct (Prim2SF x), (Prim2SF z); simpl in *; tauto.
Qed.

Lemma is_zero_dec (x : float) : {is_zero x} + {~ is_zero x}.
Proof. unfold is_zero. destruct (Prim2SF x); auto. Qed.

Lemma is_zero_float_eq (x : float) : is_zero x -> float_eq 0%float x.
Proof.
  unfold is_zero, float_eq. rewrite FloatAxioms.eqb_spec.
  replace (Prim2SF 0%float) with (S754_zero false) by (vm_compute; reflexivity).
  destruct (Prim2SF x); simpl; tauto.
Qed.

Lemma finite_float_eq_refl (x : float) : finite x -> float_eq x x.
Proof.
  unfold finite, float_eq. rewrite FloatAxioms.eqb_spec.
  destruct (Prim2SF x) as [| | | s m e]; simpl; try tauto.
  intros _. unfold SFeqb, SFcompare.
  assert (He : IntDef.Z.compare e e = Eq) by exact (Z.compare_refl e).
  assert (Hm : PosDef.Pos.compare_cont Eq m m = Eq)
    by exact (Pos.compare_cont_refl m Eq).
  rewrite He, Hm. destruct s; reflexivity.
Qed.

(** *** Loops with an invariant *)

Lemma for_each_seq_inv {S : Type} (Inv : nat -> S -> Prop)
    (f : nat -> S -> outcome S) (a len : nat) (s : S) :
  Inv a s ->
  (forall t s0, a <= t < a + len -> Inv t s0 ->
     exists s1, f t s0 = Ok s1 /\ Inv (1 + t) s1) ->
  exists s', for_each (seq a len) f s = Ok s' /\ Inv (a + len) s'.
Proof.
  revert a s. induction len as [| len IH]; intros a s H0 Hstep.
  - exists s. rewrite Nat.add_0_r. auto.
  - destruct (Hstep a s ltac:(lia) H0) as (s1 & E1 & H1).
    destruct (IH (1 + a) s1 H1) as (s' & E' & H').
    { intros t s0 Ht. apply Hstep. lia. }
    exists s'. simpl. rewrite E1. split; [exact E' |].
    replace (a + Datatypes.S len) with (1 + a + len) by lia. exact H'.
Qed.

(** A loop that ends normally ran its body normally at every element. *)
Lemma for_each_ok_elem {S X : Type} (f : X -> S -> outcome S) (xs : list X)
    (s s' : S) (x : X) :
  for_each xs f s = Ok s' -> In x xs -> exists s0 s1, f x s0 = Ok s1.
Proof.
  revert s. induction xs as [| y xs IH]; intros s E Hin; [destruct Hin |].
  simpl in E. destruct (f y s) as [s1 |] eqn:Ey; [| discriminate].
  destruct Hin as [-> | Hin]; eauto.
Qed.

(** The only exception a loop raises is one its body raised. *)
Lemma for_each_raise {S X : Type} (P : exn -> Prop) (f : X -> S -> outcome S)
    (xs : list X) (s : S) (e : exn) :
  (forall x s0 e0, f x s0 = Raise e0 -> P e0) ->
  for_each xs f s = Raise e -> P e.
Proof.
  intros Hf. revert s. induction xs as [| y xs IH]; intros s E; [discriminate |].
  simpl in E. destruct (f y s) as [s1 |] eqn:Ey; eauto.
  inversion E; subst. eauto.
Qed.

Lemma getitem_raise {A : Type} (l : list A) (i : nat) (e : exn) :
  getitem l i = Raise e -> e = IndexError.
Proof. unfold getitem. destruct (l !! i); congruence. Qed.

Lemma getitem_Some {A : Type} (l : list A) (i : nat) (x : A) :
  l !! i = Some x -> getitem l i = Ok x.
Proof. unfold getitem. intros ->. reflexivity. Qed.

Lemma body_raise (A B : matrix) (i j k : nat) (C : matrix) (e : exn) :
  body A B i j k C = Raise e -> e = IndexError.
Proof.
  unfold body, bind. intros E.
  repeat match type of E with
  | match getitem ?l ?n with _ => _ end = _ =>
      let H := fresh "G" in
      destruct (getitem l n) eqn:H;
      [| apply getitem_raise in H; congruence]
  end.
  discriminate.
Qed.

Lemma loops_raise (A B : matrix) (m n l : nat) (C : matrix) (e : exn) :
  loops A B m n l C = Raise e -> e = IndexError.
Proof.
  unfold loops. apply (for_each_raise (fun e0 => e0 = IndexError)).
  intros i C1 e1. apply (for_each_raise (fun e0 => e0 = IndexError)).
  intros j C2 e2. apply (for_each_raise (fun e0 => e0 = IndexError)).
  intros k C3 e3. apply body_raise.
Qed.

Lemma matmul_raise (A B : matrix) (e : exn) :
  matmul A B = Raise e -> e = IndexError.
Proof.
  unfold matmul, bind.
  destruct (getitem A 0) eqn:GA; [| apply getitem_raise in GA; congruence].
  destruct (getitem B 0) eqn:GB; [| apply getitem_raise in GB; congruence].
  apply loops_raise.
Qed.

Lemma rows_ge_entry (M : matrix) (c i j : nat) :
  rows_ge M c -> i < length M -> j < c ->
  exists row x, M !! i = Some row /\ row !! j = Some x /\ at_ M i j = x.
Proof.
  intros HM Hi Hj.
  destruct (lookup_lt_is_Some_2 M i Hi) as [row Hrow].
  assert (Hlen : c <= length row).
  { unfold rows_ge in HM. rewrite Forall_lookup in HM. exact (HM i row Hrow). }
  destruct (lookup_lt_is_Some_2 row j ltac:(lia)) as [x Hx].
  exists row, x. unfold at_, entry. rewrite Hrow, Hx. auto.
Qed.

(** *** The product under the conditions that keep every index inside *)

Section Product.

Variables (A B : matrix) (m n l : nat).
Hypothesis HA : length A = m.
Hypothesis HAl : rows_ge A l.
Hypothesis HBl : l <= length B.
Hypothesis HBn : rows_ge B n.

(** The value of cell [(i', j')] of [C] when the loops are about to run the
    body at [(i, j, k)]: finished cells hold the whole sum, the current cell
    the partial sum, the others the initial [0.0]. *)
Definition progress (i j k i' j' : nat) : float :=
  if decide (i' < i \/ (i' = i /\ j' < j)) then dot A B i' j' l
  else if decide (i' = i /\ j' = j) then dot A B i j k
  else 0%float.

Definition St (i j k : nat) (C : matrix) : Prop :=
  shape C m n /\
  forall i' j', i' < m -> j' < n -> entry C i' j' = Some (progress i j k i' j').

Lemma St_body (i j k : nat) (C : matrix) :
  i < m -> j < n -> k < l -> St i j k C ->
  exists C', body A B i j k C = Ok C' /\ St i j (1 + k) C'.
Proof.
  intros Hi Hj Hk [[HlenC HrowsC] Hent].
  pose proof (Hent i j Hi Hj) as Eij. unfold entry in Eij.
  destruct (C !! i) as [Ci |] eqn:ECi; [| discriminate].
  assert (HlenCi : length Ci = n).
  { rewrite Forall_lookup in HrowsC. exact (HrowsC i Ci ECi). }
  assert (Pij : progress i j k i j = dot A B i j k).
  { unfold progress. repeat case_decide; try lia; reflexivity || tauto. }
  rewrite Pij in Eij.
  destruct (rows_ge_entry A l i k HAl ltac:(lia) Hk) as (Ai & aik & EAi & Eaik & HatA).
  destruct (rows_ge_entry B n k j HBn ltac:(lia) Hj) as (Bk & bkj & EBk & Ebkj & HatB).
  unfold body.
  rewrite (getitem_Some _ _ _ ECi); cbn [bind].
  rewrite (getitem_Some _ _ _ Eij); cbn [bind].
  rewrite (getitem_Some _ _ _ EAi); cbn [bind].
  rewrite (getitem_Some _ _ _ Eaik); cbn [bind].
  rewrite (getitem_Some _ _ _ EBk); cbn [bind].
  rewrite (getitem_Some _ _ _ Ebkj); cbn [bind].
  eexists. split; [reflexivity |]. split.
  - split; [rewrite length_insert; exact HlenC |].
    apply Forall_insert; [exact HrowsC | rewrite length_insert; exact HlenCi].
  - intros i' j' Hi' Hj'. unfold entry.
    destruct (decide (i' = i)) as [-> | Hne].
    + rewrite list_lookup_insert_eq by lia.
      destruct (decide (j' = j)) as [-> | Hnej].
      * rewrite list_lookup_insert_eq by lia. f_equal.
        unfold progress. repeat case_decide; try lia; try tauto.
        cbn [dot Nat.add]. rewrite HatA, HatB. reflexivity.
      * rewrite list_lookup_insert_ne by congruence.
        pose proof (Hent i j' Hi Hj') as E. unfold entry in E.
        rewrite ECi in E. rewrite E. f_equal.
        unfold progress. repeat case_decide; try lia; try tauto; reflexivity.
    + rewrite list_lookup_insert_ne by congruence.
      pose proof (Hent i' j' Hi' Hj') as E. unfold entry in E. rewrite E. f_equal.
      unfold progress. repeat case_decide; try lia; try tauto; reflexivity.
Qed.

Lemma St_next_column (i j : nat) (C : matrix) : St i j l C -> St i (1 + j) 0 C.
Proof.
  intros [Hsh Hent]. split; [exact Hsh |].
  intros i' j' Hi' Hj'. rewrite (Hent i' j' Hi' Hj'). f_equal.
  unfold progress. repeat case_decide; try lia; try tauto; try reflexivity.
  all: destruct_and?; subst; reflexivity.
Qed.

Lemma St_next_row (i : nat) (C : matrix) : St i n 0 C -> St (1 + i) 0 0 C.
Proof.
  intros [Hsh Hent]. split; [exact Hsh |].
  intros i' j' Hi' Hj'. rewrite (Hent i' j' Hi' Hj'). f_equal.
  unfold progress. repeat case_decide; try lia; try tauto; try reflexivity.
  all: destruct_and?; subst; reflexivity.
Qed.

Lemma St_init : St 0 0 0 (replicate m (replicate n 0%float)).
Proof.
  split.
  - split; [apply length_replicate |].
    apply Forall_replicate, length_replicate.
  - intros i' j' Hi' Hj'. unfold entry.
    rewrite lookup_replicate_2 by lia. rewrite lookup_replicate_2 by lia.
    f_equal. unfold progress. repeat case_decide; try lia; try reflexivity.
Qed.

Lemma loops_St :
  exists C, loops A B m n l (replicate m (replicate n 0%float)) = Ok C /\ St m 0 0 C.
Proof.
  unfold loops.
  apply (for_each_seq_inv (fun i C => St i 0 0 C) _ 0 m); [exact St_init |].
  intros i C Hi HC.
  destruct (for_each_seq_inv (fun j C => St i j 0 C)
              (fun j => for_each (seq 0 l) (fun k => body A B i j k)) 0 n C HC)
    as (C' & E' & H').
  { intros j C1 Hj HC1.
    destruct (for_each_seq_inv (fun k C => St i j k C)
                (fun k => body A B i j k) 0 l C1 HC1) as (C2 & E2 & H2).
    { intros k C3 Hk HC3. apply St_body; lia || exact HC3. }
    exists C2. split; [exact E2 |]. apply St_next_column. exact H2. }
  exists C'. split; [exact E' |]. apply St_next_row. exact H'.
Qed.

End Product.

(** [matmul] returns, and returns the sums, whenever [A] has rows at least as
    long as the first one, [B] has at least [len(A[0])] rows and every row of
    [B] is at least as long as the first one. *)
Lemma matmul_ok (A B : matrix) (A0 B0 : list float) :
  A !! 0 = Some A0 -> B !! 0 = Some B0 ->
  rows_ge A (length A0) -> length A0 <= length B -> rows_ge B (length B0) ->
  exists C, matmul A B = Ok C /\ shape C (length A) (length B0) /\
    forall i j, i < length A -> j < length B0 ->
      entry C i j = Some (dot A B i j (length A0)).
Proof.
  intros EA EB HAl HBl HBn.
  destruct (loops_St A B (length A) (length B0) (length A0) eq_refl HAl HBl HBn)
    as (C & EC & [Hsh Hent]).
  exists C. unfold matmul.
  rewrite (getitem_Some _ _ _ EA); cbn [bind].
  rewrite (getitem_Some _ _ _ EB); cbn [bind].
  split; [exact EC |]. split; [exact Hsh |].
  intros i j Hi Hj. rewrite (Hent i j Hi Hj). f_equal.
  unfold progress. repeat case_decide; try lia; reflexivity.
Qed.

(** *** Identity and zero factors *)

Lemma shape_rows_ge (M : matrix) (m n : nat) : shape M m n -> rows_ge M n.
Proof.
  intros [_ H]. unfold rows_ge. eapply Forall_impl; [exact H |].
  intros r Hr. simpl in Hr. lia.
Qed.

Lemma finite_zero : finite 0%float.
Proof. exact I. Qed.

Lemma is_zero_finite (x : float) : is_zero x -> finite x.
Proof. unfold is_zero, finite. destruct (Prim2SF x); tauto. Qed.

Lemma all_finite_at (M : matrix) (i j : nat) : all_finite M -> finite (at_ M i j).
Proof.
  intros HM. unfold at_, entry.
  destruct (M !! i) as [r |] eqn:Er; [| exact finite_zero].
  destruct (r !! j) as [x |] eqn:Ex; [| exact finite_zero].
  unfold all_finite in HM. rewrite Forall_lookup in HM.
  pose proof (HM i r Er) as Hr. rewrite Forall_lookup in Hr. exact (Hr j x Ex).
Qed.

Lemma at_identity (p i k : nat) :
  i < p -> k < p ->
  at_ (identity p) i k = if Nat.eqb i k then 1%float else 0%float.
Proof.
  intros Hi Hk. unfold at_, entry, identity.
  rewrite list_lookup_fmap, lookup_seq_lt by lia. cbn [fmap option_fmap option_map].
  rewrite list_lookup_fmap, lookup_seq_lt by lia. reflexivity.
Qed.

Lemma at_zeros (m n i j : nat) : at_ (zeros m n) i j = 0%float.
Proof.
  unfold at_, entry, zeros.
  destruct (replicate m (replicate n 0%float) !! i) as [r |] eqn:Er; [| reflexivity].
  apply lookup_replicate in Er as [-> _].
  destruct (replicate n 0%float !! j) as [x |] eqn:Ex; [| reflexivity].
  apply lookup_replicate in Ex as [-> _]. reflexivity.
Qed.

(** What the accumulator holds for a finite entry [b] once the term
    [1.0 * b] went in: [b] itself, or [0.0] when [b] is either zero. *)
Definition settled (b : float) : float :=
  if is_zero_dec b then 0%float else b.

Lemma settled_add_zero (b z : float) : is_zero z -> (settled b + z)%float = settled b.
Proof.
  intros Hz. unfold settled. destruct (is_zero_dec b).
  - apply zero_add_zero, Hz.
  - apply nonzero_add_zero; assumption.
Qed.

Lemma settled_float_eq (b : float) : finite b -> float_eq (settled b) b.
Proof.
  intros Hb. unfold settled. destruct (is_zero_dec b).
  - apply is_zero_float_eq. assumption.
  - apply finite_float_eq_refl, Hb.
Qed.

Lemma dot_identity (p : nat) (B : matrix) (i j t : nat) :
  all_finite B -> i < p -> t <= p ->
  dot (identity p) B i j t = if decide (t <= i) then 0%float else settled (at_ B i j).
Proof.
  intros HB Hi. induction t as [| t IH]; intros Ht.
  - case_decide; [reflexivity | lia].
  - cbn [dot]. rewrite IH by lia. rewrite at_identity by lia.
    destruct (Nat.eqb_spec i t) as [-> | Hne].
    + rewrite one_mul. repeat case_decide; try lia.
      unfold settled. destruct (is_zero_dec (at_ B t j)).
      * apply zero_add_zero. assumption.
      * apply zero_add_nonzero. assumption.
    + pose proof (zero_mul_finite _ (all_finite_at B t j HB)) as Hz.
      repeat case_decide; try lia.
      * apply zero_add_zero, Hz.
      * apply settled_add_zero, Hz.
Qed.

Lemma dot_zero_right (A : matrix) (l n i j t : nat) :
  all_finite A -> dot A (zeros l n) i j t = 0%float.
Proof.
  intros HA. induction t as [| t IH]; [reflexivity |].
  cbn [dot]. rewrite IH, at_zeros.
  apply zero_add_zero, finite_mul_zero, all_finite_at, HA.
Qed.

Lemma dot_zero_left (B : matrix) (m l i j t : nat) :
  all_finite B -> dot (zeros m l) B i j t = 0%float.
Proof.
  intros HB. induction t as [| t IH]; [reflexivity |].
  cbn [dot]. rewrite IH, at_zeros.
  apply zero_add_zero, zero_mul_finite, all_finite_at, HB.
Qed.

Lemma shape_identity (p : nat) : shape (identity p) p p.
Proof.
  unfold shape, identity. split.
  - rewrite length_fmap, length_seq. reflexivity.
  - apply Forall_fmap, Forall_forall. intros i _. simpl.
    rewrite length_fmap, length_seq. reflexivity.
Qed.

Lemma shape_zeros (m n : nat) : shape (zeros m n) m n.
Proof.
  unfold shape, zeros. split; [apply length_replicate |].
  apply Forall_replicate, length_replicate.
Qed.

Lemma shape_first_row (M : matrix) (m n : nat) :
  0 < m -> shape M m n -> exists r, M !! 0 = Some r /\ length r = n.
Proof.
  intros Hm [Hlen Hrows].
  destruct (lookup_lt_is_Some_2 M 0 ltac:(lia)) as [r Hr].
  exists r. split; [exact Hr |].
  rewrite Forall_lookup in Hrows. exact (Hrows 0 r Hr).
Qed.

(** Two matrices of one shape with related entries are related row by row. *)
Lemma shape_entries_Forall2 (R : float -> float -> Prop) (M N : matrix) (m n : nat) :
  shape M m n -> shape N m n ->
  (forall i j x y, entry M i j = Some x -> entry N i j = Some y -> R x y) ->
  Forall2 (Forall2 R) M N.
Proof.
  intros [HlM HrM] [HlN HrN] Hent.
  apply Forall2_same_length_lookup. split; [congruence |].
  intros i r r' Er Er'.
  rewrite Forall_lookup in HrM, HrN.
  apply Forall2_same_length_lookup. split.
  - rewrite (HrM i r Er), (HrN i r' Er'). reflexivity.
  - intros j x y Ex Ey. apply (Hent i j); unfold entry; rewrite ?Er, ?Er'; assumption.
Qed.

Lemma shape_entries_eq (M N : matrix) (m n : nat) :
  shape M m n -> shape N m n ->
  (forall i j, i < m -> j < n -> entry M i j = entry N i j) -> M = N.
Proof.
  intros HM HN Hent.
  assert (F : Forall2 (Forall2 eq) M N).
  { apply (shape_entries_Forall2 eq M N m n HM HN).
    intros i j x y Ex Ey.
    assert (i < m /\ j < n) as [Hi Hj].
    { unfold entry in Ex. destruct (M !! i) as [r |] eqn:Er; [| discriminate].
      destruct HM as [<- HrM]. rewrite Forall_lookup in HrM.
      rewrite <- (HrM i r Er).
      split; [eapply lookup_lt_Some; eassumption | eapply lookup_lt_Some; eassumption]. }
    rewrite (Hent i j Hi Hj) in Ex. congruence. }
  clear -F. induction F as [| r r' M N Hr _ IH]; [reflexivity |].
  f_equal; [| exact IH].
  clear -Hr. induction Hr; congruence.
Qed.

Lemma entry_zeros (m n i j : nat) : i < m -> j < n -> entry (zeros m n) i j = Some 0%float.
Proof.
  intros Hi Hj. unfold entry, zeros.
  rewrite lookup_replicate_2 by lia. apply lookup_replicate_2. lia.
Qed.

(** *** The claims about [matmul] *)

(** Claim C5, as the code has it.  For a non-empty [m]×[l] matrix [A] and an
    [l]×[n] matrix [B], [matmul(A, B)] returns an [m]×[n] matrix whose entry
    [(i, j)] is the binary64 sum [Σ_k A[i][k]·B[k][j]] accumulated from [0.0]
    in increasing [k].  When the entries of [B] are finite, the identity
    times [B] equals [B] under Python's [==]; when the entries of the other
    factor are finite, a product with a zero matrix is the [m]×[n] matrix of
    [0.0]. *)
Theorem matmul_product (A B : matrix) (m l n : nat) :
  0 < m -> 0 < l -> shape A m l -> shape B l n ->
  (exists C, matmul A B = Ok C /\ shape C m n /\
     forall i j, i < m -> j < n -> entry C i j = Some (dot A B i j l)) /\
  (A = identity l -> all_finite B ->
     exists C, matmul A B = Ok C /\ mat_eq C B) /\
  (B = zeros l n -> all_finite A -> matmul A B = Ok (zeros m n)) /\
  (A = zeros m l -> all_finite B -> matmul A B = Ok (zeros m n)).
Proof.
  intros Hm Hl HA HB.
  destruct (shape_first_row A m l Hm HA) as (A0 & EA & HA0).
  destruct (shape_first_row B l n Hl HB) as (B0 & EB & HB0).
  assert (Hprod : exists C, matmul A B = Ok C /\ shape C m n /\
     forall i j, i < m -> j < n -> entry C i j = Some (dot A B i j l)).
  { destruct (matmul_ok A B A0 B0 EA EB) as (C & EC & HC & Hent).
    - rewrite HA0. eapply shape_rows_ge, HA.
    - rewrite HA0. destruct HB as [-> _]. lia.
    - rewrite HB0. eapply shape_rows_ge, HB.
    - exists C. destruct HA as [HlenA _]. rewrite HlenA, HB0, HA0 in *. auto. }
  split; [exact Hprod |].
  destruct Hprod as (C & EC & HC & Hent).
  split; [| split].
  - intros -> HfinB. exists C. split; [exact EC |].
    assert (m = l) as ->.
    { destruct HA as [<- _]. apply (shape_identity l). }
    apply (shape_entries_Forall2 float_eq C B l n HC HB).
    intros i j x y Ex Ey.
    assert (i < l /\ j < n) as [Hi Hj].
    { unfold entry in Ey. destruct (B !! i) as [r |] eqn:Er; [| discriminate].
      destruct HB as [<- HrB]. rewrite Forall_lookup in HrB.
      rewrite <- (HrB i r Er).
      split; eapply lookup_lt_Some; eassumption. }
    rewrite (Hent i j Hi Hj) in Ex. injection Ex as <-.
    rewrite dot_identity by (assumption || lia).
    case_decide; [lia |].
    assert (at_ B i j = y) as -> by (unfold at_; rewrite Ey; reflexivity).
    apply settled_float_eq.
    unfold entry in Ey. destruct (B !! i) as [r |] eqn:Er; [| discriminate].
    unfold all_finite in HfinB. rewrite Forall_lookup in HfinB.
    pose proof (HfinB i r Er) as Hr. rewrite Forall_lookup in Hr. exact (Hr j y Ey).
  - intros -> HfinA. rewrite EC. f_equal.
    apply (shape_entries_eq C (zeros m n) m n HC (shape_zeros m n)).
    intros i j Hi Hj. rewrite (Hent i j Hi Hj), entry_zeros by assumption.
    f_equal. apply dot_zero_right, HfinA.
  - intros -> HfinB. rewrite EC. f_equal.
    apply (shape_entries_eq C (zeros m n) m n HC (shape_zeros m n)).
    intros i j Hi Hj. rewrite (Hent i j Hi Hj), entry_zeros by assumption.
    f_equal. apply dot_zero_left, HfinB.
Qed.

Definition sample_B : matrix :=
  [[3%float; (-0.5)%float; 0%float]; [(-0)%float; 7.25%float; 0x1p+1000%float]].

Lemma shape_sample_B : shape sample_B 2 3.
Proof. split; [reflexivity |]. repeat constructor. Qed.

Lemma all_finite_sample_B : all_finite sample_B.
Proof. repeat constructor. Qed.

(** The theorem of C5 at the 2×2 identity and a 2×3 matrix with a negative
    zero and a large entry. *)
Lemma matmul_product_witness :
  exists C, matmul (identity 2) sample_B = Ok C /\ mat_eq C sample_B.
Proof.
  refine (proj1 (proj2 (matmul_product (identity 2) sample_B 2 2 3 _ _ _ _)) eq_refl _).
  - lia.
  - lia.
  - exact (shape_identity 2).
  - exact shape_sample_B.
  - exact all_finite_sample_B.
Defined.

(** C5 as the specification words it fails on binary64 values: with an
    infinite entry in [B] the identity product holds a NaN where [B] holds
    [0.0], and the product with the zero matrix is not all zero. *)
Lemma matmul_identity_not_exact :
  matmul (identity 2) [[infinity; 0%float]; [0%float; 0%float]]
    = Ok [[infinity; 0%float]; [nan; 0%float]] /\
  ~ mat_eq [[infinity; 0%float]; [nan; 0%float]]
           [[infinity; 0%float]; [0%float; 0%float]] /\
  matmul (zeros 1 1) [[infinity]] = Ok [[nan]] /\
  [[nan]] <> zeros 1 1.
Proof.
  split; [vm_compute; reflexivity |]. split; [| split].
  - intros H. inversion H as [| r1 r1' M1 N1 _ H2]; subst.
    inversion H2 as [| r2 r2' M2 N2 H3 _]; subst.
    inversion H3 as [| x y xs ys Hxy _]; subst.
    vm_compute in Hxy. discriminate.
  - vm_compute. reflexivity.
  - intros H.
    apply (f_equal (fun M : matrix =>
             match M with [[x]] => PrimFloat.is_nan x | _ => false end)) in H.
    vm_compute in H. discriminate.
Qed.

Lemma body_ok_B (A B : matrix) (i j k : nat) (C C' : matrix) :
  body A B i j k C = Ok C' -> k < length B.
Proof.
  unfold body, bind. intros E.
  destruct (getitem C i); [| discriminate].
  destruct (getitem a j); [| discriminate].
  destruct (getitem A i); [| discriminate].
  destruct (getitem a1 k); [| discriminate].
  unfold getitem in E. destruct (B !! k) as [Bk |] eqn:EB; [| discriminate].
  eapply lookup_lt_Some, EB.
Qed.

(** Claim C9, as the code has it.  [matmul] checks no dimension.  It makes no
    out-of-range access when [A] is non-empty with rows of one length [l],
    [B] has at least [l] rows and every row of [B] is at least as long as
    [B[0]]; it raises [IndexError] on an empty [A], on an empty [B], and
    when [B] has fewer than [l] rows and [B[0]] is not empty. *)
Theorem matmul_index_safety :
  (forall (A B : matrix) (A0 B0 : list float),
     A !! 0 = Some A0 -> B !! 0 = Some B0 ->
     Forall (fun r => length r = length A0) A ->
     length A0 <= length B -> rows_ge B (length B0) ->
     exists C, matmul A B = Ok C /\ shape C (length A) (length B0)) /\
  (forall B : matrix, matmul [] B = Raise IndexError) /\
  (forall A : matrix, A <> [] -> matmul A [] = Raise IndexError) /\
  (forall (A B : matrix) (A0 B0 : list float),
     A !! 0 = Some A0 -> B !! 0 = Some B0 ->
     length B < length A0 -> 0 < length B0 ->
     matmul A B = Raise IndexError).
Proof.
  split; [| split; [| split]].
  - intros A B A0 B0 EA EB HA HBl HBn.
    destruct (matmul_ok A B A0 B0 EA EB) as (C & EC & HC & _); eauto.
    unfold rows_ge. eapply Forall_impl; [exact HA |]. simpl. intros r ->. lia.
  - reflexivity.
  - intros [| A0 A] HA; [congruence | reflexivity].
  - intros A B A0 B0 EA EB Hlt Hn.
    destruct (matmul A B) as [C | e] eqn:E.
    + exfalso. unfold matmul in E.
      rewrite (getitem_Some _ _ _ EA) in E; cbn [bind] in E.
      rewrite (getitem_Some _ _ _ EB) in E; cbn [bind] in E.
      unfold loops in E.
      assert (Hm : 0 < length A) by (eapply lookup_lt_Some, EA).
      eapply (for_each_ok_elem _ _ _ _ 0) in E as (C1 & C1' & E1);
        [| apply in_seq; lia].
      eapply (for_each_ok_elem _ _ _ _ 0) in E1 as (C2 & C2' & E2);
        [| apply in_seq; lia].
      eapply (for_each_ok_elem _ _ _ _ (length B)) in E2 as (C3 & C3' & E3);
        [| apply in_seq; lia].
      apply body_ok_B in E3. lia.
    + f_equal. eapply matmul_raise, E.
Qed.

(** The first part of C9 at a 1×2 matrix times a 3×1 matrix: one row of [B]
    more than [A] has columns, and no check stops the product. *)
Lemma matmul_index_safety_witness :
  exists C, matmul [[1%float; 2%float]] [[3%float]; [4%float]; [5%float]] = Ok C /\
            shape C 1 1.
Proof.
  refine (proj1 matmul_index_safety [[1%float; 2%float]]
            [[3%float]; [4%float]; [5%float]] [1%float; 2%float] [3%float]
            eq_refl eq_refl _ _ _).
  - repeat constructor.
  - simpl. lia.
  - repeat constructor.
Defined.

(** C9 as worded fails when [B[0]] is empty: [B] has fewer rows than [A] has
    columns, yet no loop body runs and [matmul] returns. *)
Lemma matmul_short_B_returns :
  length [[] : list float] < length [1%float; 2%float] /\
  matmul [[1%float; 2%float]] [[]] = Ok [[]].
Proof. split; [simpl; lia | reflexivity]. Qed.

(** *** Further facts about [matmul] *)

Lemma for_each_preserves {S X : Type} (P : S -> Prop) (f : X -> S -> outcome S)
    (xs : list X) (s s' : S) :
  (forall x s0 s1, P s0 -> f x s0 = Ok s1 -> P s1) ->
  P s -> for_each xs f s = Ok s' -> P s'.
Proof.
  intros Hf. revert s. induction xs as [| x xs IH]; intros s Hs E.
  - injection E as <-. exact Hs.
  - simpl in E. destruct (f x s) as [s1 |] eqn:Ex; [| discriminate].
    eapply IH; [eapply Hf; eassumption | exact E].
Qed.

Lemma body_shape (A B : matrix) (i j k m n : nat) (C C' : matrix) :
  shape C m n -> body A B i j k C = Ok C' -> shape C' m n.
Proof.
  intros [Hlen Hrows] E. unfold body, bind in E.
  destruct (getitem C i) as [Ci |] eqn:ECi; [| discriminate].
  destruct (getitem Ci j); [| discriminate].
  destruct (getitem A i); [| discriminate].
  destruct (getitem a0 k); [| discriminate].
  destruct (getitem B k); [| discriminate].
  destruct (getitem a2 j); [| discriminate].
  injection E as <-.
  unfold getitem in ECi. destruct (C !! i) as [r |] eqn:Er; [| discriminate].
  injection ECi as ->.
  split; [rewrite length_insert; exact Hlen |].
  apply Forall_insert; [exact Hrows |]. rewrite length_insert.
  rewrite Forall_lookup in Hrows. exact (Hrows i Ci Er).
Qed.

Lemma loops_shape (A B : matrix) (m n l m' n' : nat) (C C' : matrix) :
  shape C m' n' -> loops A B m n l C = Ok C' -> shape C' m' n'.
Proof.
  unfold loops. apply (for_each_preserves (fun M => shape M m' n')).
  intros i C1 C2. apply (for_each_preserves (fun M => shape M m' n')).
  intros j C3 C4. apply (for_each_preserves (fun M => shape M m' n')).
  intros k C5 C6. apply body_shape.
Qed.

(** X1.  Whenever [matmul(A, B)] returns, also on ragged input, the result
    has [len(A)] rows of [len(B[0])] entries each. *)
Theorem matmul_result_shape (A B C : matrix) :
  matmul A B = Ok C ->
  exists B0, B !! 0 = Some B0 /\ shape C (length A) (length B0).
Proof.
  unfold matmul, bind. intros E.
  destruct (getitem A 0) as [A0 |]; [| discriminate].
  unfold getitem at 1 in E. destruct (B !! 0) as [B0 |] eqn:EB; [| discriminate].
  exists B0. split; [reflexivity |].
  eapply loops_shape; [| exact E]. apply (shape_zeros (length A) (length B0)).
Qed.

Lemma matmul_result_shape_witness :
  exists B0, [[3%float; 4%float]; [5%float]] !! 0 = Some B0 /\
             shape [[3%float; 4%float]] 1 (length B0).
Proof.
  refine (matmul_result_shape [[1%float]] [[3%float; 4%float]; [5%float]]
            [[3%float; 4%float]] _).
  reflexivity.
Defined.

(** X2.  On lists of lists of floats the only exception [matmul] raises is
    [IndexError]. *)
Theorem matmul_only_index_error (A B : matrix) (e : exn) :
  matmul A B = Raise e -> e = IndexError.
Proof.
  unfold matmul, bind.
  destruct (getitem A 0) eqn:GA; [| apply getitem_raise in GA; congruence].
  destruct (getitem B 0) eqn:GB; [| apply getitem_raise in GB; congruence].
  unfold loops. apply (for_each_raise (fun e0 => e0 = IndexError)).
  intros i C1 e1. apply (for_each_raise (fun e0 => e0 = IndexError)).
  intros j C2 e2. apply (for_each_raise (fun e0 => e0 = IndexError)).
  intros k C3 e3. apply body_raise.
Qed.

Lemma matmul_only_index_error_witness : IndexError = IndexError.
Proof.
  refine (matmul_only_index_error [[1%float; 2%float]] [[3%float]] IndexError _).
  reflexivity.
Defined.

Lemma body_ok_reads (A B : matrix) (i j k : nat) (C C' : matrix) :
  body A B i j k C = Ok C' ->
  exists Ai Bk, A !! i = Some Ai /\ k < length Ai /\
                B !! k = Some Bk /\ j < length Bk.
Proof.
  unfold body, bind. intros E.
  destruct (getitem C i); [| discriminate].
  destruct (getitem a j); [| discriminate].
  unfold getitem at 1 in E. destruct (A !! i) as [Ai |] eqn:EA; [| discriminate].
  unfold getitem at 1 in E. destruct (Ai !! k) as [aik |] eqn:Eaik; [| discriminate].
  unfold getitem at 1 in E. destruct (B !! k) as [Bk |] eqn:EB; [| discriminate].
  unfold getitem at 1 in E. destruct (Bk !! j) as [bkj |] eqn:Ebkj; [| discriminate].
  exists Ai, Bk. repeat split; try reflexivity; eapply lookup_lt_Some; eassumption.
Qed.

(** X3.  The conditions of the index-safety claim are also necessary when
    [B[0]] is not empty: if [matmul(A, B)] returns, every row of [A] has at
    least [len(A[0])] entries, [B] has at least [len(A[0])] rows, and each
    of these rows has at least [len(B[0])] entries. *)
Theorem matmul_ok_needs (A B C : matrix) (A0 B0 : list float) :
  matmul A B = Ok C -> A !! 0 = Some A0 -> B !! 0 = Some B0 -> 0 < length B0 ->
  rows_ge A (length A0) /\
  (0 < length A0 -> length A0 <= length B) /\
  rows_ge (take (length A0) B) (length B0).
Proof.
  intros E EA EB Hn. unfold matmul in E.
  rewrite (getitem_Some _ _ _ EA) in E; cbn [bind] in E.
  rewrite (getitem_Some _ _ _ EB) in E; cbn [bind] in E.
  unfold loops in E.
  assert (Hm : 0 < length A) by (eapply lookup_lt_Some, EA).
  assert (Hbody : forall i j k, i < length A -> j < length B0 -> k < length A0 ->
            exists C1 C2, body A B i j k C1 = Ok C2).
  { intros i j k Hi Hj Hk.
    eapply (for_each_ok_elem _ _ _ _ i) in E as (C1 & C1' & E1);
      [| apply in_seq; lia].
    eapply (for_each_ok_elem _ _ _ _ j) in E1 as (C2 & C2' & E2);
      [| apply in_seq; lia].
    eapply (for_each_ok_elem _ _ _ _ k) in E2 as (C3 & C3' & E3);
      [| apply in_seq; lia].
    eauto. }
  split; [| split].
  - unfold rows_ge. apply Forall_lookup. intros i Ai EAi.
    destruct (length A0) as [| l'] eqn:El; [lia |].
    destruct (Hbody i 0 l' ltac:(eapply lookup_lt_Some, EAi) Hn ltac:(lia))
      as (C1 & C2 & Eb).
    apply body_ok_reads in Eb as (Ai' & Bk & EAi' & Hk & _). 
    rewrite EAi in EAi'. injection EAi' as <-. lia.
  - intros Hl. destruct (length A0) as [| l'] eqn:El; [lia |].
    destruct (Hbody 0 0 l' Hm Hn ltac:(lia)) as (C1 & C2 & Eb).
    apply body_ok_reads in Eb as (Ai & Bk & _ & _ & EBk & _).
    apply lookup_lt_Some in EBk. lia.
  - unfold rows_ge. apply Forall_lookup. intros k Bk EBk.
    pose proof (lookup_lt_Some _ _ _ EBk) as Hk. rewrite length_take in Hk.
    rewrite lookup_take_lt in EBk by lia.
    destruct (length B0) as [| n'] eqn:En; [lia |].
    destruct (Hbody 0 n' k Hm ltac:(lia) ltac:(lia)) as (C1 & C2 & Eb).
    apply body_ok_reads in Eb as (Ai & Bk' & _ & _ & EBk' & Hj).
    rewrite EBk in EBk'. injection EBk' as <-. lia.
Qed.

Lemma matmul_ok_needs_witness :
  rows_ge [[1%float; 2%float]] 2 /\
  (0 < 2 -> 2 <= length [[3%float]; [4%float]; [5%float]]) /\
  rows_ge (take 2 [[3%float]; [4%float]; [5%float]]) 1.
Proof.
  refine (matmul_ok_needs [[1%float; 2%float]] [[3%float]; [4%float]; [5%float]]
            [[11%float]] [1%float; 2%float] [3%float] _ _ _ _).
  - reflexivity.
  - reflexivity.
  - reflexivity.
  - simpl. lia.
Defined.

(** The top-left [l]×[n] block of [B]. *)
Definition block (l n : nat) (B : matrix) : matrix := take l (take n <$> B).

Lemma for_each_ext_in {S X : Type} (f g : X -> S -> outcome S) (xs : list X) (s : S) :
  (forall x s0, x ∈ xs -> f x s0 = g x s0) -> for_each xs f s = for_each xs g s.
Proof.
  revert s. induction xs as [| x xs IH]; intros s H; [reflexivity |].
  cbn [for_each]. rewrite (H x s) by apply list_elem_of_here.
  destruct (g x s); [| reflexivity].
  apply IH. intros y s0 Hy. apply H, list_elem_of_further, Hy.
Qed.

(** Inside the block, indexing the block is indexing [B]: the same entry
    or the same [IndexError]. *)
Lemma getitem_block (l n : nat) (B : matrix) (k j : nat) :
  k < l -> j < n ->
  (let* Bk := getitem (block l n B) k in getitem Bk j)
  = (let* Bk := getitem B k in getitem Bk j).
Proof.
  intros Hk Hj. unfold getitem, block.
  rewrite lookup_take_lt by lia. rewrite list_lookup_fmap.
  destruct (B !! k) as [r |]; [| reflexivity]. cbn.
  rewrite lookup_take_lt by lia. reflexivity.
Qed.

Lemma body_block (A B : matrix) (l n i j k : nat) (C : matrix) :
  k < l -> j < n -> body A (block l n B) i j k C = body A B i j k C.
Proof.
  intros Hk Hj. unfold body.
  destruct (getitem C i) as [Ci | e]; [| reflexivity]. cbn [bind].
  destruct (getitem Ci j) as [cij | e]; [| reflexivity]. cbn [bind].
  destruct (getitem A i) as [Ai | e]; [| reflexivity]. cbn [bind].
  destruct (getitem Ai k) as [aik | e]; [| reflexivity]. cbn [bind].
  pose proof (getitem_block l n B k j Hk Hj) as E.
  destruct (getitem (block l n B) k) as [Bk' | e'];
    destruct (getitem B k) as [Bk | e]; cbn [bind] in E |- *.
  - rewrite E. reflexivity.
  - rewrite E. reflexivity.
  - rewrite <- E. reflexivity.
  - injection E as ->. reflexivity.
Qed.

(** X4.  [matmul] checks no dimension and reads [B] only in the rows below
    [max(1, len(A[0]))] and the columns below [len(B[0])]: cutting [B] down
    to that block never changes what [matmul(A, B)] does, the matrix it
    returns or the [IndexError] it raises.  Row 0 counts even when
    [len(A[0])] is 0, because [len(B[0])] is always read. *)
Theorem matmul_reads_block (A B : matrix) (A0 B0 : list float) :
  A !! 0 = Some A0 -> B !! 0 = Some B0 ->
  matmul A (block (Nat.max 1 (length A0)) (length B0) B) = matmul A B.
Proof.
  intros EA EB. unfold matmul, getitem at 1 3. rewrite EA. cbn [bind].
  assert (EB' : block (Nat.max 1 (length A0)) (length B0) B !! 0
                = Some (take (length B0) B0)).
  { unfold block. rewrite lookup_take_lt by lia.
    rewrite list_lookup_fmap, EB. reflexivity. }
  unfold getitem. rewrite EB', EB. cbn [bind].
  rewrite length_take, Nat.min_id. unfold loops.
  apply for_each_ext_in. intros i C1 _.
  apply for_each_ext_in. intros j C2 Hj.
  apply for_each_ext_in. intros k C3 Hk.
  apply elem_of_seq in Hj, Hk. apply body_block; lia.
Qed.

(** The theorem at a [B] with a surplus row and surplus entries, and at
    [A = [[]]], where [len(A[0])] is 0 and row 0 of [B] is still needed:
    without it the call raises. *)
Lemma matmul_reads_block_witness :
  matmul [[1%float; 2%float]] [[3%float]; [4%float]]
    = matmul [[1%float; 2%float]] [[3%float]; [4%float; 9%float]; [5%float; 9%float]] /\
  matmul [[]] [[1%float]] = matmul [[]] [[1%float]; [2%float]] /\
  matmul [[]] [[1%float]] = Ok [[0%float]] /\
  matmul [[]] (block 0 1 [[1%float]]) = Raise IndexError.
Proof.
  split; [| split; [| split; reflexivity]].
  - exact (matmul_reads_block [[1%float; 2%float]]
             [[3%float]; [4%float; 9%float]; [5%float; 9%float]]
             [1%float; 2%float] [3%float] eq_refl eq_refl).
  - exact (matmul_reads_block [[]] [[1%float]; [2%float]] [] [1%float] eq_refl eq_refl).
Defined.

End Matmul.

(** ** matmul.py: the product on a shared store, one job per thread *)

Module MatmulHeap.

(** A Python value as [matmul] meets it: a float, or a reference to a list
    object of the store. *)
Inductive value : Type :=
| VFloat (x : float)
| VRef (a : nat).

(** The store: the list object at each address.  Allocation appends. *)
Abbreviation heap := (list (list value)).

Record world : Type := World {
  store : heap;
  stdout : list string
}.

(** All index triples the three nested loops visit, in the order they do. *)
Definition triples (m n l : nat) : list (nat * nat * nat) :=
  i ← seq 0 m; j ← seq 0 n; k ← seq 0 l; [(i, j, k)].

(** Where one call [matmul(A, B)] stands.  The statement
    [C[i][j] += A[i][k] * B[k][j]] takes two steps, the loads and the store,
    so that other threads may run in between. *)
Inductive job : Type :=
| JStart
| JAlloc (m l n : nat) (rows : list nat)
| JLoop (c : nat) (todo : list (nat * nat * nat))
| JStore (c row j : nat) (v : float) (todo : list (nat * nat * nat))
| JDone (c : nat)
| JRaised (e : exn).

(** The list object behind a reference; an address outside the store does
    not arise from Python code and is reported as a [TypeError]. *)
Definition load (h : heap) (a : nat) : outcome (list value) :=
  match h !! a with
  | Some o => Ok o
  | None => Raise TypeError
  end.

(** [len(v)] and [v[i]] need a list; a float raises [TypeError]. *)
Definition as_ref (v : value) : outcome nat :=
  match v with
  | VRef a => Ok a
  | VFloat _ => Raise TypeError
  end.

(** Arithmetic needs a float; a list operand raises [TypeError]. *)
Definition as_float (v : value) : outcome float :=
  match v with
  | VFloat x => Ok x
  | VRef _ => Raise TypeError
  end.

(** [M[i][j]] for a matrix object at address [a]. *)
Definition load_entry (h : heap) (a i j : nat) : outcome float :=
  let* o := load h a in
  let* vi := getitem o i in
  let* r := as_ref vi in
  let* row := load h r in
  let* x := getitem row j in
  as_float x.

(** [len(M), len(M[0])] for a matrix object at address [a]. *)
Definition dims (h : heap) (a : nat) : outcome (nat * nat) :=
  let* o := load h a in
  let* v0 := getitem o 0 in
  let* r := as_ref v0 in
  let* row := load h r in
  Ok (length o, length row).

(** The loads of [C[i][j] += A[i][k] * B[k][j]]: the row object of [C] that
    will be written, and the value to write. *)
Definition body_loads (h : heap) (a b c i j k : nat) : outcome (nat * float) :=
  let* oc := load h c in
  let* vi := getitem oc i in
  let* row := as_ref vi in
  let* orow := load h row in
  let* vij := getitem orow j in
  let* cij := as_float vij in
  let* aik := load_entry h a i k in
  let* bkj := load_entry h b k j in
  Ok (row, (cij + aik * bkj)%float).

(** One step of a job running [matmul(A, B)] with [A] at [a] and [B] at [b]. *)
Definition step (a b : nat) (w : world) (s : job) : world * job :=
  let h := store w in
  match s with
  | JStart =>
      match (let* da := dims h a in let* db := dims h b in Ok (da, db)) with
      | Ok ((m, l), (_, n)) => (w, JAlloc m l n [])
      | Raise e => (w, JRaised e)
      end
  | JAlloc m l n rows =>
      if length rows <? m
      then (World (h ++ [replicate n (VFloat 0%float)]) (stdout w),
            JAlloc m l n (rows ++ [length h]))
      else (World (h ++ [VRef <$> rows]) (stdout w),
            JLoop (length h) (triples m n l))
  | JLoop c [] =>
      (World h (stdout w ++ ["Finished"%string]), JDone c)
  | JLoop c ((i, j, k) :: todo) =>
      match body_loads h a b c i j k with
      | Ok (row, v) => (w, JStore c row j v todo)
      | Raise e => (w, JRaised e)
      end
  | JStore c row j v todo =>
      match load h row with
      | Ok o =>
          if j <? length o
          then (World (<[row := <[j := VFloat v]> o]> h) (stdout w), JLoop c todo)
          else (w, JRaised IndexError)
      | Raise e => (w, JRaised e)
      end
  | JDone c => (w, JDone c)
  | JRaised e => (w, JRaised e)
  end.

(** [fuel] steps of one job on its own. *)
Fixpoint run (a b : nat) (fuel : nat) (w : world) (s : job) : world * job :=
  match fuel with
  | 0 => (w, s)
  | S fuel' => let '(w', s') := step a b w s in run a b fuel' w' s'
  end.

(** The steps a job still needs. *)
Definition remaining (s : job) : nat :=
  match s with
  | JStart => 0
  | JAlloc m l n rows => (m - length rows) + 1 + 2 * (m * n * l) + 1
  | JLoop _ todo => 2 * length todo + 1
  | JStore _ _ _ _ todo => 2 * length todo + 2
  | JDone _ | JRaised _ => 0
  end.

(** A call [matmul(A, B)] run to its end: the first step reads the
    dimensions, which bound the steps left. *)
Definition call_matmul (a b : nat) (w : world) : world * job :=
  let '(w1, s1) := step a b w JStart in
  run a b (remaining s1) w1 s1.

(** [njobs] threads, each started on [matmul(A, B)] with the same two
    objects, scheduled one step at a time: [sched] lists the thread that
    runs next. *)
Definition step_thread (a b : nat) (st : world * list job) (t : nat)
  : world * list job :=
  match snd st !! t with
  | Some s => let '(w', s') := step a b (fst st) s in (w', <[t := s']> (snd st))
  | None => st
  end.

Definition run_threads (a b : nat) (sched : list nat) (st : world * list job)
  : world * list job :=
  fold_left (step_thread a b) sched st.

Definition spawn (njobs : nat) : list job := replicate njobs JStart.

Definition finished (s : job) : bool :=
  match s with
  | JDone _ | JRaised _ => true
  | _ => false
  end.

(** A matrix value laid out in the store: its rows, then the list of their
    addresses.  Returns the new store and the address of the matrix. *)
Definition alloc_matrix (M : Matmul.matrix) (h : heap) : heap * nat :=
  let rows : heap := (fun r : list float => VFloat <$> r) <$> M in
  let h' : heap := h ++ rows in
  let top : list value := VRef <$> seq (length h) (length M) in
  (h' ++ [top], length h').

(** The matrix value read back from the store, when the object at [a] is a
    list of references to lists of floats. *)
Definition read_row (h : heap) (v : value) : option (list float) :=
  match v with
  | VRef r =>
      o ← h !! r;
      mapM (fun x => match x with VFloat f => Some f | VRef _ => None end) o
  | VFloat _ => None
  end.

Definition read_matrix (h : heap) (a : nat) : option Matmul.matrix :=
  o ← h !! a; mapM (read_row h) o.

(** *** The frame of a job: the objects that were there stay as they were *)

Section Frame.

Variable h0 : heap.
Variables a b : nat.

(** The store still starts with the objects of [h0], unchanged. *)
Definition frame (w : world) : Prop := take (length h0) (store w) = h0.

(** Objects allocated since only refer to objects allocated since. *)
Definition fresh_refs (w : world) : Prop :=
  forall x o r, length h0 <= x -> store w !! x = Some o -> VRef r ∈ o -> length h0 <= r.

(** The addresses a job holds for writing were allocated since. *)
Definition job_ok (s : job) : Prop :=
  match s with
  | JAlloc _ _ _ rows => Forall (fun r => length h0 <= r) rows
  | JLoop c _ => length h0 <= c
  | JStore c row _ _ _ => length h0 <= c /\ length h0 <= row
  | _ => True
  end.

Definition inv (w : world) : Prop := frame w /\ fresh_refs w.

Lemma frame_length (w : world) : frame w -> length h0 <= length (store w).
Proof.
  unfold frame. intros H. apply (f_equal length) in H.
  rewrite length_take in H. lia.
Qed.

Lemma inv_alloc (w : world) (o : list value) (out : list string) :
  inv w -> (forall r, VRef r ∈ o -> length h0 <= r) ->
  inv (World (store w ++ [o]) out).
Proof.
  intros [Hf Hr] Ho. pose proof (frame_length w Hf) as Hlen. split.
  - unfold frame in *. cbn [store]. rewrite take_app_le by lia. exact Hf.
  - intros x o' r Hx Hlook Hin. cbn [store] in Hlook.
    destruct (decide (x < length (store w))) as [Hlt | Hge].
    + rewrite lookup_app_l in Hlook by lia. eapply Hr; eassumption.
    + rewrite lookup_app_r in Hlook by lia.
      destruct (x - length (store w)) as [| k]; [| destruct k; discriminate].
      injection Hlook as <-. apply Ho, Hin.
Qed.

Lemma inv_store (w : world) (row j : nat) (o : list value) (v : float)
    (out : list string) :
  inv w -> length h0 <= row -> store w !! row = Some o ->
  inv (World (<[row := <[j := VFloat v]> o]> (store w)) out).
Proof.
  intros [Hf Hr] Hrow Ho. split.
  - unfold frame in *. cbn [store]. rewrite take_insert_ge by lia. exact Hf.
  - intros x o' r Hx Hlook Hin. cbn [store] in Hlook.
    destruct (decide (x = row)) as [-> | Hne].
    + rewrite list_lookup_insert_eq in Hlook by (eapply lookup_lt_Some, Ho).
      injection Hlook as <-.
      apply list_elem_of_lookup in Hin as [k Hk].
      destruct (decide (k = j)) as [-> | Hkj].
      * destruct (decide (j < length o)) as [Hj | Hj].
        -- rewrite list_lookup_insert_eq in Hk by lia. discriminate.
        -- rewrite list_insert_ge in Hk by lia.
           eapply (Hr row o r Hrow Ho), list_elem_of_lookup_2, Hk.
      * rewrite list_lookup_insert_ne in Hk by congruence.
        eapply (Hr row o r Hrow Ho), list_elem_of_lookup_2, Hk.
    + rewrite list_lookup_insert_ne in Hlook by congruence.
      eapply Hr; eassumption.
Qed.

Lemma body_loads_row (w : world) (c i j k row : nat) (v : float) :
  fresh_refs w -> length h0 <= c ->
  body_loads (store w) a b c i j k = Ok (row, v) -> length h0 <= row.
Proof.
  intros Hr Hc E. unfold body_loads, bind in E.
  destruct (load (store w) c) as [oc |] eqn:Eoc; [| discriminate].
  destruct (getitem oc i) as [vi |] eqn:Evi; [| discriminate].
  destruct (as_ref vi) as [row' |] eqn:Erow; [| discriminate].
  destruct (load (store w) row'); [| discriminate].
  destruct (getitem a0 j); [| discriminate].
  destruct (as_float a1); [| discriminate].
  destruct (load_entry (store w) a i k); [| discriminate].
  destruct (load_entry (store w) b k j); [| discriminate].
  injection E as <- _.
  unfold load in Eoc. destruct (store w !! c) as [oc' |] eqn:Ec; [| discriminate].
  injection Eoc as ->.
  unfold getitem in Evi. destruct (oc !! i) as [vi' |] eqn:Ei; [| discriminate].
  injection Evi as ->.
  destruct vi as [| r]; [discriminate |]. injection Erow as ->.
  eapply (Hr c oc row' Hc Ec), list_elem_of_lookup_2, Ei.
Qed.

(** Every step of a job keeps the frame. *)
Lemma step_inv (w w' : world) (s s' : job) :
  inv w -> job_ok s -> step a b w s = (w', s') -> inv w' /\ job_ok s'.
Proof.
  intros Hinv Hs E. pose proof (frame_length w (proj1 Hinv)) as Hlen.
  destruct s as [| m l n rows | c [| [[i j] k] todo] | c row j v todo | c | e];
    cbn [step] in E.
  - destruct (let* da := dims (store w) a in let* db := dims (store w) b in Ok (da, db))
      as [[[m l] [x n]] | e]; injection E as <- <-; split; try assumption.
    constructor.
  - cbn [job_ok] in Hs. destruct (length rows <? m); injection E as <- <-.
    + split.
      * apply inv_alloc; [assumption |]. intros r Hin.
        apply elem_of_replicate in Hin as [? _]. discriminate.
      * cbn [job_ok]. apply Forall_app. split; [assumption |].
        constructor; [lia | constructor].
    + split.
      * apply inv_alloc; [assumption |]. intros r Hin.
        apply list_elem_of_fmap in Hin as (r' & Er & Hin). injection Er as ->.
        rewrite Forall_forall in Hs. apply Hs, Hin.
      * cbn [job_ok]. lia.
  - injection E as <- <-. split; [| exact I].
    destruct Hinv as [Hf Hr]. split; [exact Hf | exact Hr].
  - cbn [job_ok] in Hs.
    destruct (body_loads (store w) a b c i j k) as [[row v] |] eqn:Eb;
      injection E as <- <-; split; try assumption; [| exact I].
    cbn [job_ok]. split; [assumption |].
    eapply body_loads_row; [apply Hinv | exact Hs | exact Eb].
  - cbn [job_ok] in Hs. destruct Hs as [Hc Hrow].
    unfold load in E. destruct (store w !! row) as [o |] eqn:Eo.
    + destruct (j <? length o); injection E as <- <-.
      * split; [| exact Hc]. apply inv_store; assumption.
      * split; [assumption | exact I].
    + injection E as <- <-. split; [assumption | exact I].
  - injection E as <- <-. split; [assumption | exact I].
  - injection E as <- <-. split; [assumption | exact I].
Qed.

Lemma run_inv (fuel : nat) (w : world) (s : job) :
  inv w -> job_ok s -> inv (fst (run a b fuel w s)) /\ job_ok (snd (run a b fuel w s)).
Proof.
  revert w s. induction fuel as [| fuel IH]; intros w s Hw Hs; [split; assumption |].
  cbn [run]. destruct (step a b w s) as [w' s'] eqn:E.
  destruct (step_inv w w' s s' Hw Hs E). apply IH; assumption.
Qed.

Lemma step_thread_inv (st : world * list job) (t : nat) :
  inv (fst st) -> Forall job_ok (snd st) ->
  inv (fst (step_thread a b st t)) /\ Forall job_ok (snd (step_thread a b st t)).
Proof.
  intros Hw Hjobs. unfold step_thread.
  destruct (snd st !! t) as [s |] eqn:Es; [| split; assumption].
  destruct (step a b (fst st) s) as [w' s'] eqn:E.
  assert (Hs : job_ok s).
  { rewrite Forall_lookup in Hjobs. exact (Hjobs t s Es). }
  destruct (step_inv _ _ _ _ Hw Hs E) as [Hw' Hs'].
  split; [exact Hw' |]. cbn [snd]. apply Forall_insert; assumption.
Qed.

Lemma run_threads_inv (sched : list nat) (st : world * list job) :
  inv (fst st) -> Forall job_ok (snd st) ->
  inv (fst (run_threads a b sched st)) /\
  Forall job_ok (snd (run_threads a b sched st)).
Proof.
  unfold run_threads. revert st.
  induction sched as [| t sched IH]; intros st Hw Hjobs; [split; assumption |].
  cbn [fold_left]. destruct (step_thread_inv st t Hw Hjobs). apply IH; assumption.
Qed.

End Frame.

Lemma inv_initial (w : world) : inv (store w) w.
Proof.
  split.
  - unfold frame. apply take_ge. lia.
  - intros x o r Hx Hlook _. apply lookup_lt_Some in Hlook. lia.
Qed.

Lemma spawn_ok (h0 : heap) (njobs : nat) : Forall (job_ok h0) (spawn njobs).
Proof. apply Forall_replicate. exact I. Qed.

(** What a caller holding matrices in the store observes: every object that
    existed is unchanged, so every matrix readable before reads the same. *)
Definition preserved (w w' : world) : Prop :=
  take (length (store w)) (store w') = store w /\
  forall x M, read_matrix (store w) x = Some M -> read_matrix (store w') x = Some M.

Lemma frame_lookup (h h' : heap) (x : nat) (o : list value) :
  take (length h) h' = h -> h !! x = Some o -> h' !! x = Some o.
Proof.
  intros Hf Hx. pose proof (lookup_lt_Some _ _ _ Hx) as Hlt.
  rewrite <- Hf in Hx. rewrite lookup_take_lt in Hx by lia. exact Hx.
Qed.

Lemma mapM_mono {X Y : Type} (f g : X -> option Y) (l : list X) (ys : list Y) :
  (forall v y, f v = Some y -> g v = Some y) ->
  mapM f l = Some ys -> mapM g l = Some ys.
Proof.
  intros Hfg. revert ys. induction l as [| v l IH]; intros ys E; [exact E |].
  cbn in E |- *. destruct (f v) as [y |] eqn:Ev; [| discriminate].
  rewrite (Hfg v y Ev). cbn in E |- *.
  destruct (mapM f l) as [k |]; [| discriminate].
  rewrite (IH k eq_refl). exact E.
Qed.

Lemma frame_preserved (w w' : world) : frame (store w) w' -> preserved w w'.
Proof.
  unfold frame. intros Hf. split; [exact Hf |].
  intros x M. unfold read_matrix.
  destruct (store w !! x) as [o |] eqn:Eo; [| discriminate].
  rewrite (frame_lookup _ _ _ _ Hf Eo). cbn.
  apply mapM_mono. intros [f | r] row; [discriminate |].
  unfold read_row. destruct (store w !! r) as [orow |] eqn:Er; [| discriminate].
  rewrite (frame_lookup _ _ _ _ Hf Er). auto.
Qed.

(** Claim C10.  A call [matmul(A, B)] leaves every object that existed
    before the call as it was, the rows of [A] and [B] among them: it writes
    only into objects it allocated.  The same holds for [njobs] threads that
    all run [matmul] on one [A] and one [B], under every interleaving of
    their steps. *)
Theorem matmul_frame (a b : nat) (w : world) :
  preserved w (fst (call_matmul a b w)) /\
  forall (njobs : nat) (sched : list nat),
    preserved w (fst (run_threads a b sched (w, spawn njobs))).
Proof.
  split.
  - apply frame_preserved. unfold call_matmul.
    destruct (step a b w JStart) as [w1 s1] eqn:E1.
    destruct (step_inv (store w) a b w w1 JStart s1 (inv_initial w) I E1) as [H1 Hs1].
    apply (run_inv (store w) a b (remaining s1) w1 s1 H1 Hs1).
  - intros njobs sched. apply frame_preserved.
    apply (run_threads_inv (store w) a b sched (w, spawn njobs)).
    + apply inv_initial.
    + apply spawn_ok.
Qed.

(** *** A job ends within the steps its dimensions allow *)

Lemma length_bind_const {X Y : Type} (f : X -> list Y) (xs : list X) (c : nat) :
  (forall x, length (f x) = c) -> length (xs ≫= f) = length xs * c.
Proof.
  intros Hf. induction xs as [| x xs IH]; [reflexivity |].
  rewrite bind_cons, length_app, Hf, IH. simpl. lia.
Qed.

Lemma length_triples (m n l : nat) : length (triples m n l) = m * n * l.
Proof.
  unfold triples.
  rewrite (length_bind_const _ _ (n * l)), length_seq; [lia |].
  intros i. rewrite (length_bind_const _ _ l), length_seq; [lia |].
  intros j. rewrite (length_bind_const _ _ 1), length_seq; [lia |].
  reflexivity.
Qed.

Lemma step_remaining (a b : nat) (w w' : world) (s s' : job) :
  s <> JStart -> step a b w s = (w', s') ->
  s' <> JStart /\ (finished s' = true \/ remaining s' < remaining s).
Proof.
  intros Hs E.
  destruct s as [| m l n rows | c [| [[i j] k] todo] | c row j v todo | c | e];
    cbn [step] in E; try congruence.
  - destruct (length rows <? m) eqn:Elt; injection E as <- <-;
      (split; [discriminate |]); right; cbn [remaining].
    + apply Nat.ltb_lt in Elt. rewrite length_app. simpl. lia.
    + rewrite length_triples. lia.
  - injection E as <- <-. split; [discriminate | left; reflexivity].
  - destruct (body_loads (store w) a b c i j k) as [[row v] |];
      injection E as <- <-; (split; [discriminate |]).
    + right. cbn [remaining length]. lia.
    + left. reflexivity.
  - destruct (load (store w) row) as [o |]; [destruct (j <? length o) |];
      injection E as <- <-; (split; [discriminate |]).
    + right. cbn [remaining]. lia.
    + left. reflexivity.
    + left. reflexivity.
  - injection E as <- <-. split; [discriminate | left; reflexivity].
  - injection E as <- <-. split; [discriminate | left; reflexivity].
Qed.

Lemma step_finished (a b : nat) (w : world) (s : job) :
  finished s = true -> step a b w s = (w, s).
Proof. destruct s; try discriminate; reflexivity. Qed.

Lemma run_finished (a b fuel : nat) (w : world) (s : job) :
  finished s = true -> run a b fuel w s = (w, s).
Proof.
  intros Hs. induction fuel as [| fuel IH]; [reflexivity |].
  cbn [run]. rewrite (step_finished a b w s Hs). exact IH.
Qed.

Lemma run_ends (a b fuel : nat) (w : world) (s : job) :
  s <> JStart -> remaining s <= fuel -> finished (snd (run a b fuel w s)) = true.
Proof.
  revert w s. induction fuel as [| fuel IH]; intros w s Hs Hrem.
  - destruct s as [| m l n rows | c todo | c row j v todo | c | e];
      cbn [remaining] in Hrem; try lia; try reflexivity. congruence.
  - cbn [run]. destruct (step a b w s) as [w' s'] eqn:E.
    destruct (step_remaining a b w w' s s' Hs E) as [Hs' [Hfin | Hlt]].
    + rewrite (run_finished a b fuel w' s' Hfin). exact Hfin.
    + apply IH; [exact Hs' | lia].
Qed.

Lemma call_matmul_finished (a b : nat) (w : world) :
  finished (snd (call_matmul a b w)) = true.
Proof.
  unfold call_matmul. destruct (step a b w JStart) as [w1 s1] eqn:E.
  apply run_ends; [| lia].
  cbn [step] in E.
  destruct (let* da := dims (store w) a in let* db := dims (store w) b in Ok (da, db))
    as [[[m l] [x n]] |]; injection E as <- <-; discriminate.
Qed.

(** X5.  A call of [matmul] on the store always ends, with a result or with
    an exception, whatever the store holds at the two addresses: the steps
    counted from the dimensions read in the first step suffice. *)
Theorem call_matmul_ends (a b : nat) (w : world) :
  exists s, snd (call_matmul a b w) = s /\
            ((exists c, s = JDone c) \/ (exists e, s = JRaised e)).
Proof.
  pose proof (call_matmul_finished a b w) as H.
  destruct (snd (call_matmul a b w)) as [| | | | c | e] eqn:E; try discriminate; eauto.
Qed.

(** *** Matrices in the store *)

(** A value of the store that is a reference to the row [r] of floats. *)
Definition rep_row (h : heap) (v : value) (r : list float) : Prop :=
  exists x, v = VRef x /\ h !! x = Some (VFloat <$> r).

(** The object at [a] is the matrix [M]. *)
Definition repr (h : heap) (a : nat) (M : Matmul.matrix) : Prop :=
  exists o, h !! a = Some o /\ Forall2 (rep_row h) o M.

Definition unbox (x : value) : option float :=
  match x with VFloat f => Some f | VRef _ => None end.

Lemma mapM_unbox (o : list value) (r : list float) :
  mapM unbox o = Some r <-> o = VFloat <$> r.
Proof.
  rewrite mapM_Some. split.
  - intros H. induction H as [| x f o r Hx _ IH]; [reflexivity |].
    destruct x; [| discriminate]. injection Hx as ->. cbn. f_equal. exact IH.
  - intros ->. induction r as [| f r IH]; constructor; [reflexivity | exact IH].
Qed.

Lemma read_row_rep (h : heap) (v : value) (r : list float) :
  read_row h v = Some r <-> rep_row h v r.
Proof.
  unfold read_row, rep_row. split.
  - destruct v as [| x]; [discriminate |].
    destruct (h !! x) as [o |] eqn:Eo; [| discriminate]. cbn.
    intros H. apply mapM_unbox in H. subst o. eauto.
  - intros (x & -> & Hx). rewrite Hx. cbn. apply mapM_unbox. reflexivity.
Qed.

Lemma read_matrix_repr (h : heap) (a : nat) (M : Matmul.matrix) :
  read_matrix h a = Some M <-> repr h a M.
Proof.
  unfold read_matrix, repr. split.
  - destruct (h !! a) as [o |] eqn:Eo; [| discriminate]. cbn.
    intros H. apply mapM_Some in H. exists o. split; [reflexivity |].
    eapply Forall2_impl; [exact H |]. intros v r. apply read_row_rep.
  - intros (o & -> & H). cbn. apply mapM_Some.
    eapply Forall2_impl; [exact H |]. intros v r. apply read_row_rep.
Qed.

Lemma repr_frame (h h' : heap) (x : nat) (M : Matmul.matrix) :
  take (length h) h' = h -> repr h x M -> repr h' x M.
Proof.
  intros Hf (o & Ho & Hrows). exists o. split; [eapply frame_lookup; eassumption |].
  eapply Forall2_impl; [exact Hrows |].
  intros v r (y & -> & Hy). exists y. split; [reflexivity |].
  eapply frame_lookup; eassumption.
Qed.

Lemma load_entry_repr (h : heap) (x : nat) (M : Matmul.matrix) (i k : nat) :
  repr h x M ->
  load_entry h x i k = (let* Mi := getitem M i in getitem Mi k).
Proof.
  intros (o & Ho & Hrows). unfold load_entry, load. rewrite Ho. cbn [bind].
  unfold getitem at 1 3.
  destruct (o !! i) as [v |] eqn:Ev.
  - destruct (Forall2_lookup_l _ _ _ i v Hrows Ev) as (Mi & EMi & (y & -> & Hy)).
    rewrite EMi. cbn [bind as_ref]. rewrite Hy. cbn [bind].
    unfold getitem. rewrite list_lookup_fmap.
    destruct (Mi !! k); reflexivity.
  - apply lookup_ge_None in Ev. rewrite (Forall2_length _ _ _ Hrows) in Ev.
    rewrite (lookup_ge_None_2 M i Ev). reflexivity.
Qed.

Lemma dims_repr (h : heap) (x : nat) (M : Matmul.matrix) :
  repr h x M ->
  dims h x = (let* M0 := getitem M 0 in Ok (length M, length M0)).
Proof.
  intros (o & Ho & Hrows). unfold dims, load. rewrite Ho. cbn [bind].
  unfold getitem.
  destruct (o !! 0) as [v |] eqn:Ev.
  - destruct (Forall2_lookup_l _ _ _ 0 v Hrows Ev) as (M0 & EM0 & (y & -> & Hy)).
    rewrite EM0. cbn [bind as_ref]. rewrite Hy. cbn [bind].
    rewrite length_fmap, (Forall2_length _ _ _ Hrows). reflexivity.
  - apply lookup_ge_None in Ev. rewrite (Forall2_length _ _ _ Hrows) in Ev.
    rewrite (lookup_ge_None_2 M 0 Ev). reflexivity.
Qed.

(** The three nested loops as one loop over [triples]. *)
Definition bodyT (A B : Matmul.matrix) (t : nat * nat * nat) (C : Matmul.matrix)
  : outcome Matmul.matrix :=
  let '(i, j, k) := t in Matmul.body A B i j k C.

Lemma for_each_app {S X : Type} (f : X -> S -> outcome S) (xs ys : list X) (s : S) :
  for_each (xs ++ ys) f s = (let* s' := for_each xs f s in for_each ys f s').
Proof.
  revert s. induction xs as [| x xs IH]; intros s; [reflexivity |].
  cbn [app for_each]. destruct (f x s); [apply IH | reflexivity].
Qed.

Lemma for_each_bind {S X Y : Type} (g : X -> list Y) (f : Y -> S -> outcome S)
    (xs : list X) (s : S) :
  for_each (xs ≫= g) f s = for_each xs (fun x => for_each (g x) f) s.
Proof.
  revert s. induction xs as [| x xs IH]; intros s; [reflexivity |].
  rewrite bind_cons, for_each_app. cbn [for_each].
  destruct (for_each (g x) f s); [apply IH | reflexivity].
Qed.

Lemma for_each_ext {S X : Type} (f g : X -> S -> outcome S) (xs : list X) (s : S) :
  (forall x s0, f x s0 = g x s0) -> for_each xs f s = for_each xs g s.
Proof.
  intros H. revert s. induction xs as [| x xs IH]; intros s; [reflexivity |].
  cbn [for_each]. rewrite H. destruct (g x s); [apply IH | reflexivity].
Qed.

Lemma loops_flat (A B : Matmul.matrix) (m n l : nat) (C : Matmul.matrix) :
  Matmul.loops A B m n l C = for_each (triples m n l) (bodyT A B) C.
Proof.
  unfold Matmul.loops, triples. rewrite for_each_bind.
  apply for_each_ext. intros i C1. rewrite for_each_bind.
  apply for_each_ext. intros j C2. rewrite for_each_bind.
  apply for_each_ext. intros k C3. cbn [for_each bodyT].
  destruct (Matmul.body A B i j k C3); reflexivity.
Qed.

(** The dimensions [matmul] reads from [A] and [B], when both have a first
    row. *)
Definition problem (A B : Matmul.matrix) (m l n : nat) : Prop :=
  exists A0 B0, A !! 0 = Some A0 /\ B !! 0 = Some B0 /\
    m = length A /\ l = length A0 /\ n = length B0.

Lemma matmul_flat (A B : Matmul.matrix) (m l n : nat) :
  problem A B m l n ->
  Matmul.matmul A B = for_each (triples m n l) (bodyT A B) (Matmul.zeros m n).
Proof.
  intros (A0 & B0 & EA & EB & -> & -> & ->). unfold Matmul.matmul.
  rewrite (Matmul.getitem_Some _ _ _ EA); cbn [bind].
  rewrite (Matmul.getitem_Some _ _ _ EB); cbn [bind].
  apply loops_flat.
Qed.

Lemma problem_fun (A B : Matmul.matrix) (m l n m' l' n' : nat) :
  problem A B m l n -> problem A B m' l' n' -> m = m' /\ l = l' /\ n = n'.
Proof.
  intros (A0 & B0 & EA & EB & -> & -> & ->) (A0' & B0' & EA' & EB' & -> & -> & ->).
  rewrite EA in EA'. rewrite EB in EB'.
  injection EA' as ->. injection EB' as ->. auto.
Qed.

Lemma getitem_fmap {X Y : Type} (f : X -> Y) (l : list X) (i : nat) :
  getitem (f <$> l) i
  = match l !! i with Some x => Ok (f x) | None => Raise IndexError end.
Proof. unfold getitem. rewrite list_lookup_fmap. destruct (l !! i); reflexivity. Qed.

Lemma getitem_None {X : Type} (l : list X) (i : nat) :
  l !! i = None -> getitem l i = Raise IndexError.
Proof. unfold getitem. intros ->. reflexivity. Qed.

(** *** Jobs that share [A] and [B]: each computes the product *)

(** What a job has built so far: the addresses of the rows of its result
    and the matrix these rows hold. *)
Record ghost : Type := Ghost {
  g_rows : list nat;
  g_C : Matmul.matrix
}.

Definition is_done (s : job) : bool :=
  match s with JDone _ => true | _ => false end.

Section Simulation.

Variable h0 : heap.
Variables a b : nat.
Variables A B : Matmul.matrix.
Hypothesis HA : repr h0 a A.
Hypothesis HB : repr h0 b B.

(** The rows at [g_rows g] hold [g_C g]. *)
Definition rep_rows (h : heap) (g : ghost) : Prop :=
  Forall2 (fun r Mi => h !! r = Some (VFloat <$> Mi)) (g_rows g) (g_C g).

(** The object at [c] lists the rows of [g], which hold [g_C g]. *)
Definition rep_C (h : heap) (c : nat) (g : ghost) : Prop :=
  h !! c = Some (VRef <$> g_rows g) /\ rep_rows h g.

(** The addresses a job allocated and still uses. *)
Definition own (s : job) (g : ghost) : list nat :=
  g_rows g ++
  match s with
  | JLoop c _ | JStore c _ _ _ _ | JDone c => [c]
  | _ => []
  end.

(** How the state of a job relates to the run of [matmul] on values. *)
Definition job_inv (h : heap) (s : job) (g : ghost) : Prop :=
  match s with
  | JStart => g_rows g = []
  | JAlloc m l n rows =>
      problem A B m l n /\ rows = g_rows g /\ length rows <= m /\
      g_C g = replicate (length rows) (replicate n 0%float) /\ rep_rows h g
  | JLoop c todo =>
      exists m l n done, problem A B m l n /\ triples m n l = done ++ todo /\
        for_each done (bodyT A B) (Matmul.zeros m n) = Ok (g_C g) /\ rep_C h c g
  | JStore c row j v todo =>
      exists m l n done i k Ci, problem A B m l n /\
        triples m n l = done ++ (i, j, k) :: todo /\
        for_each done (bodyT A B) (Matmul.zeros m n) = Ok (g_C g) /\ rep_C h c g /\
        g_rows g !! i = Some row /\ g_C g !! i = Some Ci /\ j < length Ci /\
        Matmul.body A B i j k (g_C g) = Ok (<[i := <[j := v]> Ci]> (g_C g))
  | JDone c => rep_C h c g /\ Matmul.matmul A B = Ok (g_C g)
  | JRaised e => Matmul.matmul A B = Raise e
  end.

Lemma rep_rows_agree (h h' : heap) (g : ghost) :
  (forall x, x ∈ g_rows g -> h' !! x = h !! x) -> rep_rows h g -> rep_rows h' g.
Proof.
  unfold rep_rows. intros Hag H.
  apply Forall2_same_length_lookup. apply Forall2_same_length_lookup in H as [Hlen H].
  split; [exact Hlen |]. intros i r Mi Er EM.
  rewrite Hag by (eapply list_elem_of_lookup_2; exact Er). eauto.
Qed.

Lemma rep_C_agree (h h' : heap) (c : nat) (g : ghost) :
  (forall x, x ∈ g_rows g ++ [c] -> h' !! x = h !! x) -> rep_C h c g -> rep_C h' c g.
Proof.
  intros Hag [Hc Hrows]. split.
  - rewrite Hag; [exact Hc |]. apply elem_of_app. right. apply list_elem_of_singleton.
    reflexivity.
  - eapply rep_rows_agree; [| exact Hrows]. intros x Hx. apply Hag.
    apply elem_of_app. left. exact Hx.
Qed.

(** The invariant of a job only looks at the addresses the job owns. *)
Lemma job_inv_agree (h h' : heap) (s : job) (g : ghost) :
  (forall x, x ∈ own s g -> h' !! x = h !! x) -> job_inv h s g -> job_inv h' s g.
Proof.
  intros Hag. destruct s as [| m l n rows | c todo | c row j v todo | c | e];
    cbn [job_inv own] in *.
  - auto.
  - intros (Hp & Hr & Hl & HC & Hrep). repeat split; try assumption.
    eapply rep_rows_agree; [| exact Hrep]. intros x Hx. apply Hag.
    apply elem_of_app. left. exact Hx.
  - intros (m & l & n & done & Hp & Ht & Hf & Hrep).
    exists m, l, n, done. split; [exact Hp |]. split; [exact Ht |].
    split; [exact Hf |]. eapply rep_C_agree; [exact Hag | exact Hrep].
  - intros (m & l & n & done & i & k & Ci & Hp & Ht & Hf & Hrep & Hrest).
    exists m, l, n, done, i, k, Ci. split; [exact Hp |]. split; [exact Ht |].
    split; [exact Hf |].
    split; [eapply rep_C_agree; [exact Hag | exact Hrep] | exact Hrest].
  - intros [Hrep Hm].
    split; [eapply rep_C_agree; [exact Hag | exact Hrep] | exact Hm].
  - auto.
Qed.

(** The loads of the heap body succeed exactly when the body on values
    does, and then they yield the row and the value the body stores. *)
Lemma body_loads_sim (h : heap) (c i j k : nat) (g : ghost) :
  repr h a A -> repr h b B -> rep_C h c g ->
  match Matmul.body A B i j k (g_C g) with
  | Ok C' =>
      exists row Ci v, body_loads h a b c i j k = Ok (row, v) /\
        g_rows g !! i = Some row /\ g_C g !! i = Some Ci /\ j < length Ci /\
        C' = <[i := <[j := v]> Ci]> (g_C g)
  | Raise e => body_loads h a b c i j k = Raise e
  end.
Proof.
  intros Ha Hb [Hc Hrows]. unfold body_loads, Matmul.body, load.
  rewrite Hc. cbn [bind]. rewrite (load_entry_repr h a A i k Ha).
  rewrite (load_entry_repr h b B k j Hb). rewrite getitem_fmap.
  destruct (g_rows g !! i) as [row |] eqn:Erow.
  - destruct (Forall2_lookup_l _ _ _ i row Hrows Erow) as (Ci & ECi & Hrow).
    rewrite (Matmul.getitem_Some _ _ _ ECi). cbn [bind as_ref]. rewrite Hrow.
    cbn [bind]. rewrite getitem_fmap.
    destruct (Ci !! j) as [cij |] eqn:Ecij.
    + rewrite (Matmul.getitem_Some _ _ _ Ecij). cbn [bind as_float].
      destruct (getitem A i) as [Ai |]; [| reflexivity]. cbn [bind].
      destruct (getitem Ai k) as [aik |]; [| reflexivity]. cbn [bind].
      destruct (getitem B k) as [Bk |]; [| reflexivity]. cbn [bind].
      destruct (getitem Bk j) as [bkj |]; [| reflexivity]. cbn [bind].
      exists row, Ci, (cij + aik * bkj)%float.
      repeat split; try assumption; try reflexivity. eapply lookup_lt_Some, Ecij.
    + rewrite (getitem_None _ _ Ecij). reflexivity.
  - apply lookup_ge_None in Erow. rewrite (Forall2_length _ _ _ Hrows) in Erow.
    rewrite (getitem_None _ _ (lookup_ge_None_2 _ _ Erow)). reflexivity.
Qed.

(** What one step of a job guarantees: its own invariant, and that it
    touched nothing another job owns. *)
Definition local_step (w w' : world) (s s' : job) (g g' : ghost) : Prop :=
  job_inv (store w') s' g' /\ NoDup (own s' g') /\
  Forall (fun x => length h0 <= x < length (store w')) (own s' g') /\
  (forall x, x ∈ own s' g' -> x ∈ own s g \/ length (store w) <= x) /\
  length (store w) <= length (store w') /\
  (forall x, x < length (store w) -> x ∉ own s g -> store w' !! x = store w !! x) /\
  stdout w' = stdout w ++ (if is_done s' && negb (is_done s) then ["Finished"%string] else []).

Lemma local_same (w : world) (s s' : job) (g g' : ghost) :
  job_inv (store w) s' g' -> NoDup (own s' g') ->
  Forall (fun x => length h0 <= x < length (store w)) (own s g) ->
  (forall x, x ∈ own s' g' -> x ∈ own s g) ->
  is_done s' && negb (is_done s) = false ->
  local_step w w s s' g g'.
Proof.
  intros Hinv Hnd Hb Hsub Hd. unfold local_step. rewrite Hd, app_nil_r.
  repeat split; auto.
  apply Forall_forall. intros x Hx. rewrite Forall_forall in Hb. auto.
Qed.

Lemma NoDup_own_rows (s : job) (g : ghost) : NoDup (own s g) -> NoDup (g_rows g).
Proof. unfold own. intros H. apply NoDup_app in H. apply H. Qed.

Lemma step_local (w w' : world) (s s' : job) (g : ghost) :
  take (length h0) (store w) = h0 ->
  job_inv (store w) s g -> NoDup (own s g) ->
  Forall (fun x => length h0 <= x < length (store w)) (own s g) ->
  step a b w s = (w', s') ->
  exists g', local_step w w' s s' g g'.
Proof.
  intros Hf Hinv Hnd Hb E.
  assert (Hlen0 : length h0 <= length (store w)).
  { apply (f_equal length) in Hf. rewrite length_take in Hf. lia. }
  assert (Ha : repr (store w) a A) by (eapply repr_frame; [exact Hf | exact HA]).
  assert (Hb' : repr (store w) b B) by (eapply repr_frame; [exact Hf | exact HB]).
  destruct s as [| m l n rows | c [| [[i j] k] todo] | c row j v todo | c | e];
    cbn [step] in E.
  - (* the dimensions are read *)
    rewrite (dims_repr _ _ _ Ha), (dims_repr _ _ _ Hb') in E.
    unfold getitem in E.
    destruct (A !! 0) as [A0 |] eqn:EA; cbn [bind] in E.
    + destruct (B !! 0) as [B0 |] eqn:EB; cbn [bind] in E; injection E as <- <-.
      * exists (Ghost [] []). apply local_same.
        -- cbn [job_inv g_rows g_C]. split; [exists A0, B0; auto |].
           split; [reflexivity |]. split; [simpl; lia |].
           split; [reflexivity | constructor].
        -- unfold own; cbn [g_rows app]. apply NoDup_nil_2.
        -- exact Hb.
        -- intros x Hx. unfold own; cbn [g_rows app] in Hx.
           apply elem_of_nil in Hx. contradiction.
        -- reflexivity.
      * exists g. apply local_same; try assumption; try reflexivity.
        -- cbn [job_inv]. unfold Matmul.matmul.
           rewrite (Matmul.getitem_Some _ _ _ EA); cbn [bind].
           rewrite (getitem_None _ _ EB). reflexivity.
        -- auto.
    + injection E as <- <-. exists g. apply local_same; try assumption; try reflexivity.
      * cbn [job_inv]. unfold Matmul.matmul. rewrite (getitem_None _ _ EA). reflexivity.
      * auto.
  - (* a row, or the list of rows, is allocated *)
    cbn [job_inv] in Hinv. destruct Hinv as (Hp & Hrows & Hle & HC & Hrep).
    unfold own in Hnd, Hb. rewrite app_nil_r in Hnd, Hb.
    assert (Hfresh : length (store w) ∉ g_rows g).
    { intros Hin. rewrite Forall_forall in Hb. specialize (Hb _ Hin). lia. }
    assert (Hkeep : forall o, rep_rows (store w ++ [o]) g).
    { intros o. eapply rep_rows_agree; [| exact Hrep]. intros x Hx.
      rewrite Forall_forall in Hb. specialize (Hb _ Hx).
      apply lookup_app_l. lia. }
    destruct (length rows <? m) eqn:Elt; injection E as <- <-.
    + apply Nat.ltb_lt in Elt.
      exists (Ghost (g_rows g ++ [length (store w)]) (g_C g ++ [replicate n 0%float])).
      unfold local_step, own. cbn [store stdout job_inv g_rows g_C is_done andb].
      rewrite !app_nil_r. split; [| split; [| split; [| split; [| split; [| split]]]]].
      * split; [exact Hp |]. split; [rewrite Hrows; reflexivity |].
        split; [rewrite length_app; simpl; lia |].
        split; [rewrite length_app, HC; simpl; rewrite Nat.add_1_r;
                symmetry; apply replicate_S_end |].
        unfold rep_rows. cbn [g_rows g_C]. apply Forall2_app; [apply Hkeep |].
        constructor; [| constructor].
        rewrite lookup_app_r, Nat.sub_diag by lia. cbn.
        rewrite fmap_replicate. reflexivity.
      * apply NoDup_app. split; [exact Hnd |]. split; [| apply NoDup_singleton].
        intros x Hx Hx'. apply list_elem_of_singleton in Hx'. subst x. auto.
      * apply Forall_app. split.
        -- eapply Forall_impl; [exact Hb |]. intros x Hx. simpl in Hx.
           rewrite length_app. simpl. lia.
        -- constructor; [rewrite length_app; simpl; lia | constructor].
      * intros x Hx. apply elem_of_app in Hx as [Hx | Hx]; [left; exact Hx |].
        apply list_elem_of_singleton in Hx. subst x. right. lia.
      * rewrite length_app. simpl. lia.
      * intros x Hx _. apply lookup_app_l. exact Hx.
      * reflexivity.
    + apply Nat.ltb_ge in Elt. exists g.
      unfold local_step, own. cbn [store stdout job_inv is_done andb].
      rewrite !app_nil_r. split; [| split; [| split; [| split; [| split; [| split]]]]].
      * exists m, l, n, []. split; [exact Hp |]. split; [reflexivity |].
        split.
        -- cbn [for_each]. f_equal. rewrite HC. unfold Matmul.zeros.
           f_equal. lia.
        -- split; [| apply Hkeep].
           rewrite lookup_app_r, Nat.sub_diag by lia. cbn. rewrite Hrows. reflexivity.
      * apply NoDup_app. split; [exact Hnd |]. split; [| apply NoDup_singleton].
        intros x Hx Hx'. apply list_elem_of_singleton in Hx'. subst x. auto.
      * apply Forall_app. split.
        -- eapply Forall_impl; [exact Hb |]. intros x Hx. simpl in Hx.
           rewrite length_app. simpl. lia.
        -- constructor; [rewrite length_app; simpl; lia | constructor].
      * intros x Hx. apply elem_of_app in Hx as [Hx | Hx]; [left; exact Hx |].
        apply list_elem_of_singleton in Hx. subst x. right. lia.
      * rewrite length_app. simpl. lia.
      * intros x Hx _. apply lookup_app_l. exact Hx.
      * reflexivity.
  - (* the loops are over: the line is printed *)
    injection E as <- <-. exists g.
    cbn [job_inv] in Hinv. destruct Hinv as (m & l & n & done & Hp & Ht & Hfe & Hrep).
    unfold local_step, own. cbn [store stdout job_inv is_done andb negb].
    split; [| split; [| split; [| split; [| split; [| split]]]]]; auto.
    split; [exact Hrep |]. rewrite (matmul_flat A B m l n Hp), Ht, app_nil_r. exact Hfe.
  - (* the loads of the body *)
    cbn [job_inv] in Hinv. destruct Hinv as (m & l & n & done & Hp & Ht & Hfe & Hrep).
    pose proof (body_loads_sim (store w) c i j k g Ha Hb' Hrep) as Hsim.
    destruct (Matmul.body A B i j k (g_C g)) as [C' | e] eqn:Ebody.
    + destruct Hsim as (row & Ci & v & Eloads & Erow & ECi & Hj & ->).
      rewrite Eloads in E. injection E as <- <-. exists g.
      apply local_same; try assumption; try reflexivity; [| auto].
      cbn [job_inv]. exists m, l, n, done, i, k, Ci. auto 10.
    + rewrite Hsim in E. injection E as <- <-. exists g.
      apply local_same; try reflexivity; try assumption.
      * cbn [job_inv]. rewrite (matmul_flat A B m l n Hp), Ht, for_each_app, Hfe.
        cbn [bind for_each bodyT]. rewrite Ebody. reflexivity.
      * unfold own. rewrite app_nil_r. eapply NoDup_own_rows, Hnd.
      * unfold own. intros x Hx. rewrite app_nil_r in Hx. apply elem_of_app. auto.
  - (* the store of the body *)
    cbn [job_inv] in Hinv.
    destruct Hinv as (m & l & n & done & i & k & Ci & Hp & Ht & Hfe & Hrep & Erow & ECi & Hj & Ebody).
    destruct Hrep as [Hc Hrows].
    assert (Hrow : store w !! row = Some (VFloat <$> Ci)).
    { destruct (Forall2_lookup_lr _ _ _ i row Ci Hrows Erow ECi). reflexivity. }
    unfold load in E. rewrite Hrow in E. rewrite length_fmap in E.
    apply Nat.ltb_lt in Hj. rewrite Hj in E. apply Nat.ltb_lt in Hj.
    injection E as <- <-.
    unfold own in Hnd, Hb.
    assert (Hrow_in : row ∈ g_rows g) by (eapply list_elem_of_lookup_2, Erow).
    assert (Hcrow : c <> row).
    { intros <-. apply NoDup_app in Hnd as (_ & Hdis & _).
      apply (Hdis c Hrow_in). apply list_elem_of_singleton. reflexivity. }
    exists (Ghost (g_rows g) (<[i := <[j := v]> Ci]> (g_C g))).
    unfold local_step, own. cbn [store stdout job_inv g_rows g_C is_done andb].
    rewrite app_nil_r. split; [| split; [| split; [| split; [| split; [| split]]]]].
    + exists m, l, n, (done ++ [(i, j, k)]).
      split; [exact Hp |]. split; [rewrite <- app_assoc; exact Ht |].
      split; [rewrite for_each_app, Hfe; cbn [bind for_each bodyT];
              rewrite Ebody; reflexivity |].
      split; [rewrite list_lookup_insert_ne by congruence; exact Hc |].
      unfold rep_rows in *. cbn [g_rows g_C].
      apply Forall2_same_length_lookup. apply Forall2_same_length_lookup in Hrows as [Hl Hrows].
      split; [rewrite length_insert; exact Hl |].
      intros i' r Mi Er EM.
      destruct (decide (i' = i)) as [-> | Hne].
      * rewrite Erow in Er. injection Er as <-.
        rewrite list_lookup_insert_eq in EM by (eapply lookup_lt_Some, ECi).
        injection EM as <-.
        rewrite list_lookup_insert_eq by (eapply lookup_lt_Some, Hrow).
        rewrite list_fmap_insert. reflexivity.
      * rewrite list_lookup_insert_ne in EM by congruence.
        rewrite list_lookup_insert_ne; [eauto |].
        intros <-. apply Hne. symmetry.
        eapply NoDup_lookup;
          [exact (proj1 (proj1 (NoDup_app _ _) Hnd)) | exact Erow | exact Er].
    + exact Hnd.
    + eapply Forall_impl; [exact Hb |]. intros x Hx. simpl in Hx.
      rewrite length_insert. exact Hx.
    + intros x Hx. left. exact Hx.
    + rewrite length_insert. lia.
    + intros x Hx Hnot. apply list_lookup_insert_ne. intros <-. apply Hnot.
      apply elem_of_app. left. exact Hrow_in.
    + reflexivity.
  - injection E as <- <-. exists g. apply local_same; try assumption; auto.
  - injection E as <- <-. exists g. apply local_same; try assumption; auto.
Qed.

(** How many jobs have returned. *)
Definition done_count (jobs : list job) : nat := length (List.filter is_done jobs).

Lemma done_count_insert (jobs : list job) (t : nat) (s s' : job) :
  jobs !! t = Some s ->
  done_count (<[t := s']> jobs) + (if is_done s then 1 else 0)
  = done_count jobs + (if is_done s' then 1 else 0).
Proof.
  unfold done_count. revert t. induction jobs as [| s0 jobs IH]; intros t Et.
  - discriminate.
  - destruct t as [| t].
    + injection Et as ->. cbn [insert list_insert List.filter].
      destruct (is_done s), (is_done s'); simpl; lia.
    + change (<[S t := s']> (s0 :: jobs)) with (s0 :: <[t := s']> jobs).
      cbn [List.filter]. specialize (IH t Et).
      destruct (is_done s0); cbn [length]; lia.
Qed.

(** The invariant of a set of jobs: each job keeps its own invariant on
    addresses no other job owns, and one line is printed per job done. *)
Definition jobs_inv (out0 : list string) (w : world) (jobs : list job)
    (ghosts : list ghost) : Prop :=
  take (length h0) (store w) = h0 /\
  length ghosts = length jobs /\
  stdout w = out0 ++ replicate (done_count jobs) "Finished"%string /\
  (forall t s g, jobs !! t = Some s -> ghosts !! t = Some g ->
     job_inv (store w) s g /\ NoDup (own s g) /\
     Forall (fun x => length h0 <= x < length (store w)) (own s g)) /\
  (forall t t' s g s' g' x, t <> t' ->
     jobs !! t = Some s -> ghosts !! t = Some g ->
     jobs !! t' = Some s' -> ghosts !! t' = Some g' ->
     x ∈ own s g -> x ∉ own s' g').

Lemma take_agree (h h' : heap) (n : nat) :
  n <= length h -> n <= length h' ->
  (forall x, x < n -> h' !! x = h !! x) -> take n h' = take n h.
Proof.
  intros Hn Hn' Hag. apply list_eq. intros x.
  destruct (decide (x < n)) as [Hx | Hx].
  - rewrite !lookup_take_lt by lia. apply Hag, Hx.
  - rewrite !lookup_take_ge by lia. reflexivity.
Qed.

Lemma step_thread_jobs_inv (out0 : list string) (w : world) (jobs : list job)
    (ghosts : list ghost) (t : nat) :
  jobs_inv out0 w jobs ghosts ->
  exists ghosts',
    jobs_inv out0 (fst (step_thread a b (w, jobs) t))
      (snd (step_thread a b (w, jobs) t)) ghosts'.
Proof.
  intros (Hf & Hlen & Hout & Hjobs & Hdis). unfold step_thread. cbn [fst snd].
  destruct (jobs !! t) as [s |] eqn:Es;
    [| exists ghosts; exact (conj Hf (conj Hlen (conj Hout (conj Hjobs Hdis))))].
  destruct (lookup_lt_is_Some_2 ghosts t) as [g Eg].
  { rewrite Hlen. eapply lookup_lt_Some, Es. }
  destruct (Hjobs t s g Es Eg) as (Hinv & Hnd & Hb).
  destruct (step a b w s) as [w' s'] eqn:E.
  destruct (step_local w w' s s' g Hf Hinv Hnd Hb E)
    as (g' & Hinv' & Hnd' & Hb' & Hsub & Hgrow & Hkeep & Hprint).
  assert (Hlen0 : length h0 <= length (store w)).
  { apply (f_equal length) in Hf. rewrite length_take in Hf. lia. }
  exists (<[t := g']> ghosts). cbn [fst snd].
  split; [| split; [| split; [| split]]].
  - rewrite <- Hf at 2. apply take_agree; try lia.
    intros x Hx. apply Hkeep; [lia |]. intros Hin.
    rewrite Forall_forall in Hb. specialize (Hb x Hin). lia.
  - rewrite !length_insert. exact Hlen.
  - rewrite Hprint, Hout, <- app_assoc. f_equal.
    pose proof (done_count_insert jobs t s s' Es) as Hc.
    destruct (is_done s) eqn:Hds, (is_done s') eqn:Hds'; cbn [andb negb].
    + rewrite app_nil_r. f_equal. lia.
    + destruct s; try discriminate. cbn [step] in E. injection E as _ <-. discriminate.
    + replace (done_count (<[t := s']> jobs)) with (S (done_count jobs)) by lia.
      rewrite replicate_S_end. reflexivity.
    + rewrite app_nil_r. f_equal. lia.
  - intros u su gu Eu Egu.
    destruct (decide (u = t)) as [-> | Hne].
    + rewrite list_lookup_insert_eq in Eu by (eapply lookup_lt_Some, Es).
      rewrite list_lookup_insert_eq in Egu by (eapply lookup_lt_Some, Eg).
      injection Eu as <-. injection Egu as <-. auto.
    + rewrite list_lookup_insert_ne in Eu by congruence.
      rewrite list_lookup_insert_ne in Egu by congruence.
      destruct (Hjobs u su gu Eu Egu) as (Hinvu & Hndu & Hbu).
      split; [| split; [exact Hndu |]].
      * eapply job_inv_agree; [| exact Hinvu]. intros x Hx.
        apply Hkeep.
        -- rewrite Forall_forall in Hbu. specialize (Hbu x Hx). lia.
        -- eapply (Hdis u t); eauto.
      * eapply Forall_impl; [exact Hbu |]. intros x Hx. simpl in Hx. lia.
  - intros u u' su gu su' gu' x Hne Eu Egu Eu' Egu' Hx Hx'.
    destruct (decide (u = t)) as [-> | Hut]; destruct (decide (u' = t)) as [-> | Hut'];
      try congruence.
    + rewrite list_lookup_insert_eq in Eu by (eapply lookup_lt_Some, Es).
      rewrite list_lookup_insert_eq in Egu by (eapply lookup_lt_Some, Eg).
      injection Eu as <-. injection Egu as <-.
      rewrite list_lookup_insert_ne in Eu' by congruence.
      rewrite list_lookup_insert_ne in Egu' by congruence.
      destruct (Hjobs u' su' gu' Eu' Egu') as (_ & _ & Hbu).
      rewrite Forall_forall in Hbu. specialize (Hbu x Hx').
      destruct (Hsub x Hx) as [Hold | Hnew]; [| lia].
      eapply (Hdis t u'); eauto.
    + rewrite list_lookup_insert_eq in Eu' by (eapply lookup_lt_Some, Es).
      rewrite list_lookup_insert_eq in Egu' by (eapply lookup_lt_Some, Eg).
      injection Eu' as <-. injection Egu' as <-.
      rewrite list_lookup_insert_ne in Eu by congruence.
      rewrite list_lookup_insert_ne in Egu by congruence.
      destruct (Hjobs u su gu Eu Egu) as (_ & _ & Hbu).
      rewrite Forall_forall in Hbu. specialize (Hbu x Hx).
      destruct (Hsub x Hx') as [Hold | Hnew]; [| lia].
      eapply (Hdis u t); eauto.
    + rewrite list_lookup_insert_ne in Eu, Eu' by congruence.
      rewrite list_lookup_insert_ne in Egu, Egu' by congruence.
      eapply (Hdis u u'); eauto.
Qed.

Lemma run_threads_jobs_inv (out0 : list string) (sched : list nat) (w : world)
    (jobs : list job) (ghosts : list ghost) :
  jobs_inv out0 w jobs ghosts ->
  exists ghosts',
    jobs_inv out0 (fst (run_threads a b sched (w, jobs)))
      (snd (run_threads a b sched (w, jobs))) ghosts'.
Proof.
  unfold run_threads. revert w jobs ghosts.
  induction sched as [| t sched IH]; intros w jobs ghosts Hinv; [eauto |].
  cbn [fold_left].
  destruct (step_thread_jobs_inv out0 w jobs ghosts t Hinv) as (ghosts' & Hinv').
  destruct (step_thread a b (w, jobs) t) as [w' jobs']. eauto.
Qed.

End Simulation.

Lemma rep_C_repr (h : heap) (c : nat) (g : ghost) : rep_C h c g -> repr h c (g_C g).
Proof.
  intros [Hc Hrows]. exists (VRef <$> g_rows g). split; [exact Hc |].
  apply Forall2_fmap_l. eapply Forall2_impl; [exact Hrows |].
  intros r Mi Hr. exists r. auto.
Qed.

Lemma done_count_spawn (njobs : nat) : done_count (spawn njobs) = 0.
Proof.
  unfold done_count, spawn. induction njobs as [| n IH]; [reflexivity | exact IH].
Qed.

Lemma jobs_inv_spawn (a b : nat) (A B : Matmul.matrix) (w : world) (njobs : nat) :
  jobs_inv (store w) A B (stdout w) w (spawn njobs) (replicate njobs (Ghost [] [])).
Proof.
  split; [apply take_ge; lia |]. split; [unfold spawn; rewrite !length_replicate; reflexivity |].
  split; [rewrite done_count_spawn, app_nil_r; reflexivity |]. split.
  - intros t s g Es Eg. apply lookup_replicate in Es as [-> _].
    apply lookup_replicate in Eg as [-> _]. split; [reflexivity |].
    split; [apply NoDup_nil_2 | constructor].
  - intros t t' s g s' g' x _ Es Eg _ _ Hx.
    apply lookup_replicate in Es as [-> _]. apply lookup_replicate in Eg as [-> _].
    apply elem_of_nil in Hx. contradiction.
Qed.

(** X6.  Threads that all run [matmul] on one [A] and one [B] do not
    disturb each other: under every interleaving of their steps, a job that
    has returned holds in a matrix of its own, allocated after the call, the
    product that [matmul] computes on the values, a job that has raised has
    raised what [matmul] raises on the values, and one line has been
    printed per job that returned. *)
Theorem threads_compute_product (w : world) (a b : nat) (A B : Matmul.matrix)
    (njobs : nat) (sched : list nat) :
  read_matrix (store w) a = Some A -> read_matrix (store w) b = Some B ->
  let st := run_threads a b sched (w, spawn njobs) in
  (forall t c, snd st !! t = Some (JDone c) ->
     length (store w) <= c /\
     exists C, Matmul.matmul A B = Ok C /\ read_matrix (store (fst st)) c = Some C) /\
  (forall t e, snd st !! t = Some (JRaised e) -> Matmul.matmul A B = Raise e) /\
  (forall t t' c, t <> t' -> snd st !! t = Some (JDone c) ->
     snd st !! t' <> Some (JDone c)) /\
  stdout (fst st) = stdout w ++ replicate (done_count (snd st)) "Finished"%string.
Proof.
  intros HA HB st. apply read_matrix_repr in HA, HB.
  destruct (run_threads_jobs_inv (store w) a b A B HA HB (stdout w) sched w
              (spawn njobs) _ (jobs_inv_spawn a b A B w njobs))
    as (ghosts & Hf & Hlen & Hout & Hjobs & Hdis).
  fold st in Hf, Hlen, Hout, Hjobs, Hdis.
  assert (Hg : forall t s, snd st !! t = Some s -> exists g, ghosts !! t = Some g).
  { intros t s Es. apply lookup_lt_is_Some_2. rewrite Hlen.
    eapply lookup_lt_Some, Es. }
  split; [| split; [| split]].
  - intros t c Es. destruct (Hg t _ Es) as [g Eg].
    destruct (Hjobs t _ g Es Eg) as ([Hrep Hm] & _ & Hb).
    split.
    + rewrite Forall_forall in Hb.
      assert (Hin : c ∈ own (JDone c) g).
      { unfold own. apply elem_of_app. right. apply list_elem_of_singleton. reflexivity. }
      specialize (Hb c Hin). lia.
    + exists (g_C g). split; [exact Hm |].
      apply read_matrix_repr, rep_C_repr, Hrep.
  - intros t e Es. destruct (Hg t _ Es) as [g Eg].
    destruct (Hjobs t _ g Es Eg) as (Hm & _). exact Hm.
  - intros t t' c Hne Es Es'.
    destruct (Hg t _ Es) as [g Eg]. destruct (Hg t' _ Es') as [g' Eg'].
    assert (Hin : forall g0, c ∈ own (JDone c) g0).
    { intros g0. unfold own. apply elem_of_app. right.
      apply list_elem_of_singleton. reflexivity. }
    exact (Hdis t t' _ g _ g' c Hne Es Eg Es' Eg' (Hin g) (Hin g')).
  - exact Hout.
Qed.

Lemma threads_compute_product_witness :
  stdout (fst (run_threads 1 3 [0; 1; 0; 0; 1; 0; 0; 0]
                 (World [[VFloat 2]; [VRef 0]; [VFloat 3]; [VRef 2]] [], spawn 2)))
  = [] ++ replicate
       (done_count (snd (run_threads 1 3 [0; 1; 0; 0; 1; 0; 0; 0]
                 (World [[VFloat 2]; [VRef 0]; [VFloat 3]; [VRef 2]] [], spawn 2))))
       "Finished"%string.
Proof.
  refine (proj2 (proj2 (proj2 (threads_compute_product
            (World [[VFloat 2]; [VRef 0]; [VFloat 3]; [VRef 2]] []) 1 3
            [[2%float]] [[3%float]] 2 [0; 1; 0; 0; 1; 0; 0; 0] _ _)))).
  - reflexivity.
  - reflexivity.
Defined.

(** *** One call on the store against the call on values *)

Lemma step_keeps_done (a b : nat) (w : world) (s : job) :
  is_done s = true -> is_done (snd (step a b w s)) = true.
Proof. destruct s; try discriminate. reflexivity. Qed.

Lemma run_job_inv (a b : nat) (A B : Matmul.matrix) (fuel : nat) (w : world)
    (s : job) (g : ghost) :
  repr (store w) a A -> repr (store w) b B ->
  forall (w1 : world), take (length (store w)) (store w1) = store w ->
  job_inv A B (store w1) s g -> NoDup (own s g) ->
  Forall (fun x => length (store w) <= x < length (store w1)) (own s g) ->
  exists g',
    job_inv A B (store (fst (run a b fuel w1 s))) (snd (run a b fuel w1 s)) g' /\
    Forall (fun x => length (store w) <= x) (own (snd (run a b fuel w1 s)) g') /\
    stdout (fst (run a b fuel w1 s))
    = stdout w1 ++ (if is_done (snd (run a b fuel w1 s)) && negb (is_done s)
                    then ["Finished"%string] else []).
Proof.
  intros HA HB. revert s g.
  induction fuel as [| fuel IH]; intros s g w1 Hf Hinv Hnd Hb.
  - exists g. cbn [run fst snd]. split; [exact Hinv |]. split.
    + eapply Forall_impl; [exact Hb |]. intros x Hx. simpl in Hx. lia.
    + destruct (is_done s); cbn [andb negb]; rewrite app_nil_r; reflexivity.
  - cbn [run]. destruct (step a b w1 s) as [w2 s2] eqn:E.
    destruct (step_local (store w) a b A B HA HB w1 w2 s s2 g Hf Hinv Hnd Hb E)
      as (g2 & Hinv2 & Hnd2 & Hb2 & _ & Hgrow & Hkeep & Hprint).
    assert (Hlen0 : length (store w) <= length (store w1)).
    { apply (f_equal length) in Hf. rewrite length_take in Hf. lia. }
    assert (Hf2 : take (length (store w)) (store w2) = store w).
    { rewrite <- Hf at 2. apply take_agree; try lia.
      intros x Hx. apply Hkeep; [lia |]. intros Hin.
      rewrite Forall_forall in Hb. specialize (Hb x Hin). lia. }
    destruct (IH s2 g2 w2 Hf2 Hinv2 Hnd2 Hb2) as (g' & Hinv' & Hb' & Hout').
    exists g'. split; [exact Hinv' |]. split; [exact Hb' |].
    rewrite Hout', Hprint, <- app_assoc. f_equal.
    pose proof (step_keeps_done a b w1 s) as Hk. rewrite E in Hk. cbn [snd] in Hk.
    assert (Hk' : is_done s2 = true ->
                  is_done (snd (run a b fuel w2 s2)) = true).
    { intros Hd. rewrite run_finished; [exact Hd |]. destruct s2; try discriminate.
      reflexivity. }
    destruct (is_done s) eqn:Hds.
    + rewrite (Hk eq_refl), (Hk' (Hk eq_refl)). reflexivity.
    + destruct (is_done s2) eqn:Hds2.
      * rewrite (Hk' eq_refl). reflexivity.
      * cbn [andb negb app]. rewrite andb_true_r. reflexivity.
Qed.

Lemma call_matmul_sim (a b : nat) (A B : Matmul.matrix) (w : world) :
  read_matrix (store w) a = Some A -> read_matrix (store w) b = Some B ->
  match Matmul.matmul A B with
  | Ok C =>
      exists c, snd (call_matmul a b w) = JDone c /\ length (store w) <= c /\
        read_matrix (store (fst (call_matmul a b w))) c = Some C /\
        stdout (fst (call_matmul a b w)) = stdout w ++ ["Finished"%string]
  | Raise e =>
      snd (call_matmul a b w) = JRaised e /\
      stdout (fst (call_matmul a b w)) = stdout w
  end.
Proof.
  intros HA HB. apply read_matrix_repr in HA, HB.
  pose proof (call_matmul_finished a b w) as Hend.
  destruct (run_job_inv a b A B (S (remaining (snd (step a b w JStart)))) w JStart
              (Ghost [] []) HA HB w) as (g & Hinv & Hb & Hout).
  - apply take_ge. lia.
  - reflexivity.
  - apply NoDup_nil_2.
  - constructor.
  - assert (Erun : run a b (S (remaining (snd (step a b w JStart)))) w JStart
                   = call_matmul a b w).
    { unfold call_matmul. cbn [run]. destruct (step a b w JStart). reflexivity. }
    rewrite Erun in Hinv, Hb, Hout.
    destruct (call_matmul a b w) as [w' s]. cbn [fst snd] in *.
    destruct s as [| | | | c | e]; try discriminate; cbn [job_inv] in Hinv.
    + destruct Hinv as [Hrep Hm]. rewrite Hm. exists c.
      split; [reflexivity |]. split.
      * rewrite Forall_forall in Hb. apply Hb. unfold own.
        apply elem_of_app. right. apply list_elem_of_singleton. reflexivity.
      * split; [apply read_matrix_repr, rep_C_repr, Hrep | exact Hout].
    + rewrite Hinv. split; [reflexivity |]. rewrite Hout. apply app_nil_r.
Qed.

(** *** Matrices put into the store *)

Lemma call_matmul_preserved (a b : nat) (w : world) :
  preserved w (fst (call_matmul a b w)).
Proof.
  apply frame_preserved. unfold call_matmul.
  destruct (step a b w JStart) as [w1 s1] eqn:E1.
  destruct (step_inv (store w) a b w w1 JStart s1 (inv_initial w) I E1) as [H1 Hs1].
  apply (run_inv (store w) a b (remaining s1) w1 s1 H1 Hs1).
Qed.

Lemma alloc_matrix_frame (M : Matmul.matrix) (h : heap) :
  take (length h) (fst (alloc_matrix M h)) = h.
Proof.
  unfold alloc_matrix. cbn [fst]. rewrite <- app_assoc. apply take_app_length.
Qed.

Lemma alloc_matrix_repr (M : Matmul.matrix) (h : heap) :
  repr (fst (alloc_matrix M h)) (snd (alloc_matrix M h)) M.
Proof.
  unfold alloc_matrix, repr. cbn [fst snd].
  exists (VRef <$> seq (length h) (length M)). split.
  - rewrite lookup_app_r by lia. rewrite Nat.sub_diag. reflexivity.
  - apply Forall2_same_length_lookup. split; [rewrite length_fmap, length_seq; reflexivity |].
    intros i v r Ev Er. rewrite list_lookup_fmap in Ev.
    pose proof (lookup_lt_Some _ _ _ Er) as Hi.
    rewrite lookup_seq_lt in Ev by exact Hi. injection Ev as <-.
    exists (length h + i). split; [reflexivity |].
    rewrite <- app_assoc. rewrite lookup_app_r by lia.
    replace (length h + i - length h) with i by lia.
    rewrite lookup_app_l by (rewrite length_fmap; exact Hi).
    rewrite list_lookup_fmap, Er. reflexivity.
Qed.

Lemma alloc_matrix_length (M : Matmul.matrix) (h : heap) :
  length (fst (alloc_matrix M h)) = length h + length M + 1 /\
  snd (alloc_matrix M h) = length h + length M.
Proof.
  unfold alloc_matrix. cbn [fst snd]. rewrite !length_app, length_fmap. simpl. lia.
Qed.

(** X7.  A call [matmul(A, B)] on the store does what [matmul] does on
    values.  For matrices [A] and [B] put into any store: when the product
    is defined, the call returns a newly allocated matrix that reads as the
    product, and prints the line [Finished] once; when [matmul] raises, the
    call raises the same exception and prints nothing. *)
Theorem matmul_on_store (A B : Matmul.matrix) (h : heap) (out : list string) :
  let '(h1, a) := alloc_matrix A h in
  let '(h2, b) := alloc_matrix B h1 in
  let '(w', s) := call_matmul a b (World h2 out) in
  match Matmul.matmul A B with
  | Ok C =>
      exists c, s = JDone c /\ length h2 <= c /\
        read_matrix (store w') c = Some C /\
        read_matrix (store w') a = Some A /\ read_matrix (store w') b = Some B /\
        stdout w' = out ++ ["Finished"%string]
  | Raise e => s = JRaised e /\ stdout w' = out
  end.
Proof.
  pose proof (alloc_matrix_repr A h) as HA.
  destruct (alloc_matrix A h) as [h1 a] eqn:E1. cbn [fst snd] in HA.
  pose proof (alloc_matrix_repr B h1) as HB.
  pose proof (alloc_matrix_frame B h1) as Hf.
  destruct (alloc_matrix B h1) as [h2 b] eqn:E2. cbn [fst snd] in HB, Hf.
  assert (HA2 : repr h2 a A) by (eapply repr_frame; [exact Hf | exact HA]).
  pose proof (call_matmul_sim a b A B (World h2 out)
                (proj2 (read_matrix_repr _ _ _) HA2)
                (proj2 (read_matrix_repr _ _ _) HB)) as Hsim.
  pose proof (call_matmul_preserved a b (World h2 out)) as [Hfr Hread].
  destruct (call_matmul a b (World h2 out)) as [w' s]. cbn [fst snd store stdout] in *.
  destruct (Matmul.matmul A B) as [C | e]; [| exact Hsim].
  destruct Hsim as (c & -> & Hc & HC & Hout). exists c.
  repeat split; try assumption.
  - apply Hread, read_matrix_repr, HA2.
  - apply Hread, read_matrix_repr, HB.
Qed.

End MatmulHeap.

(** ** habr.py: the retrying fetch, the title and the four strategies *)

Module Habr.

(** The Python values a result list of the strategies may hold. *)
Inductive pyval : Type :=
| PyStr (s : string)
| PyNone
| PyTag (markup : string)
| PyInt (z : Z).

(** [str(v)], as an f-string field without a format spec renders [v].  A
    [Tag] of BeautifulSoup renders as its markup. *)
Definition py_str (v : pyval) : string :=
  match v with
  | PyStr s => s
  | PyNone => "None"
  | PyTag markup => markup
  | PyInt z => str_int z
  end.

(** The field [{i:2}] of an f-string: the decimal digits of [i],
    right-aligned in a width of two. *)
Definition pad2 (s : string) : string :=
  if String.length s <? 2 then String.append " " s else s.

(** [f"Article {i:2} title: {title}"]. *)
Definition line (i : Z) (title : pyval) : string :=
  String.append "Article "
    (String.append (pad2 (str_int i))
       (String.append " title: " (py_str title))).

(** [for i, title in enumerate(titles, start=1): print(...)]: the lines
    written to standard output. *)
Definition report (titles : list pyval) : list string :=
  imap (fun k title => line (Z.of_nat (1 + k)) title) titles.

(** *** The network and the fetch *)

Record response : Type := Response {
  status_code : Z;
  text : string
}.

(** How the exchange started by [requests.get] ends: with a response;
    with an exception raised inside [requests] (no connection, a broken
    transfer); or not at all, since the call passes no [timeout] and waits
    for as long as the server stays silent. *)
Inductive reply : Type :=
| Answer (page : response)
| Fails (e : exn)
| Silent.

(** What a call does: it returns a value, raises, or never returns. *)
Inductive result (A : Type) : Type :=
| Returns (a : A)
| Raises (e : exn)
| Hangs.
Arguments Returns {A} a.
Arguments Raises {A} e.
Arguments Hangs {A}.

Inductive event : Type :=
| Get (url : string)
| Sleep (secs : Z).

(** What the fetch can observe and change: how many requests have been
    sent, and the log of requests and pauses. *)
Record net : Type := Net {
  served : nat;
  trace : list event
}.

(** [bool(page)] for a [requests.Response]: its [ok] property, false for
    the 4xx and 5xx statuses. *)
Definition response_ok (page : response) : bool :=
  negb ((400 <=? status_code page)%Z && (status_code page <? 600)%Z).

Definition NOT_FOUND : pyval := PyStr "NOT FOUND".

Section Fetch.

(** The remote side: how the [k]-th request sent ends, for a given URL. *)
Variable server : nat -> string -> reply.

(** [BeautifulSoup(article, features="lxml").title]: the markup of the
    title element, [None] when the document has none. *)
Variable soup_title : string -> option string.

(** [requests.get(url, headers=headers)]; nothing around the call catches
    what it raises. *)
Definition requests_get (url : string) (w : net) : result response * net :=
  (match server (served w) url with
   | Answer page => Returns page
   | Fails e => Raises e
   | Silent => Hangs
   end,
   Net (S (served w)) (trace w ++ [Get url])).

(** [time.sleep(t_sleep)]. *)
Definition time_sleep (t_sleep : Z) (w : net) : net :=
  Net (served w) (trace w ++ [Sleep t_sleep]).

(** The loop of [get_page] with [attempts] iterations left. *)
Fixpoint get_page_loop (attempts : nat) (url : string) (t_sleep : Z) (w : net)
  : result (option response) * net :=
  match attempts with
  | 0 => (Returns None, w)
  | S attempts' =>
      let '(r, w1) := requests_get url w in
      match r with
      | Returns page =>
          if (status_code page =? 200)%Z then (Returns (Some page), w1)
          else get_page_loop attempts' url t_sleep (time_sleep t_sleep w1)
      | Raises e => (Raises e, w1)
      | Hangs => (Hangs, w1)
      end
  end.

(** [get_page(url, n_attempts, t_sleep)]; [range(n_attempts)] is empty for
    a non-positive count. *)
Definition get_page (url : string) (n_attempts t_sleep : Z) (w : net)
  : result (option response) * net :=
  get_page_loop (Z.to_nat n_attempts) url t_sleep w.

Definition base_url : string := "https://habr.com/ru/articles/".

(** [get_habr_article(article_number)], with the defaults [n_attempts=5]
    and [t_sleep=1] of [get_page]. *)
Definition get_habr_article (article_number : Z) (w : net)
  : result (option string) * net :=
  let '(r, w') := get_page (String.append base_url (str_int article_number)) 5 1 w in
  match r with
  | Returns (Some p) =>
      if response_ok p then (Returns (Some (text p)), w') else (Returns None, w')
  | Returns None => (Returns None, w')
  | Raises e => (Raises e, w')
  | Hangs => (Hangs, w')
  end.

(** [get_article_title(article_number)]. *)
Definition get_article_title (article_number : Z) (w : net) : result pyval * net :=
  let '(r, w') := get_habr_article article_number w in
  match r with
  | Returns None => (Returns NOT_FOUND, w')
  | Returns (Some a) =>
      match soup_title a with
      | Some markup => (Returns (PyTag markup), w')
      | None => (Returns PyNone, w')
      end
  | Raises e => (Raises e, w')
  | Hangs => (Hangs, w')
  end.

End Fetch.

(** *** The strategies, for a work function *)

Inductive target : Type :=
| TargetTitle      (* get_article_title *)
| TargetTitleThs.  (* get_article_title_ths *)

(** Where a thread stands: not run yet; back from the work function;
    inside [with mutex]; ended. *)
Inductive thread : Type :=
| Ready (article_number : Z)
| Fetched (article_number : Z) (title : pyval)
| Locked (article_number : Z) (title : pyval)
| Ended.

(** What a run leaves: the result list and the lines printed. *)
Record run : Type := Run {
  run_titles : list pyval;
  run_stdout : list string
}.

Section Strategies.

(** The state the work function reads and changes. *)
Variable W : Type.

(** The work function, [get_article_title] in the script, for calls that
    return. *)
Variable work : Z -> W -> pyval * W.

(** The globals [titles] and [mutex] with the state of the work function. *)
Record shared : Type := Shared {
  titles : list pyval;
  mutex : bool;
  env : W
}.

(** [[work(i) for i in ids]], one call after the other. *)
Fixpoint comprehension (ids : list Z) (w : W) : list pyval * W :=
  match ids with
  | [] => ([], w)
  | i :: ids' =>
      let '(v, w1) := work i w in
      let '(vs, w2) := comprehension ids' w1 in
      (v :: vs, w2)
  end.

(** [single(n_tasks)]. *)
Definition single (n_tasks : Z) (w : W) : run * W :=
  let '(ts, w') := comprehension (Py.range 1 n_tasks) w in
  (Run ts (report ts), w').

(** One step of a thread whose target is [tgt].  [get_article_title]
    returns its title to [Thread.run], which drops it;
    [get_article_title_ths] takes the lock, stores [titles[i - 1]] and
    releases the lock, also when the store raises. *)
Definition thread_step (tgt : target) (g : shared) (t : thread) : shared * thread :=
  match t with
  | Ready i =>
      let '(v, w') := work i (env g) in
      (Shared (titles g) (mutex g) w',
       match tgt with TargetTitle => Ended | TargetTitleThs => Fetched i v end)
  | Fetched i v =>
      if mutex g then (g, Fetched i v)
      else (Shared (titles g) true (env g), Locked i v)
  | Locked i v =>
      match setitem (titles g) (i - 1) v with
      | Ok ts => (Shared ts false (env g), Ended)
      | Raise _ => (Shared (titles g) false (env g), Ended)
      end
  | Ended => (g, Ended)
  end.

Definition sched_step (tgt : target) (st : shared * list thread) (k : nat)
  : shared * list thread :=
  match snd st !! k with
  | Some t => let '(g', t') := thread_step tgt (fst st) t in (g', <[k := t']> (snd st))
  | None => st
  end.

Definition ended (t : thread) : bool :=
  match t with Ended => true | _ => false end.

(** The body of [threads] for a target: the globals are set, one thread per
    id of [range(1, n_tasks + 1)] is created and started, and the threads
    run as [sched] says, one step at a time. *)
Definition start_threads (n_tasks : Z) (w : W) : shared * list thread :=
  (Shared (replicate (Z.to_nat n_tasks) (PyStr "")) false w,
   Ready <$> Py.range 1 (n_tasks + 1)).

Definition run_threads (tgt : target) (n_tasks : Z) (sched : list nat) (w : W)
  : shared * list thread :=
  fold_left (sched_step tgt) sched (start_threads n_tasks w).

(** The joins return once every thread has ended; [None] stands for a
    schedule that leaves a thread unfinished. *)
Definition threads_with (tgt : target) (n_tasks : Z) (sched : list nat) (w : W)
  : option run * W :=
  let '(g, ts) := run_threads tgt n_tasks sched w in
  if forallb ended ts then (Some (Run (titles g) (report (titles g))), env g)
  else (None, env g).

(** [threads(n_tasks)]: the threads are created with
    [target=get_article_title]. *)
Definition threads (n_tasks : Z) (sched : list nat) (w : W) : option run * W :=
  threads_with TargetTitle n_tasks sched w.

(** The calls a pool makes, in the order [order] in which its workers take
    the tasks: the slot of each task with the value its call returned. *)
Fixpoint pool_calls (order : list nat) (ids : list Z) (w : W)
  : list (nat * pyval) * W :=
  match order with
  | [] => ([], w)
  | k :: order' =>
      match ids !! k with
      | Some i =>
          let '(v, w1) := work i w in
          let '(log, w2) := pool_calls order' ids w1 in
          ((k, v) :: log, w2)
      | None => pool_calls order' ids w
      end
  end.

Definition slot_value (log : list (nat * pyval)) (k : nat) : option pyval :=
  snd <$> find (fun p => Nat.eqb (fst p) k) log.

(** [pool.map(work, ids)]: the values by slot once every task has been
    run; [None] stands for an order that leaves a task out. *)
Definition pool_map (order : list nat) (ids : list Z) (w : W)
  : option (list pyval) * W :=
  let '(log, w') := pool_calls order ids w in
  (mapM (slot_value log) (seq 0 (length ids)), w').

(** [thread_pool(n_tasks, pool_size)] and [process_pool(n_tasks,
    pool_size)]: creating a pool of fewer than one worker raises
    [ValueError]. *)
Definition pool_strategy (n_tasks pool_size : Z) (order : list nat) (w : W)
  : option (outcome run) * W :=
  if (pool_size <? 1)%Z
  then (Some (Raise (ValueError "Number of processes must be at least 1")), w)
  else
    let '(r, w') := pool_map order (Py.range 1 n_tasks) w in
    (match r with
     | Some ts => Some (Ok (Run ts (report ts)))
     | None => None
     end, w').

Definition thread_pool := pool_strategy.
Definition process_pool := pool_strategy.

Inductive mode : Type := ModeSingle | ModeThreads | ModePool | ModeProcessPool.

Record args : Type := Args {
  arg_mode : mode;
  n_tasks : Z;
  pool_size : Z
}.

(** [main()], after [parse_args]; [sched] is the order in which the
    threads or workers of the chosen mode run. *)
Definition main (a : args) (sched : list nat) (w : W) : option (outcome run) * W :=
  match arg_mode a with
  | ModeSingle => let '(r, w') := single (n_tasks a) w in (Some (Ok r), w')
  | ModeThreads =>
      let '(r, w') := threads (n_tasks a) sched w in
      (match r with Some x => Some (Ok x) | None => None end, w')
  | ModePool => thread_pool (n_tasks a) (pool_size a) sched w
  | ModeProcessPool => process_pool (n_tasks a) (pool_size a) sched w
  end.

End Strategies.

(** *** The fetch: bounded attempts, the sentinel, the title *)

Section FetchFacts.

Variable server : nat -> string -> reply.
Variable soup_title : string -> option string.

(** The log of [k] failed attempts: a request, then the pause. *)
Definition failed_attempts (k : nat) (url : string) (t_sleep : Z) : list event :=
  concat (replicate k [Get url; Sleep t_sleep]).

(** The [k] requests sent from request number [sv] on are all answered, and
    none with status 200. *)
Definition refused (url : string) (sv k : nat) : Prop :=
  forall k', k' < k ->
    exists p, server (sv + k') url = Answer p /\ status_code p <> 200%Z.

(** What [get_page] does when the request it has just sent ends the loop. *)
Definition last_attempt (r : reply) : result (option response) :=
  match r with
  | Answer p => Returns (Some p)
  | Fails e => Raises e
  | Silent => Hangs
  end.

Lemma refused_tail (url : string) (sv k : nat) :
  refused url sv (S k) -> refused url (S sv) k.
Proof.
  intros H k' Hk'. replace (S sv + k') with (sv + S k') by lia. apply H. lia.
Qed.

Lemma get_page_loop_served (n : nat) (url : string) (t : Z) (w : net) :
  served w <= served (snd (get_page_loop server n url t w)) <= served w + n.
Proof.
  revert w. induction n as [| n IH]; intros w; cbn [get_page_loop]; [simpl; lia |].
  unfold requests_get.
  destruct (server (served w) url) as [p | e |]; [| simpl; lia | simpl; lia].
  destruct (status_code p =? 200)%Z; [simpl; lia |].
  specialize (IH (time_sleep t (Net (S (served w)) (trace w ++ [Get url])))).
  cbn [time_sleep served] in IH. lia.
Qed.

Lemma get_page_loop_none (n : nat) (url : string) (t : Z) (w : net) :
  refused url (served w) n ->
  get_page_loop server n url t w
  = (Returns None, Net (served w + n) (trace w ++ failed_attempts n url t)).
Proof.
  revert w. induction n as [| n IH]; intros [sv tr] Hall; cbn [get_page_loop].
  - cbn. rewrite Nat.add_0_r, app_nil_r. reflexivity.
  - unfold requests_get. cbn [served trace] in *.
    destruct (Hall 0 ltac:(lia)) as (p & Ep & H0).
    rewrite Nat.add_0_r in Ep. rewrite Ep.
    apply Z.eqb_neq in H0. rewrite H0.
    unfold time_sleep. cbn [served trace].
    rewrite IH by (cbn [served]; apply refused_tail, Hall).
    cbn [served trace]. f_equal. f_equal; [lia |].
    unfold failed_attempts. cbn [replicate concat].
    rewrite <- !app_assoc. reflexivity.
Qed.

Lemma get_page_loop_stops (n k : nat) (url : string) (t : Z) (w : net) :
  k < n ->
  refused url (served w) k ->
  (forall p, server (served w + k) url = Answer p -> status_code p = 200%Z) ->
  get_page_loop server n url t w
  = (last_attempt (server (served w + k) url),
     Net (served w + k + 1) (trace w ++ failed_attempts k url t ++ [Get url])).
Proof.
  revert k w. induction n as [| n IH]; intros k [sv tr] Hk Hbefore Hat; [lia |].
  cbn [get_page_loop]. unfold requests_get. cbn [served trace] in *.
  destruct k as [| k].
  - rewrite Nat.add_0_r in *.
    destruct (server sv url) as [p | e |] eqn:Ep; cbn [last_attempt].
    + rewrite (Hat p eq_refl). cbn. repeat f_equal. lia.
    + cbn. repeat f_equal. lia.
    + cbn. repeat f_equal. lia.
  - destruct (Hbefore 0 ltac:(lia)) as (p & Ep & H0).
    rewrite Nat.add_0_r in Ep. rewrite Ep.
    apply Z.eqb_neq in H0. rewrite H0.
    unfold time_sleep. cbn [served trace].
    rewrite (IH k); cbn [served trace].
    + replace (S sv + k) with (sv + S k) by lia.
      f_equal. f_equal.
      unfold failed_attempts. cbn [replicate concat].
      rewrite <- !app_assoc. reflexivity.
    + lia.
    + apply refused_tail, Hbefore.
    + replace (S sv + k) with (sv + S k) by lia. exact Hat.
Qed.

Lemma ok_200 (p : response) : status_code p = 200%Z -> response_ok p = true.
Proof. unfold response_ok. intros ->. reflexivity. Qed.

(** Among the first [n] requests either one ends the loop of [get_page]
    (an answer with status 200, an exception, silence), or all [n] are
    answered with another status. *)
Lemma first_outcome (n : nat) (url : string) (sv : nat) :
  (exists k, k < n /\ refused url sv k /\
     (forall p, server (sv + k) url = Answer p -> status_code p = 200%Z)) \/
  refused url sv n.
Proof.
  induction n as [| n IH]; [right; intros k Hk; lia |].
  destruct IH as [(k & Hk & Hbefore & Hat) | Hall].
  - left. exists k. split; [lia | split; assumption].
  - destruct (server (sv + n) url) as [p | e |] eqn:Ep.
    + destruct (Z.eq_dec (status_code p) 200%Z) as [E | E].
      * left. exists n. split; [lia | split; [exact Hall |]].
        intros p' Ep'. rewrite Ep in Ep'. injection Ep' as <-. exact E.
      * right. intros k Hk. destruct (Nat.eq_dec k n) as [-> | Hne].
        -- exists p. split; assumption.
        -- apply Hall. lia.
    + left. exists n. split; [lia | split; [exact Hall |]].
      intros p Ep'. rewrite Ep in Ep'. discriminate Ep'.
    + left. exists n. split; [lia | split; [exact Hall |]].
      intros p Ep'. rewrite Ep in Ep'. discriminate Ep'.
Qed.

(** [get_article_title] on top of a [get_page] that stopped at a request. *)
Lemma get_article_title_stops (article_number : Z) (k : nat) (w : net) :
  let url := String.append base_url (str_int article_number) in
  k < 5 ->
  refused url (served w) k ->
  (forall p, server (served w + k) url = Answer p -> status_code p = 200%Z) ->
  get_article_title server soup_title article_number w
  = (match server (served w + k) url with
     | Answer p =>
         match soup_title (text p) with
         | Some markup => Returns (PyTag markup)
         | None => Returns PyNone
         end
     | Fails e => Raises e
     | Silent => Hangs
     end,
     Net (served w + k + 1) (trace w ++ failed_attempts k url 1 ++ [Get url])).
Proof.
  intros url Hk Hbefore Hat.
  unfold get_article_title, get_habr_article, get_page. fold url.
  change (Z.to_nat 5) with 5.
  rewrite (get_page_loop_stops 5 k url 1 w Hk Hbefore Hat).
  destruct (server (served w + k) url) as [p | e |]; cbn [last_attempt];
    [| reflexivity | reflexivity].
  rewrite (ok_200 p (Hat p eq_refl)).
  destruct (soup_title (text p)); reflexivity.
Qed.

(** Claim C6.  For every article id the fetch sends at most five requests.
    When the first five are all answered with a status other than 200,
    [get_article_title] returns ["NOT FOUND"] after five requests, each
    followed by a pause of one second.  When attempt [k] is the first that
    is not answered with such a status: an answer with status 200 makes it
    return the title element found in that answer's body ([None] when the
    body has none); an exception raised by the request leaves
    [get_article_title] as it is, with no sentinel; and a request that is
    never answered keeps it from returning.  In each case [k] failed
    attempts and the last request have been made. *)
Theorem get_article_title_bounded (article_number : Z) (w : net) :
  let url := String.append base_url (str_int article_number) in
  let after k :=
    Net (served w + k + 1) (trace w ++ failed_attempts k url 1 ++ [Get url]) in
  served (snd (get_article_title server soup_title article_number w)) <= served w + 5 /\
  (refused url (served w) 5 ->
   get_article_title server soup_title article_number w
   = (Returns NOT_FOUND, Net (served w + 5) (trace w ++ failed_attempts 5 url 1))) /\
  (forall k p, k < 5 -> refused url (served w) k ->
     server (served w + k) url = Answer p -> status_code p = 200%Z ->
     get_article_title server soup_title article_number w
     = (Returns (match soup_title (text p) with
                 | Some markup => PyTag markup
                 | None => PyNone
                 end), after k)) /\
  (forall k e, k < 5 -> refused url (served w) k ->
     server (served w + k) url = Fails e ->
     get_article_title server soup_title article_number w = (Raises e, after k)) /\
  (forall k, k < 5 -> refused url (served w) k ->
     server (served w + k) url = Silent ->
     get_article_title server soup_title article_number w = (Hangs, after k)).
Proof.
  intros url after. split; [| split; [| split; [| split]]].
  - unfold get_article_title, get_habr_article, get_page. fold url.
    pose proof (get_page_loop_served (Z.to_nat 5) url 1 w) as Hb.
    change (Z.to_nat 5) with 5 in *.
    destruct (get_page_loop server 5 url 1 w) as [[[p |] | e |] w'];
      cbn [snd] in Hb |- *; try lia.
    destruct (response_ok p); [destruct (soup_title (text p)) |]; cbn [snd]; lia.
  - intros Hall. unfold get_article_title, get_habr_article, get_page. fold url.
    change (Z.to_nat 5) with 5. rewrite (get_page_loop_none 5 url 1 w Hall).
    reflexivity.
  - intros k p Hk Hbefore Ep Hat.
    rewrite (get_article_title_stops article_number k w Hk Hbefore); fold url.
    + rewrite Ep. destruct (soup_title (text p)); reflexivity.
    + intros p' Ep'. rewrite Ep in Ep'. injection Ep' as <-. exact Hat.
  - intros k e Hk Hbefore Ee.
    rewrite (get_article_title_stops article_number k w Hk Hbefore); fold url.
    + rewrite Ee. reflexivity.
    + intros p Ep. rewrite Ee in Ep. discriminate Ep.
  - intros k Hk Hbefore Es.
    rewrite (get_article_title_stops article_number k w Hk Hbefore); fold url.
    + rewrite Es. reflexivity.
    + intros p Ep. rewrite Es in Ep. discriminate Ep.
Qed.

End FetchFacts.

(** *** The strategies: what the result list holds *)

Lemma length_range (a b : Z) : length (Py.range a b) = Z.to_nat (b - a).
Proof. unfold Py.range. rewrite length_fmap, length_seq. reflexivity. Qed.

Lemma lookup_range (a b : Z) (k : nat) :
  k < Z.to_nat (b - a) -> Py.range a b !! k = Some (a + Z.of_nat k)%Z.
Proof.
  intros Hk. unfold Py.range. rewrite list_lookup_fmap, lookup_seq_lt by lia.
  reflexivity.
Qed.

Section StrategyFacts.

Variable W : Type.
Variable work : Z -> W -> pyval * W.

(** A work function that is a function of the task id alone. *)
Definition pure_work (f : Z -> pyval) : Z -> W -> pyval * W := fun i w => (f i, w).

Lemma length_comprehension (ids : list Z) (w : W) :
  length (fst (comprehension W work ids w)) = length ids.
Proof.
  revert w. induction ids as [| i ids IH]; intros w; [reflexivity |].
  cbn [comprehension]. destruct (work i w) as [v w1].
  specialize (IH w1). destruct (comprehension W work ids w1) as [vs w2].
  cbn [fst length] in *. congruence.
Qed.

Lemma length_single (n : Z) (w : W) :
  length (run_titles (fst (single W work n w))) = Z.to_nat (n - 1).
Proof.
  unfold single. pose proof (length_comprehension (Py.range 1 n) w) as H.
  destruct (comprehension W work (Py.range 1 n) w) as [ts w'].
  cbn [fst run_titles] in *. rewrite H. apply length_range.
Qed.

(** With [target=get_article_title] a thread is either not run yet or
    ended, and no step touches [titles] or the lock. *)
Definition plain (t : thread) : Prop :=
  match t with Ready _ | Ended => True | _ => False end.

Lemma sched_step_plain (st : shared W * list thread) (k : nat) :
  Forall plain (snd st) ->
  Forall plain (snd (sched_step W work TargetTitle st k)) /\
  titles W (fst (sched_step W work TargetTitle st k)) = titles W (fst st) /\
  length (snd (sched_step W work TargetTitle st k)) = length (snd st).
Proof.
  intros Hp. unfold sched_step.
  destruct (snd st !! k) as [t |] eqn:Et; [| auto].
  assert (Ht : plain t) by (rewrite Forall_lookup in Hp; exact (Hp k t Et)).
  destruct t as [i | | |]; try contradiction; cbn [thread_step].
  - destruct (work i (env W (fst st))) as [v w']. cbn [fst snd titles].
    split; [| split; [reflexivity | apply length_insert]].
    apply Forall_insert; [exact Hp | exact I].
  - cbn [fst snd]. split; [| split; [reflexivity | apply length_insert]].
    apply Forall_insert; [exact Hp | exact I].
Qed.

Lemma run_threads_plain (n : Z) (sched : list nat) (w : W) :
  titles W (fst (run_threads W work TargetTitle n sched w))
    = replicate (Z.to_nat n) (PyStr "") /\
  length (snd (run_threads W work TargetTitle n sched w)) = Z.to_nat n.
Proof.
  unfold run_threads.
  assert (H0 : Forall plain (snd (start_threads W n w)) /\
               titles W (fst (start_threads W n w)) = replicate (Z.to_nat n) (PyStr "") /\
               length (snd (start_threads W n w)) = Z.to_nat n).
  { cbn [start_threads fst snd titles]. split; [| split; [reflexivity |]].
    - apply Forall_fmap, Forall_forall. intros i _. exact I.
    - rewrite length_fmap, length_range. lia. }
  revert H0. generalize (start_threads W n w).
  induction sched as [| k sched IH]; intros st (Hp & Ht & Hl); [auto |].
  cbn [fold_left]. destruct (sched_step_plain st k Hp) as (Hp' & Ht' & Hl').
  apply IH. split; [exact Hp' | split; congruence].
Qed.

(** Running each thread once, in the order of creation, ends them all. *)
Lemma fold_sched_step_seq (ts : list thread) (g : shared W) (done : list thread) :
  Forall plain ts -> Forall (fun t => ended t = true) done ->
  forallb ended
    (snd (fold_left (sched_step W work TargetTitle) (seq (length done) (length ts))
            (g, done ++ ts))) = true.
Proof.
  revert g done. induction ts as [| t ts IH]; intros g done Hp Hd.
  - cbn [length seq fold_left snd]. rewrite app_nil_r.
    apply forallb_forall. rewrite Forall_forall in Hd.
    intros x Hx. apply Hd. apply list_elem_of_In. exact Hx.
  - cbn [length seq fold_left]. unfold sched_step at 2. cbn [fst snd].
    rewrite lookup_app_r by lia. rewrite Nat.sub_diag. cbn [lookup list_lookup].
    inversion Hp as [| t' ts' Ht Hts]; subst.
    assert (E : exists g', thread_step W work TargetTitle g t = (g', Ended)).
    { destruct t as [i | | |]; try contradiction; cbn [thread_step].
      - destruct (work i (env W g)) as [v w']. eauto.
      - eauto. }
    destruct E as [g' ->].
    replace (<[length done := Ended]> (done ++ t :: ts)) with ((done ++ [Ended]) ++ ts).
    + replace (S (length done)) with (length (done ++ [Ended]))
        by (rewrite length_app; simpl; lia).
      apply IH; [exact Hts |]. apply Forall_app. split; [exact Hd |].
      constructor; [reflexivity | constructor].
    + rewrite <- app_assoc. cbn [app].
      rewrite insert_app_r_alt by lia. rewrite Nat.sub_diag. reflexivity.
Qed.

Lemma threads_returns (n : Z) (w : W) :
  exists r w', threads W work n (seq 0 (Z.to_nat n)) w = (Some r, w').
Proof.
  unfold threads, threads_with, run_threads.
  pose proof (fold_sched_step_seq (Ready <$> Py.range 1 (n + 1))
                (Shared W (replicate (Z.to_nat n) (PyStr "")) false w) []) as H.
  cbn [length app] in H. rewrite length_fmap, length_range in H.
  replace (Z.to_nat (n + 1 - 1)) with (Z.to_nat n) in H by lia.
  unfold start_threads.
  destruct (fold_left _ _ _) as [g ts]. cbn [snd] in H.
  rewrite H; [eauto | | constructor].
  apply Forall_fmap, Forall_forall. intros i _. exact I.
Qed.

End StrategyFacts.

(** *** The pools: results by slot, whatever the order of the calls *)

Section PoolFacts.

Variable W : Type.
Variable work : Z -> W -> pyval * W.

Lemma pool_calls_keys (order : list nat) (ids : list Z) (w : W) :
  Forall (fun k => k < length ids) order ->
  (fst <$> fst (pool_calls W work order ids w)) = order.
Proof.
  revert w. induction order as [| k order IH]; intros w Hv; [reflexivity |].
  inversion Hv as [| k' o' Hk Ho]; subst. cbn [pool_calls].
  destruct (lookup_lt_is_Some_2 ids k Hk) as [i ->].
  destruct (work i w) as [v w1]. specialize (IH w1 Ho).
  destruct (pool_calls W work order ids w1) as [log w2].
  cbn [fst fmap list_fmap] in *. congruence.
Qed.

(** Every logged call is the call of the work function on the id in that
    slot, in some state. *)
Lemma pool_calls_sound (order : list nat) (ids : list Z) (w : W) (k : nat) (v : pyval) :
  (k, v) ∈ fst (pool_calls W work order ids w) ->
  exists i w0, ids !! k = Some i /\ fst (work i w0) = v.
Proof.
  revert w. induction order as [| k0 order IH]; intros w Hin; cbn [pool_calls] in Hin.
  - apply elem_of_nil in Hin. contradiction.
  - destruct (ids !! k0) as [i |] eqn:Ei; [| eauto].
    destruct (work i w) as [v0 w1] eqn:Ew.
    specialize (IH w1). destruct (pool_calls W work order ids w1) as [log w2].
    cbn [fst] in *. apply elem_of_cons in Hin as [Heq | Hin]; [| eauto].
    injection Heq as -> ->. exists i, w. rewrite Ew. auto.
Qed.

Lemma slot_value_NoDup (log : list (nat * pyval)) (k : nat) (v : pyval) :
  NoDup (fst <$> log) -> (k, v) ∈ log -> slot_value log k = Some v.
Proof.
  unfold slot_value. induction log as [| [k0 v0] log IH]; intros Hnd Hin.
  - apply elem_of_nil in Hin. contradiction.
  - cbn [fmap list_fmap fst] in Hnd. apply NoDup_cons in Hnd as [Hk0 Hnd].
    cbn [find fst]. destruct (Nat.eqb_spec k0 k) as [-> | Hne].
    + apply elem_of_cons in Hin as [Heq | Hin]; [injection Heq as ->; reflexivity |].
      exfalso. apply Hk0. apply list_elem_of_fmap. exists (k, v). auto.
    + apply elem_of_cons in Hin as [Heq | Hin]; [congruence |]. auto.
Qed.

Lemma slot_value_in (log : list (nat * pyval)) (k : nat) (v : pyval) :
  slot_value log k = Some v -> (k, v) ∈ log.
Proof.
  unfold slot_value. induction log as [| [k0 v0] log IH]; [discriminate |].
  cbn [find fst]. destruct (Nat.eqb_spec k0 k) as [-> | Hne].
  - cbn. intros [= ->]. apply elem_of_cons. auto.
  - intros H. apply elem_of_cons. auto.
Qed.

(** [pool.map] returns one value per task, and slot [k] holds the value the
    call for task [k] returned, for every order in which the tasks are
    taken. *)
Lemma pool_map_slots (order : list nat) (ids : list Z) (w : W) :
  Permutation order (seq 0 (length ids)) ->
  exists ts, fst (pool_map W work order ids w) = Some ts /\
    length ts = length ids /\
    forall k v, (k, v) ∈ fst (pool_calls W work order ids w) <-> ts !! k = Some v.
Proof.
  intros Hperm. unfold pool_map.
  assert (Hvalid : Forall (fun k => k < length ids) order).
  { apply Forall_forall. intros k Hk. rewrite Hperm in Hk.
    apply elem_of_seq in Hk. lia. }
  pose proof (pool_calls_keys order ids w Hvalid) as Hkeys.
  destruct (pool_calls W work order ids w) as [log w'] eqn:Elog. cbn [fst] in *.
  assert (Hnd : NoDup (fst <$> log)).
  { rewrite Hkeys, Hperm. apply NoDup_seq. }
  assert (Hall : forall k, k < length ids -> exists v, (k, v) ∈ log).
  { intros k Hk. assert (Hin : k ∈ fst <$> log).
    { rewrite Hkeys, Hperm. apply elem_of_seq. lia. }
    apply list_elem_of_fmap in Hin as ([k' v] & -> & Hin). eauto. }
  destruct (mapM (slot_value log) (seq 0 (length ids))) as [ts |] eqn:Em.
  - exists ts. split; [reflexivity |].
    apply mapM_Some in Em.
    pose proof (Forall2_length _ _ _ Em) as Hlen. rewrite length_seq in Hlen.
    split; [lia |]. intros k v. split.
    + intros Hin.
      assert (Hk : k < length ids).
      { assert (Hin' : k ∈ fst <$> log)
          by (apply list_elem_of_fmap; exists (k, v); auto).
        rewrite Hkeys, Hperm in Hin'. apply elem_of_seq in Hin'. lia. }
      destruct (Forall2_lookup_l _ _ _ k k Em (lookup_seq_lt 0 _ _ Hk))
        as (y & Hy & Hsv).
      rewrite (slot_value_NoDup log k v Hnd Hin) in Hsv. congruence.
    + intros Hts. pose proof (lookup_lt_Some _ _ _ Hts) as Hk.
      destruct (Forall2_lookup_r _ _ _ k v Em Hts) as (x & Hx & Hsv).
      apply lookup_seq in Hx as [-> _]. apply slot_value_in. exact Hsv.
  - exfalso. apply mapM_None in Em. apply Exists_exists in Em as (k & Hk & Hnone).
    apply elem_of_seq in Hk. destruct (Hall k ltac:(lia)) as [v Hv].
    rewrite (slot_value_NoDup log k v Hnd Hv) in Hnone. discriminate.
Qed.

Lemma pool_calls_state (order : list nat) (ids : list Z) (w : W) :
  snd (pool_map W work order ids w) = snd (pool_calls W work order ids w).
Proof. unfold pool_map. destruct (pool_calls W work order ids w). reflexivity. Qed.

(** For a work function of the task id alone the result is [f] mapped over
    the ids. *)
Lemma pool_map_pure (f : Z -> pyval) (order : list nat) (ids : list Z) (w : W) :
  (forall i w0, work i w0 = (f i, w0)) ->
  Permutation order (seq 0 (length ids)) ->
  fst (pool_map W work order ids w) = Some (f <$> ids).
Proof.
  intros Hpure Hperm.
  destruct (pool_map_slots order ids w Hperm) as (ts & E & Hlen & Hslots).
  rewrite E. f_equal. apply list_eq. intros k.
  rewrite list_lookup_fmap.
  destruct (ts !! k) as [v |] eqn:Ek.
  - apply Hslots in Ek. apply pool_calls_sound in Ek as (i & w0 & Ei & Ev).
    rewrite Ei, Hpure in *. cbn in *. congruence.
  - apply lookup_ge_None in Ek.
    rewrite (lookup_ge_None_2 ids k) by lia. reflexivity.
Qed.

Lemma comprehension_pure (f : Z -> pyval) (ids : list Z) (w : W) :
  (forall i w0, work i w0 = (f i, w0)) ->
  comprehension W work ids w = (f <$> ids, w).
Proof.
  intros Hpure. induction ids as [| i ids IH]; [reflexivity |].
  cbn [comprehension]. rewrite Hpure, IH. reflexivity.
Qed.

Lemma lookup_report (ts : list pyval) (k : nat) (v : pyval) :
  ts !! k = Some v -> report ts !! k = Some (line (Z.of_nat (1 + k)) v).
Proof. intros H. unfold report. rewrite list_lookup_imap, H. reflexivity. Qed.

Lemma length_report (ts : list pyval) : length (report ts) = length ts.
Proof. unfold report. apply length_imap. Qed.

End PoolFacts.

(** *** The claims about the strategies *)

Lemma pool_strategy_length (W : Type) (work : Z -> W -> pyval * W) (n pool_size : Z)
    (order : list nat) (w w' : W) (r : run) :
  pool_strategy W work n pool_size order w = (Some (Ok r), w') ->
  length (run_titles r) = Z.to_nat (n - 1).
Proof.
  unfold pool_strategy, pool_map. destruct (pool_size <? 1)%Z; [discriminate |].
  destruct (pool_calls W work order (Py.range 1 n) w) as [log w1].
  destruct (mapM (slot_value log) (seq 0 (length (Py.range 1 n)))) as [ts |] eqn:Em;
    [| discriminate].
  intros [= <- _]. cbn [run_titles].
  apply length_mapM in Em. rewrite length_seq, length_range in Em. lia.
Qed.

Lemma threads_titles (W : Type) (work : Z -> W -> pyval * W) (n : Z)
    (sched : list nat) (w w' : W) (r : run) :
  threads W work n sched w = (Some r, w') ->
  run_titles r = replicate (Z.to_nat n) (PyStr "").
Proof.
  unfold threads, threads_with.
  pose proof (run_threads_plain W work n sched w) as [Ht _].
  destruct (run_threads W work TargetTitle n sched w) as [g ts]. cbn [fst] in Ht.
  destruct (forallb ended ts); [| discriminate].
  intros [= <- _]. exact Ht.
Qed.

(** Claim C1 on the code.  For [n_tasks] tasks, [single] and the two pools
    return [n_tasks - 1] results, since all three iterate over
    [range(1, n_tasks)]; [threads] leaves a list of [n_tasks] slots that all
    still hold the initial empty string. *)
Theorem slots_per_strategy (W : Type) (work : Z -> W -> pyval * W) (n : Z) (w : W) :
  length (run_titles (fst (single W work n w))) = Z.to_nat (n - 1) /\
  (forall sched r w', threads W work n sched w = (Some r, w') ->
     run_titles r = replicate (Z.to_nat n) (PyStr "")) /\
  (forall pool_size order r w',
     thread_pool W work n pool_size order w = (Some (Ok r), w') ->
     length (run_titles r) = Z.to_nat (n - 1)) /\
  (forall pool_size order r w',
     process_pool W work n pool_size order w = (Some (Ok r), w') ->
     length (run_titles r) = Z.to_nat (n - 1)).
Proof.
  split; [apply length_single |]. split; [| split].
  - intros sched r w'. apply threads_titles.
  - intros pool_size order r w'. apply pool_strategy_length.
  - intros pool_size order r w'. apply pool_strategy_length.
Qed.

(** Claim C2 on the code.  [threads] creates one thread per task, but with
    [target=get_article_title]: the title each thread computes is dropped,
    no thread stores into [titles], and after the joins every one of the
    [n_tasks] slots still holds the empty string. *)
Theorem threads_store_nothing (W : Type) (work : Z -> W -> pyval * W) (n : Z)
    (sched : list nat) (w : W) :
  length (snd (start_threads W n w)) = Z.to_nat n /\
  titles W (fst (run_threads W work TargetTitle n sched w))
    = replicate (Z.to_nat n) (PyStr "") /\
  (forall r w', threads W work n sched w = (Some r, w') ->
     forall k, k < Z.to_nat n -> run_titles r !! k = Some (PyStr "")) /\
  (exists r w', threads W work n (seq 0 (Z.to_nat n)) w = (Some r, w')).
Proof.
  split; [| split; [| split]].
  - cbn [start_threads snd]. rewrite length_fmap, length_range. lia.
  - apply run_threads_plain.
  - intros r w' E k Hk. rewrite (threads_titles W work n sched w w' r E).
    apply lookup_replicate_2. exact Hk.
  - apply threads_returns.
Qed.

(** Claim C3 on the code.  For a work function [f] of the task id and
    [n_tasks > 0], the pools return what [single] returns, the values of [f]
    on [1 .. n_tasks - 1]; [threads] returns [n_tasks] empty strings, a
    different list. *)
Theorem strategies_disagree (W : Type) (f : Z -> pyval) (n : Z) (sched : list nat)
    (w w' : W) (r : run) :
  (0 < n)%Z ->
  threads W (pure_work W f) n sched w = (Some r, w') ->
  fst (single W (pure_work W f) n w)
    = Run (f <$> Py.range 1 n) (report (f <$> Py.range 1 n)) /\
  (forall order, Permutation order (seq 0 (length (Py.range 1 n))) ->
     thread_pool W (pure_work W f) n 10 order w
       = (Some (Ok (fst (single W (pure_work W f) n w))), w)) /\
  run_titles (fst (single W (pure_work W f) n w)) <> run_titles r.
Proof.
  intros Hn Et.
  assert (Hpure : forall i w0, pure_work W f i w0 = (f i, w0)) by reflexivity.
  assert (Es : single W (pure_work W f) n w
               = (Run (f <$> Py.range 1 n) (report (f <$> Py.range 1 n)), w)).
  { unfold single. rewrite (comprehension_pure W _ f _ w Hpure). reflexivity. }
  rewrite Es. cbn [fst run_titles]. split; [reflexivity |]. split.
  - intros order Hperm. unfold thread_pool, pool_strategy. cbn [Z.ltb Z.compare].
    pose proof (pool_map_pure W _ f order (Py.range 1 n) w Hpure Hperm) as Hm.
    pose proof (pool_calls_state W (pure_work W f) order (Py.range 1 n) w) as Hs.
    assert (Hw : forall o, snd (pool_calls W (pure_work W f) o (Py.range 1 n) w) = w).
    { clear. intros o. induction o as [| k o IH]; [reflexivity |].
      cbn [pool_calls]. destruct (Py.range 1 n !! k); [| exact IH].
      unfold pure_work at 1.
      destruct (pool_calls W (pure_work W f) o (Py.range 1 n) w). exact IH. }
    destruct (pool_map W (pure_work W f) order (Py.range 1 n) w) as [res w1].
    cbn [fst snd] in *. subst res. rewrite Hs, Hw. reflexivity.
  - rewrite (threads_titles W _ n sched w w' r Et). intros E.
    apply (f_equal length) in E.
    rewrite length_fmap, length_range, length_replicate in E. lia.
Qed.

(** The theorem of C3 with two tasks and the work function [i -> 2 * i]:
    [single] and the pool return [[2]], [threads] returns two empty
    strings. *)
Lemma strategies_disagree_witness :
  run_titles (fst (single unit (pure_work unit (fun i => PyInt (2 * i))) 2 tt))
    <> [PyStr ""; PyStr ""].
Proof.
  refine (proj2 (proj2 (strategies_disagree unit (fun i => PyInt (2 * i)) 2 [0; 1] tt tt
            (Run [PyStr ""; PyStr ""] (report [PyStr ""; PyStr ""])) _ _))).
  - lia.
  - reflexivity.
Defined.

(** Claim C7, as the code has it.  With a pool of at least one worker, and
    for every order in which the workers take the tasks, a pool strategy
    returns one value per submitted id, slot [k] holding the value the call
    for the [k]-th submitted id returned, and prints line [k] for that id
    and that value, the id right-aligned in a width of two.  For a work
    function of the id alone the result is that function mapped over the
    submitted ids. *)
Theorem pool_results_in_submission_order (W : Type) (work : Z -> W -> pyval * W)
    (n pool_size : Z) (order : list nat) (w : W) :
  (1 <= pool_size)%Z ->
  Permutation order (seq 0 (length (Py.range 1 n))) ->
  exists ts,
    thread_pool W work n pool_size order w
      = (Some (Ok (Run ts (report ts))), snd (pool_calls W work order (Py.range 1 n) w)) /\
    process_pool W work n pool_size order w
      = thread_pool W work n pool_size order w /\
    length ts = length (Py.range 1 n) /\
    (forall k v, (k, v) ∈ fst (pool_calls W work order (Py.range 1 n) w) <->
                 ts !! k = Some v) /\
    (forall k i v, Py.range 1 n !! k = Some i -> ts !! k = Some v ->
       i = (1 + Z.of_nat k)%Z /\ report ts !! k = Some (line i v)) /\
    (forall f, (forall i w0, work i w0 = (f i, w0)) -> ts = f <$> Py.range 1 n).
Proof.
  intros Hp Hperm.
  destruct (pool_map_slots W work order (Py.range 1 n) w Hperm) as (ts & E & Hlen & Hslots).
  exists ts. split; [| split; [reflexivity | split; [exact Hlen | split; [exact Hslots |]]]].
  - unfold thread_pool, pool_strategy.
    destruct (pool_size <? 1)%Z eqn:Ep; [apply Z.ltb_lt in Ep; lia |].
    pose proof (pool_calls_state W work order (Py.range 1 n) w) as Hs.
    destruct (pool_map W work order (Py.range 1 n) w) as [res w1].
    cbn [fst snd] in *. subst res. rewrite Hs. reflexivity.
  - split.
    + intros k i v Hi Hv. pose proof (lookup_lt_Some _ _ _ Hi) as Hk.
      rewrite length_range in Hk. rewrite lookup_range in Hi by exact Hk.
      injection Hi as <-. split; [reflexivity |].
      rewrite (lookup_report ts k v Hv). do 2 f_equal. lia.
    + intros f Hpure.
      pose proof (pool_map_pure W work f order (Py.range 1 n) w Hpure Hperm) as Hm.
      congruence.
Qed.

(** The theorem of C7 for three submitted ids taken in the order 2, 0, 1. *)
Lemma pool_results_in_submission_order_witness :
  exists ts,
    thread_pool unit (pure_work unit (fun i => PyInt (2 * i))) 4 10 [2; 0; 1] tt
      = (Some (Ok (Run ts (report ts))), tt) /\
    ts = [PyInt 2; PyInt 4; PyInt 6].
Proof.
  destruct (pool_results_in_submission_order unit
              (pure_work unit (fun i => PyInt (2 * i))) 4 10 [2; 0; 1] tt)
    as (ts & E & _ & _ & _ & _ & Hpure).
  - lia.
  - change (seq 0 (length (Py.range 1 4))) with [0; 1; 2].
    apply perm_trans with [0; 2; 1]; [apply perm_swap |].
    apply perm_skip, perm_swap.
  - exists ts. split; [exact E |]. apply (Hpure (fun i => PyInt (2 * i))).
    reflexivity.
Defined.

(** C7 as worded fails on the code: for two tasks a pool prints a single
    line, and that line carries the id padded to two characters. *)
Lemma pool_prints_padded_line :
  thread_pool unit (pure_work unit (fun _ => PyStr "t")) 2 10 [0] tt
    = (Some (Ok (Run [PyStr "t"] ["Article  1 title: t"%string])), tt) /\
  "Article  1 title: t"%string <> "Article 1 title: t"%string.
Proof. split; [reflexivity | discriminate]. Qed.

(** The theorem of C6 against a server that answers 503 twice and then 200:
    the third request succeeds and the title of its body comes back; and
    against one that answers 503 once and then breaks the connection: the
    exception of the second request leaves [get_article_title]. *)
Lemma get_article_title_bounded_witness :
  get_article_title
    (fun k _ => if k <? 2 then Answer (Response 503 "")
                else Answer (Response 200 "<title>T</title>"))
    (fun _ => Some "<title>T</title>"%string) 7 (Net 0 [])
  = (Returns (PyTag "<title>T</title>"),
     Net 3 [Get "https://habr.com/ru/articles/7"; Sleep 1;
            Get "https://habr.com/ru/articles/7"; Sleep 1;
            Get "https://habr.com/ru/articles/7"]) /\
  get_article_title
    (fun k _ => if k <? 1 then Answer (Response 503 "") else Fails ConnectionError)
    (fun _ => None) 7 (Net 0 [])
  = (Raises ConnectionError,
     Net 2 [Get "https://habr.com/ru/articles/7"; Sleep 1;
            Get "https://habr.com/ru/articles/7"]).
Proof.
  split.
  - refine (proj1 (proj2 (proj2 (get_article_title_bounded
              (fun k _ => if k <? 2 then Answer (Response 503 "")
                          else Answer (Response 200 "<title>T</title>"))
              (fun _ => Some "<title>T</title>"%string) 7 (Net 0 []))))
              2 (Response 200 "<title>T</title>") _ _ _ _).
    + lia.
    + intros [| [| k']] Hk; [| | lia]; (eexists; split; [reflexivity | discriminate]).
    + reflexivity.
    + reflexivity.
  - refine (proj1 (proj2 (proj2 (proj2 (get_article_title_bounded
              (fun k _ => if k <? 1 then Answer (Response 503 "")
                          else Fails ConnectionError)
              (fun _ => None) 7 (Net 0 [])))))
              1 ConnectionError _ _ _).
    + lia.
    + intros [| k'] Hk; [| lia]. eexists; split; [reflexivity | discriminate].
    + reflexivity.
Defined.

(** No attempt gets a status 200 from a server that cannot be reached, and
    [get_article_title] does not return ["NOT FOUND"]: the exception of the
    first request leaves it, after that one request. *)
Lemma get_article_title_network_error :
  get_article_title (fun _ _ => Fails ConnectionError) (fun _ => None) 7 (Net 0 [])
  = (Raises ConnectionError, Net 1 [Get "https://habr.com/ru/articles/7"]) /\
  fst (get_article_title (fun _ _ => Fails ConnectionError) (fun _ => None) 7 (Net 0 []))
  <> Returns NOT_FOUND.
Proof. split; [reflexivity | discriminate]. Qed.

(** *** Further facts about the fetch *)

Section FetchMore.

Variable server : nat -> string -> reply.
Variable soup_title : string -> option string.

(** X9.  [get_page] makes at most [n_attempts] requests and none at all
    for a non-positive count; a page it returns has status 200 and is
    truthy; when it returns [None] it has made every attempt and slept
    [t_sleep] after each one, the last included. *)
Theorem get_page_outcomes (url : string) (n_attempts t_sleep : Z) (w : net) :
  served (snd (get_page server url n_attempts t_sleep w))
    <= served w + Z.to_nat n_attempts /\
  ((n_attempts <= 0)%Z -> get_page server url n_attempts t_sleep w = (Returns None, w)) /\
  (forall p, fst (get_page server url n_attempts t_sleep w) = Returns (Some p) ->
     status_code p = 200%Z /\ response_ok p = true) /\
  (fst (get_page server url n_attempts t_sleep w) = Returns None ->
     snd (get_page server url n_attempts t_sleep w)
     = Net (served w + Z.to_nat n_attempts)
           (trace w ++ failed_attempts (Z.to_nat n_attempts) url t_sleep)).
Proof.
  unfold get_page. split; [apply get_page_loop_served |]. split; [| split].
  - intros Hn. replace (Z.to_nat n_attempts) with 0 by lia. reflexivity.
  - intros p Hp.
    destruct (first_outcome server (Z.to_nat n_attempts) url (served w))
      as [(k & Hk & Hbefore & Hat) | Hall].
    + rewrite (get_page_loop_stops server _ k url t_sleep w Hk Hbefore Hat) in Hp.
      cbn [fst] in Hp.
      destruct (server (served w + k) url) as [p' | e |] eqn:Ep;
        cbn [last_attempt] in Hp; [| discriminate Hp | discriminate Hp].
      injection Hp as <-. split; [exact (Hat p' eq_refl) | apply ok_200, Hat, eq_refl].
    + rewrite (get_page_loop_none server _ url t_sleep w Hall) in Hp. discriminate Hp.
  - intros Hnone.
    destruct (first_outcome server (Z.to_nat n_attempts) url (served w))
      as [(k & Hk & Hbefore & Hat) | Hall].
    + rewrite (get_page_loop_stops server _ k url t_sleep w Hk Hbefore Hat) in Hnone.
      cbn [fst] in Hnone.
      destruct (server (served w + k) url) as [p' | e |];
        cbn [last_attempt] in Hnone; discriminate Hnone.
    + rewrite (get_page_loop_none server _ url t_sleep w Hall). reflexivity.
Qed.

(** X10.  [get_article_title] returns the sentinel ["NOT FOUND"] exactly
    when each of its five requests is answered and none of the answers has
    status 200; a page that answers 200 without a title element gives
    [None], not the sentinel. *)
Theorem not_found_iff (article_number : Z) (w : net) :
  let url := String.append base_url (str_int article_number) in
  fst (get_article_title server soup_title article_number w) = Returns NOT_FOUND <->
  (forall k, k < 5 ->
     exists p, server (served w + k) url = Answer p /\ status_code p <> 200%Z).
Proof.
  intros url. change (forall k, k < 5 -> _) with (refused server url (served w) 5).
  destruct (first_outcome server 5 url (served w))
    as [(k & Hk & Hbefore & Hat) | Hall].
  - rewrite (get_article_title_stops server soup_title article_number k w Hk Hbefore Hat).
    fold url. cbn [fst]. split.
    + destruct (server (served w + k) url) as [p | e |];
        [destruct (soup_title (text p)) | |]; intros H; discriminate H.
    + intros Hall. destruct (Hall k Hk) as (p & Ep & Hne).
      destruct (Hne (Hat p Ep)).
  - unfold get_article_title, get_habr_article, get_page. fold url.
    change (Z.to_nat 5) with 5.
    rewrite (get_page_loop_none server 5 url 1 w Hall). split; [auto | reflexivity].
Qed.

End FetchMore.

(** [get_page] against a server that always answers 404, asked for two
    attempts: it returns [None] after two requests, each followed by the
    pause. *)
Lemma get_page_outcomes_witness :
  fst (get_page (fun _ _ => Answer (Response 404 "")) "u" 2 1 (Net 0 [])) = Returns None /\
  snd (get_page (fun _ _ => Answer (Response 404 "")) "u" 2 1 (Net 0 []))
  = Net 2 [Get "u"; Sleep 1; Get "u"; Sleep 1].
Proof.
  split; [reflexivity |].
  apply (proj2 (proj2 (proj2
           (get_page_outcomes (fun _ _ => Answer (Response 404 "")) "u" 2 1 (Net 0 []))))).
  reflexivity.
Defined.

(** *** [get_article_title_ths]: the target that stores under the lock *)

Definition is_locked (t : thread) : bool :=
  match t with Locked _ _ => true | _ => false end.

(** How many threads are inside [with mutex]. *)
Definition locked_count (ts : list thread) : nat := length (List.filter is_locked ts).

Lemma locked_count_insert (ts : list thread) (k : nat) (t t' : thread) :
  ts !! k = Some t ->
  locked_count (<[k := t']> ts) + (if is_locked t then 1 else 0)
  = locked_count ts + (if is_locked t' then 1 else 0).
Proof.
  unfold locked_count. revert k. induction ts as [| t0 ts IH]; intros k Ek.
  - discriminate Ek.
  - destruct k as [| k].
    + injection Ek as ->. cbn [insert list_insert List.filter].
      destruct (is_locked t), (is_locked t'); simpl; lia.
    + change (<[S k := t']> (t0 :: ts)) with (t0 :: <[k := t']> ts).
      cbn [List.filter]. specialize (IH k Ek).
      destruct (is_locked t0); cbn [length]; lia.
Qed.

Section ThsFacts.

Variable W : Type.
Variable work : Z -> W -> pyval * W.

(** One call [get_article_title_ths(article_number)] with no other thread
    around: the work, the lock, the store with the release. *)
Definition get_article_title_ths (article_number : Z) (g : shared W) : shared W :=
  let '(g1, t1) := thread_step W work TargetTitleThs g (Ready article_number) in
  let '(g2, t2) := thread_step W work TargetTitleThs g1 t1 in
  fst (thread_step W work TargetTitleThs g2 t2).

(** X11.  A call [get_article_title_ths(i)] made while the lock is free
    computes the title, stores it at [titles[i - 1]] and leaves the lock
    free.  For [1 <= i <= len(titles)] that is slot [i - 1]; for [i = 0] the
    index [-1] wraps around to the last slot; for an index outside the list
    the [IndexError] ends the call with [titles] unchanged and the lock
    released. *)
Theorem ths_stores (i : Z) (g : shared W) :
  mutex W g = false ->
  let v := fst (work i (env W g)) in
  let n := Z.of_nat (length (titles W g)) in
  let g' := get_article_title_ths i g in
  mutex W g' = false /\ env W g' = snd (work i (env W g)) /\
  length (titles W g') = length (titles W g) /\
  ((1 <= i <= n)%Z -> titles W g' = <[Z.to_nat (i - 1) := v]> (titles W g)) /\
  (i = 0%Z -> titles W g' = <[length (titles W g) - 1 := v]> (titles W g)) /\
  ((i < 1 - n \/ n < i)%Z -> titles W g' = titles W g).
Proof.
  intros Hm v n g'. subst g'. unfold get_article_title_ths.
  cbn [thread_step]. subst v. destruct (work i (env W g)) as [v w'].
  cbn [thread_step mutex fst snd]. rewrite Hm. cbn [thread_step titles env mutex].
  unfold setitem, norm_index. subst n.
  destruct ((0 <=? i - 1)%Z && (i - 1 <? Z.of_nat (length (titles W g)))%Z) eqn:E1.
  - apply andb_prop in E1 as [Ea Eb]. apply Z.leb_le in Ea. apply Z.ltb_lt in Eb.
    cbn [fst titles mutex env].
    repeat split; try reflexivity; try apply length_insert; intros; lia.
  - destruct ((- Z.of_nat (length (titles W g)) <=? i - 1)%Z && (i - 1 <? 0)%Z) eqn:E2.
    + apply andb_prop in E2 as [Ea Eb]. apply Z.leb_le in Ea. apply Z.ltb_lt in Eb.
      cbn [fst titles mutex env].
      repeat split; try reflexivity; try apply length_insert;
        try (intros; lia).
      intros ->. f_equal. lia.
    + cbn [fst titles mutex env].
      apply andb_false_iff in E1. apply andb_false_iff in E2.
      rewrite Z.leb_gt, Z.ltb_ge in E1. rewrite Z.leb_gt, Z.ltb_ge in E2.
      repeat split; try reflexivity; try (intros; lia).
      intros ->. destruct (titles W g) as [| t0 ts]; [reflexivity |].
      cbn [length] in *. lia.
Qed.

End ThsFacts.

(** The theorem of X11 for [i = 0] on three slots: the last one is
    written. *)
Lemma ths_stores_witness :
  titles unit
    (get_article_title_ths unit (fun i w => (PyInt i, w)) 0
       (Shared unit [PyStr ""; PyStr ""; PyStr ""] false tt))
  = <[2 := PyInt 0]> [PyStr ""; PyStr ""; PyStr ""].
Proof.
  refine (proj1 (proj2 (proj2 (proj2 (proj2
            (ths_stores unit (fun i w => (PyInt i, w)) 0
               (Shared unit [PyStr ""; PyStr ""; PyStr ""] false tt) _))))) _).
  - reflexivity.
  - reflexivity.
Defined.

(** *** Threads started on [get_article_title_ths] *)

Section ThsThreads.

Variable W : Type.
Variable work : Z -> W -> pyval * W.
Variable f : Z -> pyval.
Hypothesis Hf : forall i w, fst (work i w) = f i.
Variable n : Z.

(** Thread [k] works on id [k + 1]; its slot holds the empty string until
    the thread has ended, and the title afterwards. *)
Definition slot_ok (ts : list pyval) (k : nat) (t : thread) : Prop :=
  let i := (1 + Z.of_nat k)%Z in
  match t with
  | Ready j => j = i /\ ts !! k = Some (PyStr "")
  | Fetched j v | Locked j v => j = i /\ v = f i /\ ts !! k = Some (PyStr "")
  | Ended => ts !! k = Some (f i)
  end.

Definition ths_inv (st : shared W * list thread) : Prop :=
  length (titles W (fst st)) = Z.to_nat n /\
  length (snd st) = Z.to_nat n /\
  (forall k t, snd st !! k = Some t -> slot_ok (titles W (fst st)) k t) /\
  locked_count (snd st) = (if mutex W (fst st) then 1 else 0).

Lemma locked_count_Ready (ids : list Z) : locked_count (Ready <$> ids) = 0.
Proof. unfold locked_count. induction ids as [| i ids IH]; [reflexivity | exact IH]. Qed.

Lemma ths_inv_start (w : W) : ths_inv (start_threads W n w).
Proof.
  unfold ths_inv, start_threads. cbn [fst snd titles mutex].
  split; [apply length_replicate |].
  split; [rewrite length_fmap, length_range; lia |].
  split; [| apply locked_count_Ready].
  intros k t Ek. rewrite list_lookup_fmap in Ek.
  destruct (Py.range 1 (n + 1) !! k) as [i |] eqn:Ei; [| discriminate Ek].
  injection Ek as <-. pose proof (lookup_lt_Some _ _ _ Ei) as Hk.
  rewrite length_range in Hk. rewrite lookup_range in Ei by exact Hk.
  injection Ei as <-. split; [reflexivity |].
  apply lookup_replicate_2. lia.
Qed.

Lemma locked_count_pos (ts : list thread) (k : nat) (j : Z) (v : pyval) :
  ts !! k = Some (Locked j v) -> 0 < locked_count ts.
Proof.
  unfold locked_count. revert k. induction ts as [| t ts IH]; intros k Ek.
  - discriminate Ek.
  - destruct k as [| k].
    + injection Ek as ->. cbn. lia.
    + cbn [List.filter]. specialize (IH k Ek).
      destruct (is_locked t); cbn [length]; lia.
Qed.

Lemma sched_step_ths_inv (st : shared W * list thread) (k : nat) :
  ths_inv st -> ths_inv (sched_step W work TargetTitleThs st k).
Proof.
  intros (Hlt & Hls & Hslots & Hlock). unfold sched_step.
  destruct (snd st !! k) as [t |] eqn:Et; [| repeat split; assumption].
  pose proof (Hslots k t Et) as Hk. pose proof (lookup_lt_Some _ _ _ Et) as Hkn.
  pose proof (locked_count_insert (snd st) k t) as Hins.
  destruct st as [g ts]. cbn [fst snd] in *.
  destruct t as [j | j v | j v |]; cbn [thread_step slot_ok] in *.
  - (* the work function is called *)
    destruct Hk as [-> Hslot]. pose proof (Hf (1 + Z.of_nat k) (env W g)) as Hv.
    destruct (work (1 + Z.of_nat k) (env W g)) as [v w']. cbn [fst] in Hv.
    unfold ths_inv. cbn [fst snd titles mutex].
    split; [exact Hlt |]. split; [rewrite length_insert; exact Hls |]. split.
    + intros k' t' Ek'. destruct (decide (k' = k)) as [-> | Hne].
      * rewrite list_lookup_insert_eq in Ek' by lia. injection Ek' as <-.
        cbn [slot_ok]. auto.
      * rewrite list_lookup_insert_ne in Ek' by congruence. auto.
    + specialize (Hins (Fetched (1 + Z.of_nat k) v) Et). cbn [is_locked] in Hins. lia.
  - (* the lock is taken, or the thread waits *)
    destruct Hk as (-> & -> & Hslot).
    destruct (mutex W g) eqn:Hm.
    + rewrite list_insert_id by exact Et. unfold ths_inv. cbn [fst snd].
      rewrite Hm. auto.
    + unfold ths_inv. cbn [fst snd titles mutex].
      split; [exact Hlt |]. split; [rewrite length_insert; exact Hls |]. split.
      * intros k' t' Ek'. destruct (decide (k' = k)) as [-> | Hne].
        -- rewrite list_lookup_insert_eq in Ek' by lia. injection Ek' as <-.
           cbn [slot_ok]. auto.
        -- rewrite list_lookup_insert_ne in Ek' by congruence. auto.
      * specialize (Hins (Locked (1 + Z.of_nat k) (f (1 + Z.of_nat k))) Et).
        cbn [is_locked] in Hins. lia.
  - (* the store and the release *)
    destruct Hk as (-> & -> & Hslot).
    pose proof (locked_count_pos ts k _ _ Et) as Hpos.
    unfold setitem, norm_index.
    replace (1 + Z.of_nat k - 1)%Z with (Z.of_nat k) by lia.
    assert (E : ((0 <=? Z.of_nat k)%Z && (Z.of_nat k <? Z.of_nat (length (titles W g)))%Z) = true).
    { apply andb_true_intro. split; [apply Z.leb_le | apply Z.ltb_lt]; lia. }
    rewrite E, Nat2Z.id. unfold ths_inv. cbn [fst snd titles mutex].
    split; [rewrite length_insert; exact Hlt |].
    split; [rewrite length_insert; exact Hls |]. split.
    + intros k' t' Ek'. destruct (decide (k' = k)) as [-> | Hne].
      * rewrite list_lookup_insert_eq in Ek' by lia. injection Ek' as <-.
        cbn [slot_ok]. apply list_lookup_insert_eq. lia.
      * rewrite list_lookup_insert_ne in Ek' by congruence.
        specialize (Hslots k' t' Ek').
        destruct t'; cbn [slot_ok] in *;
          rewrite list_lookup_insert_ne by congruence; exact Hslots.
    + specialize (Hins Ended Et). cbn [is_locked] in Hins.
      destruct (mutex W g); lia.
  - rewrite list_insert_id by exact Et. repeat split; assumption.
Qed.

Lemma run_threads_ths_inv (sched : list nat) (w : W) :
  ths_inv (run_threads W work TargetTitleThs n sched w).
Proof.
  unfold run_threads. generalize (ths_inv_start w). generalize (start_threads W n w).
  induction sched as [| k sched IH]; intros st Hst; [exact Hst |].
  cbn [fold_left]. apply IH, sched_step_ths_inv, Hst.
Qed.

(** Running every thread for three steps in a row ends them all. *)
Lemma fold_three_steps (ts : list thread) (g : shared W) (done : list thread) :
  mutex W g = false ->
  Forall (fun t => exists i, t = Ready i) ts ->
  Forall (fun t => ended t = true) done ->
  forallb ended
    (snd (fold_left (sched_step W work TargetTitleThs)
            (seq (length done) (length ts) ≫= (fun k => [k; k; k]))
            (g, done ++ ts))) = true.
Proof.
  revert g done. induction ts as [| t ts IH]; intros g done Hm Hts Hd.
  - cbn. rewrite app_nil_r. apply forallb_forall. rewrite Forall_forall in Hd.
    intros x Hx. apply Hd, list_elem_of_In, Hx.
  - inversion Hts as [| t' ts' [i ->] Hts']; subst.
    cbn [length seq]. rewrite bind_cons. rewrite fold_left_app.
    assert (Hth : forall t0, (done ++ t0 :: ts) !! length done = Some t0).
    { intros t0. rewrite lookup_app_r by lia. rewrite Nat.sub_diag. reflexivity. }
    assert (Hin : forall t0 t1, <[length done := t1]> (done ++ t0 :: ts) = done ++ t1 :: ts).
    { intros t0 t1. rewrite insert_app_r_alt by lia. rewrite Nat.sub_diag. reflexivity. }
    assert (E3 : exists g3, mutex W g3 = false /\
              fold_left (sched_step W work TargetTitleThs)
                [length done; length done; length done] (g, done ++ Ready i :: ts)
              = (g3, done ++ Ended :: ts)).
    { cbn [fold_left]. unfold sched_step at 3. cbn [fst snd].
      rewrite Hth. cbn [thread_step].
      destruct (work i (env W g)) as [v w']. rewrite Hin.
      unfold sched_step at 2. cbn [fst snd]. rewrite Hth. cbn [thread_step mutex].
      rewrite Hm, Hin.
      unfold sched_step at 1. cbn [fst snd]. rewrite Hth. cbn [thread_step titles env].
      destruct (setitem (titles W g) (i - 1) v); rewrite Hin;
        (eexists; split; [| reflexivity]; reflexivity). }
    destruct E3 as (g3 & Hm3 & ->).
    replace (done ++ Ended :: ts) with ((done ++ [Ended]) ++ ts)
      by (rewrite <- app_assoc; reflexivity).
    replace (S (length done)) with (length (done ++ [Ended]))
      by (rewrite length_app; simpl; lia).
    apply IH; [exact Hm3 | exact Hts' |].
    apply Forall_app. split; [exact Hd |]. constructor; [reflexivity | constructor].
Qed.

(** X12.  Had [threads] started its threads on [get_article_title_ths], the
    function written for it, then for a work function whose value depends
    on the id alone: under every schedule at most one thread is inside
    [with mutex] at any time; whenever the joins return, slot [i - 1] holds
    the title of task [i] for every [i] in [1 .. n_tasks]; and the schedule
    that runs each thread for three steps in turn makes the joins return. *)
Theorem threads_with_ths (sched : list nat) (w : W) :
  locked_count (snd (run_threads W work TargetTitleThs n sched w)) <= 1 /\
  (forall r w', threads_with W work TargetTitleThs n sched w = (Some r, w') ->
     run_titles r = f <$> Py.range 1 (n + 1)) /\
  (exists r w', threads_with W work TargetTitleThs n
                  (seq 0 (Z.to_nat n) ≫= (fun k => [k; k; k])) w = (Some r, w')).
Proof.
  split; [| split].
  - destruct (run_threads_ths_inv sched w) as (_ & _ & _ & Hlock).
    rewrite Hlock. destruct (mutex W _); lia.
  - intros r w'. unfold threads_with.
    destruct (run_threads_ths_inv sched w) as (Hlt & Hls & Hslots & _).
    destruct (run_threads W work TargetTitleThs n sched w) as [g ts]. cbn [fst snd] in *.
    destruct (forallb ended ts) eqn:Eend; [| intros H; discriminate H].
    intros [= <- _]. cbn [run_titles]. apply list_eq. intros k.
    rewrite list_lookup_fmap.
    destruct (decide (k < Z.to_nat n)) as [Hk | Hk].
    + rewrite lookup_range by lia. cbn.
      destruct (lookup_lt_is_Some_2 ts k ltac:(lia)) as [t Et].
      rewrite forallb_forall in Eend.
      specialize (Eend t ltac:(apply list_elem_of_In; eapply list_elem_of_lookup_2, Et)).
      destruct t; try discriminate Eend.
      exact (Hslots k Ended Et).
    + rewrite (lookup_ge_None_2 (titles W g) k) by lia.
      rewrite (lookup_ge_None_2 (Py.range 1 (n + 1)) k)
        by (rewrite length_range; lia).
      reflexivity.
  - unfold threads_with, run_threads, start_threads.
    pose proof (fold_three_steps (Ready <$> Py.range 1 (n + 1))
                  (Shared W (replicate (Z.to_nat n) (PyStr "")) false w) []
                  eq_refl) as H.
    cbn [length app] in H. rewrite length_fmap, length_range in H.
    replace (Z.to_nat (n + 1 - 1)) with (Z.to_nat n) in H by lia.
    destruct (fold_left _ _ _) as [g ts]. cbn [snd] in H.
    rewrite H; [eauto | | constructor].
    apply Forall_fmap, Forall_forall. intros i _. cbn. eauto.
Qed.

End ThsThreads.

(** The theorem of X12 for three tasks and the work function [i -> 2 * i],
    with the steps of the threads interleaved and two of them waiting for
    the lock on the way. *)
Lemma threads_with_ths_witness :
  run_titles (Run [PyInt 2; PyInt 4; PyInt 6] (report [PyInt 2; PyInt 4; PyInt 6]))
  = (fun i => PyInt (2 * i)) <$> Py.range 1 (3 + 1).
Proof.
  refine (proj1 (proj2 (threads_with_ths unit (pure_work unit (fun i => PyInt (2 * i)))
            (fun i => PyInt (2 * i)) _ 3 [2; 0; 1; 0; 2; 1; 0; 1; 2; 2; 1; 2; 2] tt))
            (Run [PyInt 2; PyInt 4; PyInt 6] (report [PyInt 2; PyInt 4; PyInt 6])) tt _).
  - intros i w. reflexivity.
  - reflexivity.
Defined.

End Habr.

(** ** habr.py: [threads] with every fetch run request by request *)

Module HabrThreads.

Import Habr.

(** Where a thread started on [get_article_title(article_number)] stands:
    at the top of [get_page]'s loop with [attempts] iterations left; after
    a refused request, before the pause, with [attempts] iterations left
    after it; inside a request that is never answered; or ended, the value
    it returned dropped by [Thread.run], an exception it raised reported by
    the thread. *)
Inductive thread : Type :=
| Requesting (article_number : Z) (attempts : nat)
| Pausing (article_number : Z) (attempts : nat)
| Waiting (article_number : Z)
| Over (r : outcome pyval).

(** The number of [requests.get(url)] in a log. *)
Fixpoint requests_to (url : string) (tr : list event) : nat :=
  match tr with
  | [] => 0
  | Get u :: tr' => (if String.eqb u url then 1 else 0) + requests_to url tr'
  | Sleep _ :: tr' => requests_to url tr'
  end.

Section Threads.

Variable server : nat -> string -> reply.
Variable soup_title : string -> option string.

(** [base_url.format(article_number)] in [get_habr_article]. *)
Definition article_url (article_number : Z) : string :=
  String.append base_url (str_int article_number).

(** What [get_habr_article] and [get_article_title] make of the page that
    [get_page] returned. *)
Definition title_of (page : response) : pyval :=
  if response_ok page then
    match soup_title (text page) with
    | Some markup => PyTag markup
    | None => PyNone
    end
  else NOT_FOUND.

(** One step of a thread: a request, with the test of its status, or a
    pause.  The other threads run between two steps. *)
Definition thread_step (t : thread) (w : net) : thread * net :=
  match t with
  | Requesting i 0 => (Over (Ok NOT_FOUND), w)
  | Requesting i (S attempts') =>
      let '(r, w1) := requests_get server (article_url i) w in
      match r with
      | Returns page =>
          if (status_code page =? 200)%Z then (Over (Ok (title_of page)), w1)
          else (Pausing i attempts', w1)
      | Raises e => (Over (Raise e), w1)
      | Hangs => (Waiting i, w1)
      end
  | Pausing i attempts' => (Requesting i attempts', time_sleep 1 w)
  | Waiting i => (Waiting i, w)
  | Over r => (Over r, w)
  end.

(** [fuel] steps of one thread with no other thread in between. *)
Fixpoint steps (fuel : nat) (t : thread) (w : net) : thread * net :=
  match fuel with
  | 0 => (t, w)
  | S fuel' => let '(t', w') := thread_step t w in steps fuel' t' w'
  end.

(** How a thread stands once its call has done what [r] says. *)
Definition ends_as (article_number : Z) (r : result pyval) : thread :=
  match r with
  | Returns v => Over (Ok v)
  | Raises e => Over (Raise e)
  | Hangs => Waiting article_number
  end.

Definition sched_step (st : net * list thread) (k : nat) : net * list thread :=
  match snd st !! k with
  | Some t => let '(t', w') := thread_step t (fst st) in (w', <[k := t']> (snd st))
  | None => st
  end.

Definition over (t : thread) : bool :=
  match t with Over _ => true | _ => false end.

(** One thread per id of [range(1, n_tasks + 1)], each at the start of
    [get_page] with the default five attempts. *)
Definition start_threads (n_tasks : Z) : list thread :=
  (fun i => Requesting i 5) <$> Py.range 1 (n_tasks + 1).

Definition run_threads (n_tasks : Z) (sched : list nat) (w : net)
  : net * list thread :=
  fold_left sched_step sched (w, start_threads n_tasks).

(** [threads(n_tasks)] with the threads run as [sched] says, a request or a
    pause at a time.  The joins return once every thread has ended; no
    thread writes [titles], which is printed as it was created. *)
Definition threads (n_tasks : Z) (sched : list nat) (w : net) : option run * net :=
  let '(w', ts) := run_threads n_tasks sched w in
  let titles := replicate (Z.to_nat n_tasks) (PyStr "") in
  if forallb over ts then (Some (Run titles (report titles)), w') else (None, w').

(** *** A thread left alone does what the function does *)

Lemma steps_over (fuel : nat) (r : outcome pyval) (w : net) :
  steps fuel (Over r) w = (Over r, w).
Proof. induction fuel as [| fuel IH]; [reflexivity | exact IH]. Qed.

Lemma steps_waiting (fuel : nat) (i : Z) (w : net) :
  steps fuel (Waiting i) w = (Waiting i, w).
Proof. induction fuel as [| fuel IH]; [reflexivity | exact IH]. Qed.

Lemma steps_S (fuel : nat) (t : thread) (w : net) :
  steps (S fuel) t w = steps fuel (fst (thread_step t w)) (snd (thread_step t w)).
Proof. cbn [steps]. destruct (thread_step t w). reflexivity. Qed.

Lemma steps_get_page (i : Z) (n : nat) (w : net) :
  steps (S (2 * n)) (Requesting i n) w
  = (match fst (get_page_loop server n (article_url i) 1 w) with
     | Returns (Some page) => Over (Ok (title_of page))
     | Returns None => Over (Ok NOT_FOUND)
     | Raises e => Over (Raise e)
     | Hangs => Waiting i
     end,
     snd (get_page_loop server n (article_url i) 1 w)).
Proof.
  revert w. induction n as [| n IH]; intros w; [reflexivity |].
  replace (S (2 * S n)) with (S (S (S (2 * n)))) by lia.
  rewrite steps_S. cbn [thread_step get_page_loop]. unfold requests_get.
  destruct (server (served w) (article_url i)) as [page | e |].
  - destruct (status_code page =? 200)%Z; cbn [fst snd].
    + rewrite steps_over. reflexivity.
    + rewrite steps_S. cbn [thread_step fst snd]. apply IH.
  - cbn [fst snd]. rewrite steps_over. reflexivity.
  - cbn [fst snd]. rewrite steps_waiting. reflexivity.
Qed.

(** Eleven steps of a thread that no other thread interrupts leave the
    thread and the network as the call [get_article_title(i)] leaves
    them. *)
Lemma thread_alone (i : Z) (w : net) :
  steps 11 (Requesting i 5) w
  = (ends_as i (fst (get_article_title server soup_title i w)),
     snd (get_article_title server soup_title i w)).
Proof.
  change 11 with (S (2 * 5)). rewrite steps_get_page.
  unfold get_article_title, get_habr_article, get_page, article_url, title_of.
  change (Z.to_nat 5) with 5.
  destruct (get_page_loop server 5 (String.append base_url (str_int i)) 1 w)
    as [[[page |] | e |] w']; cbn [fst snd]; try reflexivity.
  destruct (response_ok page); [| reflexivity].
  destruct (soup_title (text page)); reflexivity.
Qed.

(** *** Every article is requested *)

Lemma str_int_inj (i j : Z) : str_int i = str_int j -> i = j.
Proof.
  unfold str_int. intros H. apply DecimalZ.to_int_inj.
  assert (N : forall z, Z.to_int z <> Decimal.Pos Decimal.Nil /\
                        Z.to_int z <> Decimal.Neg Decimal.Nil).
  { intros [| p | p]; cbn; split; try discriminate; intros E; injection E as E;
      exact (DecimalPos.Unsigned.to_uint_nonnil p E). }
  apply (f_equal NilZero.int_of_string) in H.
  rewrite !NilZero.isi in H by apply N. injection H as H. exact H.
Qed.

Lemma article_url_inj (i j : Z) : article_url i = article_url j -> i = j.
Proof.
  unfold article_url. intros H. apply str_int_inj. revert H.
  generalize base_url. intros p. induction p as [| c p IH]; cbn; [auto |].
  intros H. injection H as H. auto.
Qed.

Lemma requests_to_app (url : string) (tr1 tr2 : list event) :
  requests_to url (tr1 ++ tr2) = requests_to url tr1 + requests_to url tr2.
Proof.
  induction tr1 as [| [u | secs] tr1 IH]; cbn [app requests_to]; lia.
Qed.

Lemma requests_to_get (i j : Z) :
  requests_to (article_url j) [Get (article_url i)] = if Z.eqb i j then 1 else 0.
Proof.
  cbn [requests_to]. destruct (Z.eqb_spec i j) as [-> | Hne].
  - rewrite String.eqb_refl. reflexivity.
  - destruct (String.eqb_spec (article_url i) (article_url j)) as [E | _];
      [| reflexivity].
    destruct (Hne (article_url_inj i j E)).
Qed.

(** The article a thread is on. *)
Definition article_of (t : thread) : option Z :=
  match t with
  | Requesting i _ | Pausing i _ | Waiting i => Some i
  | Over _ => None
  end.

(** What holds of thread [k] all along: it is on article [1 + k], and of
    the requests for that article sent since [threads] was called, [c]
    say, it has used up the attempts it no longer has; once it has ended or
    waits for an answer, [c] is between one and five. *)
Definition thread_inv (w0 w : net) (k : nat) (t : thread) : Prop :=
  let i := (1 + Z.of_nat k)%Z in
  exists c,
    requests_to (article_url i) (trace w)
    = requests_to (article_url i) (trace w0) + c /\
    match t with
    | Requesting j a => j = i /\ a <= 5 /\ c = 5 - a
    | Pausing j a => j = i /\ a < 5 /\ c = 5 - a
    | Waiting j => j = i /\ 1 <= c <= 5
    | Over _ => 1 <= c <= 5
    end.

Definition threads_inv (n_tasks : Z) (w0 : net) (st : net * list thread) : Prop :=
  length (snd st) = Z.to_nat n_tasks /\
  forall k t, snd st !! k = Some t -> thread_inv w0 (fst st) k t.

(** A step of the thread on article [i] adds to the log nothing, a pause,
    or one request for article [i]. *)
Lemma thread_step_trace (t : thread) (w : net) :
  trace (snd (thread_step t w)) = trace w \/
  (exists secs, trace (snd (thread_step t w)) = trace w ++ [Sleep secs]) \/
  (exists i, article_of t = Some i /\
     trace (snd (thread_step t w)) = trace w ++ [Get (article_url i)]).
Proof.
  destruct t as [i [| a] | i a | i | r]; cbn [thread_step snd];
    try (left; reflexivity).
  - right. right. exists i. split; [reflexivity |]. unfold requests_get.
    destruct (server (served w) (article_url i)) as [page | e |];
      [destruct (status_code page =? 200)%Z | |]; reflexivity.
  - right. left. exists 1%Z. reflexivity.
Qed.

Lemma thread_step_inv (w0 w : net) (k : nat) (t : thread) :
  thread_inv w0 w k t ->
  thread_inv w0 (snd (thread_step t w)) k (fst (thread_step t w)).
Proof.
  intros (c & Hc & Ht). unfold thread_inv.
  destruct t as [i [| a] | i a | i | r]; cbn [thread_step fst snd].
  - exists c. split; [exact Hc |]. lia.
  - destruct Ht as (-> & Ha & ->). exists (5 - a).
    assert (Hlog : requests_to (article_url (1 + Z.of_nat k))
                     (trace w ++ [Get (article_url (1 + Z.of_nat k))])
                   = requests_to (article_url (1 + Z.of_nat k)) (trace w0) + (5 - a)).
    { rewrite requests_to_app, requests_to_get, Z.eqb_refl, Hc. lia. }
    unfold requests_get.
    destruct (server (served w) (article_url (1 + Z.of_nat k))) as [page | e |];
      [destruct (status_code page =? 200)%Z | |]; cbn [fst snd trace];
      (split; [exact Hlog |]); lia.
  - destruct Ht as (-> & Ha & ->). exists (5 - a). cbn [time_sleep trace]. split.
    + rewrite requests_to_app. cbn [requests_to]. lia.
    + lia.
  - exists c. split; assumption.
  - exists c. split; assumption.
Qed.

(** A step of another thread leaves the count of thread [k] as it is. *)
Lemma thread_step_others (w0 w : net) (k k' : nat) (t t' : thread) :
  k <> k' ->
  thread_inv w0 w k' t' ->
  thread_inv w0 w k t ->
  thread_inv w0 (snd (thread_step t' w)) k t.
Proof.
  intros Hne (c' & _ & Ht') (c & Hc & Ht). exists c. split; [| exact Ht].
  destruct (thread_step_trace t' w) as [E | [(secs & E) | (i & Ei & E)]];
    rewrite E.
  - exact Hc.
  - rewrite requests_to_app. cbn [requests_to]. lia.
  - assert (Hi : i = (1 + Z.of_nat k')%Z).
    { destruct t' as [j a' | j a' | j | r]; cbn [article_of] in Ei;
        [| | | discriminate Ei]; injection Ei as <-; destruct Ht' as [-> _];
        reflexivity. }
    subst i. rewrite requests_to_app, requests_to_get.
    destruct (Z.eqb_spec (1 + Z.of_nat k') (1 + Z.of_nat k)) as [E' | _]; lia.
Qed.

Lemma sched_step_inv (n_tasks : Z) (w0 : net) (st : net * list thread) (k : nat) :
  threads_inv n_tasks w0 st -> threads_inv n_tasks w0 (sched_step st k).
Proof.
  intros [Hlen Hinv]. unfold sched_step.
  destruct (snd st !! k) as [t |] eqn:Et; [| split; assumption].
  destruct st as [w ts]. cbn [fst snd] in *.
  pose proof (thread_step_inv w0 w k t (Hinv k t Et)) as Hk.
  pose proof (fun k' t' => thread_step_others w0 w k' k t' t) as Hothers.
  destruct (thread_step t w) as [t1 w1]. unfold threads_inv. cbn [fst snd] in *.
  split; [rewrite length_insert; exact Hlen |].
  intros k' t' Ek'. destruct (Nat.eq_dec k k') as [<- | Hne].
  - rewrite list_lookup_insert_eq in Ek' by (eapply lookup_lt_Some, Et).
    injection Ek' as <-. exact Hk.
  - rewrite list_lookup_insert_ne in Ek' by exact Hne.
    apply Hothers; [auto | exact (Hinv k t Et) | exact (Hinv k' t' Ek')].
Qed.

Lemma start_threads_inv (n_tasks : Z) (w : net) :
  threads_inv n_tasks w (w, start_threads n_tasks).
Proof.
  unfold threads_inv, start_threads. cbn [fst snd]. split.
  - rewrite length_fmap, length_range. f_equal. lia.
  - intros k t Ek. rewrite list_lookup_fmap in Ek.
    destruct (Py.range 1 (n_tasks + 1) !! k) as [i |] eqn:Ei; [| discriminate Ek].
    pose proof (lookup_lt_Some _ _ _ Ei) as Hk. rewrite length_range in Hk.
    rewrite lookup_range in Ei by exact Hk. injection Ei as <-.
    cbn in Ek. injection Ek as <-. exists 0. cbn. split; [lia |]. lia.
Qed.

Lemma run_threads_counts (n_tasks : Z) (sched : list nat) (w : net) :
  threads_inv n_tasks w (run_threads n_tasks sched w).
Proof.
  unfold run_threads. generalize (start_threads_inv n_tasks w).
  generalize (w, start_threads n_tasks).
  induction sched as [| k sched IH]; intros st Hst; [exact Hst |].
  cbn [fold_left]. apply IH, sched_step_inv, Hst.
Qed.

Lemma forallb_lookup {A : Type} (f : A -> bool) (l : list A) (k : nat) (x : A) :
  forallb f l = true -> l !! k = Some x -> f x = true.
Proof.
  revert k. induction l as [| y l IH]; intros k H E; [discriminate E |].
  cbn [forallb] in H. apply andb_prop in H as [Hy Hl].
  destruct k as [| k]; [injection E as <-; exact Hy | exact (IH k Hl E)].
Qed.

(** *** A schedule on which the joins return *)

Lemma get_page_loop_ends (n : nat) (url : string) (t : Z) (w : net) :
  (forall k u, server k u <> Silent) ->
  fst (get_page_loop server n url t w) <> Hangs.
Proof.
  intros Hs. revert w. induction n as [| n IH]; intros w; [discriminate |].
  cbn [get_page_loop]. unfold requests_get.
  pose proof (Hs (served w) url) as Hw.
  destruct (server (served w) url) as [page | e |];
    [| discriminate | destruct (Hw eq_refl)].
  destruct (status_code page =? 200)%Z; [discriminate | apply IH].
Qed.

Lemma steps_ends (i : Z) (n : nat) (w : net) :
  (forall k u, server k u <> Silent) ->
  over (fst (steps (S (2 * n)) (Requesting i n) w)) = true.
Proof.
  intros Hs. rewrite steps_get_page. cbn [fst].
  pose proof (get_page_loop_ends n (article_url i) 1 w Hs) as H.
  destruct (fst (get_page_loop server n (article_url i) 1 w)) as [[page |] | e |];
    [reflexivity | reflexivity | reflexivity | destruct (H eq_refl)].
Qed.

(** [m] steps in a row of thread [k] are [m] steps of that thread alone. *)
Lemma sched_step_replicate (m k : nat) (t : thread) (w : net) (ts : list thread) :
  ts !! k = Some t ->
  fold_left sched_step (replicate m k) (w, ts)
  = (snd (steps m t w), <[k := fst (steps m t w)]> ts).
Proof.
  revert t w ts. induction m as [| m IH]; intros t w ts Et.
  - cbn. rewrite list_insert_id by exact Et. reflexivity.
  - cbn [replicate fold_left]. unfold sched_step at 2. cbn [fst snd]. rewrite Et.
    rewrite steps_S. destruct (thread_step t w) as [t1 w1]. cbn [fst snd].
    rewrite (IH t1 w1 (<[k := t1]> ts)).
    + rewrite list_insert_insert_eq. reflexivity.
    + apply list_lookup_insert_eq. eapply lookup_lt_Some, Et.
Qed.

(** Each thread in turn, for the eleven steps that its five attempts and
    pauses and the return take at most. *)
Definition in_turn (first count : nat) : list nat :=
  seq first count ≫= (fun k => replicate 11 k).

Lemma in_turn_ends (ids : list Z) (done : list thread) (w : net) :
  (forall k u, server k u <> Silent) ->
  forallb over done = true ->
  forallb over
    (snd (fold_left sched_step (in_turn (length done) (length ids))
            (w, done ++ ((fun i => Requesting i 5) <$> ids)))) = true.
Proof.
  intros Hs. revert done w. induction ids as [| i ids IH]; intros done w Hdone.
  - cbn. rewrite app_nil_r. exact Hdone.
  - unfold in_turn. cbn [length seq]. rewrite bind_cons, fold_left_app, fmap_cons.
    rewrite (sched_step_replicate 11 (length done) (Requesting i 5) w)
      by (rewrite lookup_app_r by lia; rewrite Nat.sub_diag; reflexivity).
    rewrite insert_app_r_alt by lia. rewrite Nat.sub_diag. cbn [insert list_insert].
    rewrite (cons_middle _ done), app_assoc.
    replace (S (length done))
      with (length (done ++ [fst (steps 11 (Requesting i 5) w)]))
      by (rewrite length_app; cbn [length]; lia).
    apply IH. rewrite forallb_app, Hdone. cbn [forallb andb].
    pose proof (steps_ends i 5 w Hs) as He. change (S (2 * 5)) with 11 in He.
    rewrite He. reflexivity.
Qed.

(** X13.  [threads] as written drops every title but still fetches every
    article.  With the threads interleaved request by request and pause by
    pause, under any schedule: whenever the joins return, between one and
    five requests have been sent for the article of every id in
    [1 .. n_tasks], whatever the requests met.  And the joins do return,
    on the schedule that runs the threads in turn, when no request is left
    without an answer or an exception. *)
Theorem threads_make_every_call (n_tasks : Z) (w : net) :
  (forall sched i,
     fst (threads n_tasks sched w) <> None ->
     (1 <= i <= n_tasks)%Z ->
     requests_to (article_url i) (trace w) + 1
     <= requests_to (article_url i) (trace (snd (threads n_tasks sched w)))
     <= requests_to (article_url i) (trace w) + 5) /\
  ((forall k u, server k u <> Silent) ->
   fst (threads n_tasks (in_turn 0 (Z.to_nat n_tasks)) w) <> None).
Proof.
  split.
  - intros sched i. unfold threads.
    pose proof (run_threads_counts n_tasks sched w) as [Hlen Hinv].
    destruct (run_threads n_tasks sched w) as [w' ts]. cbn [fst snd] in *.
    destruct (forallb over ts) eqn:Eover; cbn [fst snd];
      [| intros H; destruct (H eq_refl)].
    intros _ Hi.
    destruct (lookup_lt_is_Some_2 ts (Z.to_nat (i - 1)) ltac:(lia)) as [t Et].
    destruct (Hinv _ t Et) as (c & Hc & Ht).
    replace (1 + Z.of_nat (Z.to_nat (i - 1)))%Z with i in Hc by lia.
    pose proof (forallb_lookup over ts _ t Eover Et) as Hover.
    destruct t; try discriminate Hover. lia.
  - intros Hs. unfold threads, run_threads, start_threads.
    pose proof (in_turn_ends (Py.range 1 (n_tasks + 1)) [] w Hs eq_refl) as H.
    rewrite length_range in H. cbn [length app] in H.
    replace (Z.to_nat (n_tasks + 1 - 1)) with (Z.to_nat n_tasks) in H by (f_equal; lia).
    destruct (fold_left sched_step _ _) as [w' ts]. cbn [snd] in H.
    rewrite H. discriminate.
Qed.

End Threads.

(** The theorem of X13 for two tasks against a server that refuses the
    first request it gets and answers the others: the first thread is
    paused while the second one fetches its article, then tries again. *)
Lemma threads_make_every_call_witness :
  fst (threads (fun k _ => if k <? 1 then Answer (Response 503 "")
                           else Answer (Response 200 "<title>T</title>"))
         (fun _ => Some "<title>T</title>"%string) 2 [0; 1; 0; 0] (Net 0 [])) <> None /\
  requests_to (article_url 1) (trace (Net 0 [])) + 1
  <= requests_to (article_url 1)
       (trace (snd (threads (fun k _ => if k <? 1 then Answer (Response 503 "")
                                        else Answer (Response 200 "<title>T</title>"))
                      (fun _ => Some "<title>T</title>"%string) 2 [0; 1; 0; 0] (Net 0 []))))
  <= requests_to (article_url 1) (trace (Net 0 [])) + 5.
Proof.
  split; [vm_compute; discriminate |].
  apply (proj1 (threads_make_every_call
           (fun k _ => if k <? 1 then Answer (Response 503 "")
                       else Answer (Response 200 "<title>T</title>"))
           (fun _ => Some "<title>T</title>"%string) 2 (Net 0 [])) [0; 1; 0; 0] 1%Z).
  - vm_compute. discriminate.
  - lia.
Defined.

End HabrThreads.

(** ** matmul.py: the drivers and [main] *)

Module MatmulMain.

Import MatmulHeap.

Inductive mode : Type := ModeThread | ModeProcess.

Record args : Type := Args {
  njobs : option Z;
  arg_mode : mode
}.

(** The interpreter state [main] runs in: the store with the standard
    output, and how many numbers [random.random()] has produced. *)
Record state : Type := State {
  mem : world;
  draws : nat
}.

Section Drivers.

(** The run's random source: the [k]-th number [random.random()] returns. *)
Variable random : nat -> float.

(** [[[random.random() for _ in range(cols)] for _ in range(rows)]], the
    numbers drawn row by row from draw [k0] on. *)
Definition gen_matrix (rows cols k0 : nat) : Matmul.matrix :=
  (fun i => (fun j => random (k0 + i * cols + j)) <$> seq 0 cols) <$> seq 0 rows.

Definition m_rows : nat := 1000.
Definition l_inner : nat := 100.
Definition n_cols : nat := 1000.

(** The two list comprehensions that build [A] and [B]: the state with both
    matrices in the store, and their addresses. *)
Definition make_inputs (st : state) : state * nat * nat :=
  let A := gen_matrix m_rows l_inner (draws st) in
  let B := gen_matrix l_inner n_cols (draws st + m_rows * l_inner) in
  let '(h1, a) := alloc_matrix A (store (mem st)) in
  let '(h2, b) := alloc_matrix B h1 in
  (State (World h2 (stdout (mem st))) (draws st + m_rows * l_inner + l_inner * n_cols),
   a, b).

(** [single_thread()]: how the call of [matmul] ended. *)
Definition single_thread (st : state) : job * state :=
  let '(st1, a, b) := make_inputs st in
  let '(w', s) := call_matmul a b (mem st1) in
  (s, State w' (draws st1)).

(** [multy_thread(njobs)]: the threads run as [sched] says; the joins
    return once every job has ended, [None] stands for a schedule that
    leaves one unfinished. *)
Definition multy_thread (njobs : Z) (sched : list nat) (st : state)
  : option (list job) * state :=
  let '(st1, a, b) := make_inputs st in
  let '(w', jobs) := run_threads a b sched (mem st1, spawn (Z.to_nat njobs)) in
  (if forallb finished jobs then Some jobs else None, State w' (draws st1)).

(** [multy_process(njobs)]: every process runs [matmul] on its own copy of
    the store; only what it prints reaches the parent. *)
Definition multy_process (njobs : Z) (st : state) : list job * state :=
  let '(st1, a, b) := make_inputs st in
  let child := call_matmul a b (World (store (mem st1)) []) in
  (replicate (Z.to_nat njobs) (snd child),
   State (World (store (mem st1))
            (stdout (mem st1) ++ concat (replicate (Z.to_nat njobs) (stdout (fst child)))))
         (draws st1)).

(** [main()], after [parse_args]. *)
Definition main (a : args) (sched : list nat) (st : state)
  : option (outcome unit) * state :=
  match njobs a with
  | None => let '(_, st') := single_thread st in (Some (Ok tt), st')
  | Some n =>
      if (n <=? 0)%Z
      then (Some (Raise (SystemExit "--njobs must be a positive integer.")), st)
      else
        match arg_mode a with
        | ModeThread =>
            let '(r, st') := multy_thread n sched st in
            (match r with Some _ => Some (Ok tt) | None => None end, st')
        | ModeProcess =>
            let '(_, st') := multy_process n st in (Some (Ok tt), st')
        end
  end.

End Drivers.

(** *** What the drivers do *)

Lemma run_threads_length (a b : nat) (sched : list nat) (st : world * list job) :
  length (snd (MatmulHeap.run_threads a b sched st)) = length (snd st).
Proof.
  unfold MatmulHeap.run_threads. revert st.
  induction sched as [| t sched IH]; intros st; [reflexivity |].
  cbn [fold_left]. rewrite IH. unfold step_thread.
  destruct (snd st !! t) as [s |]; [| reflexivity].
  destruct (step a b (fst st) s). cbn [snd]. apply length_insert.
Qed.

Lemma done_count_all (jobs : list job) :
  Forall (fun s => is_done s = true) jobs -> done_count jobs = length jobs.
Proof.
  unfold done_count. induction 1 as [| s jobs Hs _ IH]; [reflexivity |].
  cbn [List.filter]. rewrite Hs. cbn [length]. congruence.
Qed.

Section DriverFacts.

Variable random : nat -> float.

Lemma gen_matrix_shape (rows cols k0 : nat) :
  Matmul.shape (gen_matrix random rows cols k0) rows cols.
Proof.
  unfold Matmul.shape, gen_matrix. split.
  - rewrite length_fmap, length_seq. reflexivity.
  - apply Forall_fmap, Forall_forall. intros i _. simpl.
    rewrite length_fmap, length_seq. reflexivity.
Qed.

(** The product of two generated matrices of matching sizes is defined. *)
Lemma gen_product_ok (m l n k1 k2 : nat) :
  0 < m -> 0 < l ->
  exists C, Matmul.matmul (gen_matrix random m l k1) (gen_matrix random l n k2) = Ok C.
Proof.
  intros Hm Hl.
  destruct (Matmul.shape_first_row _ m l Hm (gen_matrix_shape m l k1)) as (A0 & EA & HA0).
  destruct (Matmul.shape_first_row _ l n Hl (gen_matrix_shape l n k2)) as (B0 & EB & HB0).
  destruct (Matmul.matmul_ok _ _ A0 B0 EA EB) as (C & EC & _).
  - rewrite HA0. eapply Matmul.shape_rows_ge, gen_matrix_shape.
  - rewrite HA0. destruct (gen_matrix_shape l n k2) as [-> _]. lia.
  - rewrite HB0. eapply Matmul.shape_rows_ge, gen_matrix_shape.
  - eauto.
Qed.

(** The state after the two comprehensions: both matrices are in the
    store, nothing is printed, and one number is drawn per entry. *)
Lemma make_inputs_spec (st : state) :
  let A := gen_matrix random m_rows l_inner (draws st) in
  let B := gen_matrix random l_inner n_cols (draws st + m_rows * l_inner) in
  let '(st1, a, b) := make_inputs random st in
  repr (store (mem st1)) a A /\ repr (store (mem st1)) b B /\
  stdout (mem st1) = stdout (mem st) /\
  draws st1 = draws st + m_rows * l_inner + l_inner * n_cols.
Proof.
  intros A B. unfold make_inputs. fold A B.
  pose proof (alloc_matrix_repr A (store (mem st))) as HA.
  destruct (alloc_matrix A (store (mem st))) as [h1 a]. cbn [fst snd] in HA.
  pose proof (alloc_matrix_repr B h1) as HB.
  pose proof (alloc_matrix_frame B h1) as Hf.
  destruct (alloc_matrix B h1) as [h2 b]. cbn [fst snd mem store stdout draws] in *.
  split; [eapply repr_frame; [exact Hf | exact HA] |]. auto.
Qed.

Lemma sizes_positive : 0 < m_rows /\ 0 < l_inner.
Proof. unfold m_rows, l_inner. lia. Qed.

(** X8.  [matmul.py] run without [--njobs] multiplies once: [main] returns,
    one line [Finished] is printed and one random number has been drawn
    per entry of the two matrices.  Run with [--njobs n], [n > 0], in
    process mode it returns after [n] lines [Finished]; in thread mode,
    whenever the joins return, under any schedule, [n] lines [Finished]
    have been printed. *)
Theorem main_prints_finished (a : args) (sched : list nat) (st : state) :
  match njobs a with
  | None =>
      exists st', main random a sched st = (Some (Ok tt), st') /\
        stdout (mem st') = stdout (mem st) ++ ["Finished"%string] /\
        draws st' = draws st + m_rows * l_inner + l_inner * n_cols
  | Some n =>
      (0 < n)%Z ->
      match arg_mode a with
      | ModeProcess =>
          exists st', main random a sched st = (Some (Ok tt), st') /\
            stdout (mem st')
            = stdout (mem st) ++ replicate (Z.to_nat n) "Finished"%string
      | ModeThread =>
          forall r st', main random a sched st = (Some r, st') ->
            r = Ok tt /\
            stdout (mem st')
            = stdout (mem st) ++ replicate (Z.to_nat n) "Finished"%string
      end
  end.
Proof.
  destruct sizes_positive as [Hm Hl].
  destruct (gen_product_ok m_rows l_inner n_cols (draws st)
              (draws st + m_rows * l_inner) Hm Hl) as [C HC].
  pose proof (make_inputs_spec st) as Hin. cbn zeta in Hin.
  unfold main. destruct (njobs a) as [n |].
  - intros Hn. destruct (n <=? 0)%Z eqn:En; [apply Z.leb_le in En; lia |].
    destruct (arg_mode a).
    + (* threads *)
      unfold multy_thread.
      destruct (make_inputs random st) as [[st1 x] y].
      destruct Hin as (HA & HB & Hout & Hdraws).
      destruct (run_threads_jobs_inv (store (mem st1)) x y _ _ HA HB (stdout (mem st1))
                  sched (mem st1) (spawn (Z.to_nat n)) _
                  (jobs_inv_spawn x y _ _ (mem st1) (Z.to_nat n)))
        as (ghosts & _ & Hlen & Hprint & Hjobs & _).
      pose proof (run_threads_length x y sched (mem st1, spawn (Z.to_nat n))) as Hl'.
      destruct (MatmulHeap.run_threads x y sched (mem st1, spawn (Z.to_nat n)))
        as [w' jobs]. cbn [fst snd] in *.
      intros r st'. destruct (forallb finished jobs) eqn:Efin; [| discriminate].
      intros [= <- <-]. split; [reflexivity |]. cbn [mem].
      rewrite Hprint, Hout. f_equal. f_equal.
      rewrite done_count_all.
      * rewrite Hl'. unfold spawn. apply length_replicate.
      * apply Forall_lookup. intros t s Es.
        destruct (lookup_lt_is_Some_2 ghosts t) as [g Eg].
        { rewrite Hlen. eapply lookup_lt_Some, Es. }
        destruct (Hjobs t s g Es Eg) as (Hinv & _).
        rewrite forallb_forall in Efin.
        specialize (Efin s ltac:(apply list_elem_of_In; eapply list_elem_of_lookup_2, Es)).
        destruct s; try discriminate Efin; [reflexivity |].
        cbn [job_inv] in Hinv. rewrite HC in Hinv. discriminate Hinv.
    + (* processes *)
      unfold multy_process.
      destruct (make_inputs random st) as [[st1 x] y].
      destruct Hin as (HA & HB & Hout & Hdraws).
      pose proof (call_matmul_sim x y _ _ (World (store (mem st1)) [])
                    (proj2 (read_matrix_repr _ _ _) HA)
                    (proj2 (read_matrix_repr _ _ _) HB)) as Hsim.
      rewrite HC in Hsim. destruct Hsim as (c & _ & _ & _ & Hprint).
      eexists. split; [reflexivity |]. cbn [mem stdout].
      rewrite Hprint, Hout. cbn [stdout app]. f_equal.
      generalize (Z.to_nat n). intros k. induction k as [| k IH]; [reflexivity |].
      cbn [replicate concat app]. f_equal. exact IH.
  - unfold single_thread.
    destruct (make_inputs random st) as [[st1 x] y].
    destruct Hin as (HA & HB & Hout & Hdraws).
    pose proof (call_matmul_sim x y _ _ (mem st1)
                  (proj2 (read_matrix_repr _ _ _) HA)
                  (proj2 (read_matrix_repr _ _ _) HB)) as Hsim.
    rewrite HC in Hsim. destruct Hsim as (c & _ & _ & _ & Hprint).
    destruct (call_matmul x y (mem st1)) as [w' s]. cbn [fst snd] in *.
    eexists. split; [reflexivity |]. cbn [mem draws].
    rewrite Hprint, Hout. split; [reflexivity | exact Hdraws].
Qed.

End DriverFacts.

(** The statement at [--njobs 2 --mode process], started with an empty
    store and a random source that always returns one. *)
Lemma main_prints_finished_witness :
  (0 < 2)%Z /\
  exists st',
    main (fun _ => 1%float) (Args (Some 2%Z) ModeProcess) [] (State (World [] []) 0)
    = (Some (Ok tt), st') /\
    stdout (mem st')
    = stdout (mem (State (World [] []) 0)) ++ replicate (Z.to_nat 2) "Finished"%string.
Proof.
  split; [lia |].
  apply (main_prints_finished (fun _ => 1%float) (Args (Some 2%Z) ModeProcess) []
           (State (World [] []) 0)).
  lia.
Defined.

End MatmulMain.

(** The exit status of a script: 0 when [main] returns, 1 when an exception
    leaves it, [SystemExit] with a message included. *)
Definition exit_status {A : Type} (r : outcome A) : Z :=
  match r with
  | Ok _ => 0
  | Raise _ => 1
  end.

(** ** The command lines of the two scripts *)

Module Cli.

(** Claim C4, as the code has it.  [matmul.py] run with [--njobs n] and
    [n <= 0] exits through [SystemExit] with a message, before a matrix is
    built or a job started.  [habr.py] does not check [--n_tasks]: with
    [n_tasks <= 0] and a pool size of at least one, every mode calls the
    work function for no id, prints nothing and returns. *)
Theorem nonpositive_counts :
  (forall (random : nat -> float) (a : MatmulMain.args) (n : Z) (sched : list nat)
          (st : MatmulMain.state),
     MatmulMain.njobs a = Some n -> (n <= 0)%Z ->
     MatmulMain.main random a sched st
       = (Some (Raise (SystemExit "--njobs must be a positive integer.")), st)) /\
  (forall (W : Type) (work : Z -> W -> Habr.pyval * W) (a : Habr.args)
          (sched : list nat) (w : W),
     (Habr.n_tasks a <= 0)%Z -> (1 <= Habr.pool_size a)%Z ->
     Habr.main W work a sched w = (Some (Ok (Habr.Run [] [])), w)).
Proof.
  split.
  - intros random a n sched st Hn Hle. unfold MatmulMain.main. rewrite Hn.
    apply Z.leb_le in Hle. rewrite Hle. reflexivity.
  - intros W work [md n p] sched w Hn Hp. cbn [Habr.n_tasks Habr.pool_size] in *.
    assert (Hr : Py.range 1 n = []).
    { unfold Py.range. replace (Z.to_nat (n - 1)) with 0 by lia. reflexivity. }
    assert (Hr1 : Py.range 1 (n + 1) = []).
    { unfold Py.range. replace (Z.to_nat (n + 1 - 1)) with 0 by lia. reflexivity. }
    assert (Hpool : Habr.pool_strategy W work n p sched w
                    = (Some (Ok (Habr.Run [] [])), w)).
    { unfold Habr.pool_strategy, Habr.pool_map.
      destruct (p <? 1)%Z eqn:Ep; [apply Z.ltb_lt in Ep; lia |].
      rewrite Hr.
      assert (Hc : Habr.pool_calls W work sched [] w = ([], w)).
      { induction sched as [| k sched IH]; [reflexivity | exact IH]. }
      rewrite Hc. reflexivity. }
    unfold Habr.main. cbn [Habr.arg_mode Habr.n_tasks Habr.pool_size].
    destruct md.
    + unfold Habr.single. rewrite Hr. reflexivity.
    + unfold Habr.threads, Habr.threads_with, Habr.run_threads, Habr.start_threads.
      rewrite Hr1. replace (Z.to_nat n) with 0 by lia. cbn [replicate fmap list_fmap].
      assert (Hs : forall st, snd st = [] ->
                fold_left (Habr.sched_step W work Habr.TargetTitle) sched st = st).
      { clear. induction sched as [| k sched IH]; intros st Hst; [reflexivity |].
        cbn [fold_left]. unfold Habr.sched_step at 2. rewrite Hst.
        cbn [lookup list_lookup]. apply IH, Hst. }
      rewrite Hs by reflexivity. reflexivity.
    + exact Hpool.
    + exact Hpool.
Qed.

(** C4 as worded fails for [habr.py]: [--mode single --n_tasks 0] returns
    with exit status 0 and nothing printed. *)
Lemma habr_accepts_zero_tasks :
  Habr.main unit (Habr.pure_work unit (fun _ => Habr.PyNone))
      (Habr.Args Habr.ModeSingle 0 10) [] tt
    = (Some (Ok (Habr.Run [] [])), tt) /\
  exit_status (Ok (Habr.Run [] [])) = 0%Z.
Proof. split; reflexivity. Qed.

End Cli.

(** ** server.py: the route of the toy server *)

Module Server.

(** A [PlainTextResponse]. *)
Record plain_text_response : Type := PlainText {
  status : Z;
  media_type : string;
  content : string
}.

Section App.

(** Modelled from the spec: [find_palindrome], imported from the module
    [longest_palindrome], which is not among the sources.  The
    specification only says that the route returns a computed string that is
    a pure function of the path parameter. *)
Variable find_palindrome : string -> string.

(** Whatever the process holds between requests. *)
Variable S : Type.

(** The handler of [GET /longest-palindrome/{input_string}]. *)
Definition longest_palindrome (input_string : string) (st : S)
  : plain_text_response * S :=
  (PlainText 200 "text/plain; charset=utf-8" (find_palindrome input_string), st).

(** The requests of a run, handled one after the other. *)
Fixpoint serve (requests : list string) (st : S) : list plain_text_response * S :=
  match requests with
  | [] => ([], st)
  | r :: requests' =>
      let '(resp, st1) := longest_palindrome r st in
      let '(resps, st2) := serve requests' st1 in
      (resp :: resps, st2)
  end.

(** Claim C8.  The response to a request is a function of its path
    parameter alone: it is the same in every state of the process and
    after every sequence of earlier requests, and handling requests leaves
    the state as it was. *)
Theorem handler_pure (input_string : string) (earlier1 earlier2 : list string)
    (st1 st2 : S) :
  fst (longest_palindrome input_string (snd (serve earlier1 st1)))
    = fst (longest_palindrome input_string (snd (serve earlier2 st2))) /\
  snd (serve (earlier1 ++ [input_string]) st1) = st1.
Proof.
  split; [reflexivity |].
  generalize (earlier1 ++ [input_string]). intros reqs.
  induction reqs as [| r reqs IH]; [reflexivity |].
  cbn [serve longest_palindrome]. destruct (serve reqs st1) as [resps st']. exact IH.
Qed.

End App.

End Server.

(** ** http_parser.py: the profiled download loop *)

Module HttpParser.

Import Habr.

Section Parser.

Variable server : nat -> string -> reply.
Variable soup_title : string -> option string.

(** [base_url.format(page_id)] for a template with the single field [{0}]:
    the text before the field, the id, the text after it. *)
Definition format_url (before after : string) (page_id : Z) : string :=
  String.append before (String.append (str_int page_id) after).

(** [download_page(base_url, page_id)]: one request, no retry; the dict
    with the keys [status] and [text] is the response record. *)
Definition download_page (before after : string) (page_id : Z) (w : net)
  : result response * net :=
  requests_get server (format_url before after page_id) w.

(** [get_page_title(base_url, page_id)]: [None] for a status other than
    200, the title element of the body otherwise ([None] when the body has
    none). *)
Definition get_page_title (before after : string) (page_id : Z) (w : net)
  : result (option string) * net :=
  let '(r, w') := download_page before after page_id w in
  match r with
  | Returns down_res =>
      if negb (status_code down_res =? 200)%Z then (Returns None, w')
      else (Returns (soup_title (text down_res)), w')
  | Raises e => (Raises e, w')
  | Hangs => (Hangs, w')
  end.

Definition tab : string := String (ascii_of_nat 9) EmptyString.
Definition newline : string := String (ascii_of_nat 10) EmptyString.

(** The argument of [print(f"{page_id=}\t{title}\n")]. *)
Definition title_line (page_id : Z) (markup : string) : string :=
  String.append "page_id="
    (String.append (str_int page_id)
       (String.append tab (String.append markup newline))).

(** The loop of [main] over [ids], with the lines printed so far; a [Tag]
    is truthy, so a line is printed for every title found.  A request that
    raises or is never answered ends the loop where it stands. *)
Fixpoint main_loop (before after : string) (ids : list Z) (w : net)
    (out : list string) : result unit * list string * net :=
  match ids with
  | [] => (Returns tt, out, w)
  | page_id :: ids' =>
      let '(r, w') := get_page_title before after page_id w in
      match r with
      | Returns (Some markup) =>
          main_loop before after ids' w' (out ++ [title_line page_id markup])
      | Returns None => main_loop before after ids' w' out
      | Raises e => (Raises e, out, w')
      | Hangs => (Hangs, out, w')
      end
  end.

(** [main()]: how it ends, the lines printed and the requests made; the
    profile that is collected and written to a file is not part of the
    model. *)
Definition main (w : net) : result unit * list string * net :=
  main_loop "https://habr.com/ru/articles/" "/" (Py.range 0 15) w [].

(** The title of the page with the given id when its request is the
    [k]-th sent and is answered. *)
Definition title_at (before after : string) (k : nat) (page_id : Z) : option string :=
  match server k (format_url before after page_id) with
  | Answer page => if (status_code page =? 200)%Z then soup_title (text page) else None
  | _ => None
  end.

(** The lines for the ids [ids], the first request being number [k]. *)
Fixpoint lines_from (before after : string) (k : nat) (ids : list Z) : list string :=
  match ids with
  | [] => []
  | page_id :: ids' =>
      match title_at before after k page_id with
      | Some markup => title_line page_id markup :: lines_from before after (S k) ids'
      | None => lines_from before after (S k) ids'
      end
  end.

(** Every request of the loop over [ids], the first being number [k], is
    answered. *)
Definition all_answered (before after : string) (k : nat) (ids : list Z) : Prop :=
  forall j page_id, ids !! j = Some page_id ->
    exists page, server (k + j) (format_url before after page_id) = Answer page.

Lemma main_loop_spec (before after : string) (ids : list Z) (w : net)
    (out : list string) :
  all_answered before after (served w) ids ->
  main_loop before after ids w out
  = (Returns tt, out ++ lines_from before after (served w) ids,
     Net (served w + length ids)
         (trace w ++ ((fun page_id => Get (format_url before after page_id)) <$> ids))).
Proof.
  revert w out. induction ids as [| page_id ids IH]; intros [sv tr] out Hall.
  - cbn. rewrite !app_nil_r, Nat.add_0_r. reflexivity.
  - assert (Htail : all_answered before after (S sv) ids).
    { intros j id Hj. replace (S sv + j) with (sv + S j) by lia.
      apply (Hall (S j) id). exact Hj. }
    destruct (Hall 0 page_id eq_refl) as (page & Epage).
    cbn [served] in Epage. rewrite Nat.add_0_r in Epage.
    cbn [main_loop lines_from].
    unfold get_page_title, download_page, requests_get, title_at.
    cbn [served trace]. rewrite Epage.
    destruct (status_code page =? 200)%Z; cbn [negb].
    + destruct (soup_title (text page));
        rewrite IH by exact Htail; cbn [served trace length]; rewrite fmap_cons;
        rewrite <- !app_assoc; cbn [app];
        replace (S sv + length ids) with (sv + S (length ids)) by lia;
        reflexivity.
    + rewrite IH by exact Htail. cbn [served trace length]. rewrite fmap_cons.
      rewrite <- !app_assoc. cbn [app].
      replace (S sv + length ids) with (sv + S (length ids)) by lia.
      reflexivity.
Qed.

(** Whatever the requests meet, the loop sends at most one request per id
    and prints at most one line per id. *)
Lemma main_loop_bounds (before after : string) (ids : list Z) (w : net)
    (out : list string) :
  served (snd (main_loop before after ids w out)) <= served w + length ids /\
  length (snd (fst (main_loop before after ids w out))) <= length out + length ids.
Proof.
  revert w out. induction ids as [| page_id ids IH]; intros w out.
  - cbn. lia.
  - cbn [main_loop]. unfold get_page_title, download_page, requests_get.
    destruct (server (served w) (format_url before after page_id)) as [page | e |];
      [| cbn; lia | cbn; lia].
    destruct (status_code page =? 200)%Z; cbn [negb].
    + destruct (soup_title (text page)).
      * match goal with |- context [main_loop _ _ ids ?w1 ?o1] =>
          specialize (IH w1 o1) end.
        rewrite length_app in IH. cbn [served length] in IH |- *. lia.
      * match goal with |- context [main_loop _ _ ids ?w1 ?o1] =>
          specialize (IH w1 o1) end.
        cbn [served length] in IH |- *. lia.
    + match goal with |- context [main_loop _ _ ids ?w1 ?o1] =>
        specialize (IH w1 o1) end.
      cbn [served length] in IH |- *. lia.
Qed.

Lemma lines_from_imap (before after : string) (k : nat) (ids : list Z) :
  lines_from before after k ids
  = concat (imap (fun j page_id =>
                    match title_at before after (k + j) page_id with
                    | Some markup => [title_line page_id markup]
                    | None => []
                    end) ids).
Proof.
  revert k. induction ids as [| page_id ids IH]; intros k; [reflexivity |].
  cbn [lines_from imap concat]. rewrite Nat.add_0_r, IH.
  assert (E : forall (g1 g2 : nat -> Z -> list string),
            (forall j x, g1 j x = g2 j x) -> imap g1 ids = imap g2 ids).
  { intros g1 g2 Hg. apply imap_ext. intros j x _. apply Hg. }
  rewrite (E _ (fun j page_id0 =>
                  match title_at before after (k + S j) page_id0 with
                  | Some markup => [title_line page_id0 markup]
                  | None => []
                  end)).
  - destruct (title_at before after k page_id); reflexivity.
  - intros j x. replace (S k + j) with (k + S j) by lia. reflexivity.
Qed.

Lemma lookup_range_0 (n : Z) (j : nat) (page_id : Z) :
  Py.range 0 n !! j = Some page_id -> page_id = Z.of_nat j /\ j < Z.to_nat n.
Proof.
  unfold Py.range. rewrite list_lookup_fmap, Z.sub_0_r. intros H.
  destruct (seq 0 (Z.to_nat n) !! j) as [x |] eqn:E; [| discriminate H].
  apply lookup_seq in E as [-> Hlt]. cbn in H. injection H as <-. split; lia.
Qed.

(** X14.  [http_parser.py]'s [main] sends at most fifteen requests and
    prints at most fifteen lines, whatever the requests meet.  When each of
    its requests is answered, it returns after exactly fifteen requests,
    one per page id from 0 to 14 in increasing order, without retry or
    pause, and has printed, in the same order, one line for each page whose
    request (the [j]-th of the run for page [j]) was answered with status
    200 and a body that has a title element. *)
Theorem main_requests_and_lines (w : net) :
  let url := format_url "https://habr.com/ru/articles/" "/" in
  (served (snd (main w)) <= served w + 15 /\ length (snd (fst (main w))) <= 15) /\
  ((forall j, j < 15 ->
      exists page, server (served w + j) (url (Z.of_nat j)) = Answer page) ->
   main w
   = (Returns tt,
      concat (imap (fun j page_id =>
                      match title_at "https://habr.com/ru/articles/" "/"
                              (served w + j) page_id with
                      | Some markup => [title_line page_id markup]
                      | None => []
                      end) (Py.range 0 15)),
      Net (served w + 15)
          (trace w ++ ((fun page_id => Get (url page_id)) <$> Py.range 0 15))) /\
   Py.range 0 15 = Z.of_nat <$> seq 0 15).
Proof.
  intros url. split.
  - exact (main_loop_bounds _ _ (Py.range 0 15) w []).
  - intros Hall. split; [| reflexivity].
    unfold main. rewrite main_loop_spec.
    + rewrite lines_from_imap. reflexivity.
    + intros j page_id Hj. apply lookup_range_0 in Hj as [-> Hlt].
      apply Hall. exact Hlt.
Qed.

End Parser.

(** [main] against a server that answers its first request with status 200
    and the others with 404: fifteen requests, one line, for page 0. *)
Lemma main_requests_and_lines_witness :
  main (fun k _ => if k <? 1 then Answer (Response 200 "<title>T</title>")
                   else Answer (Response 404 ""))
       (fun _ => Some "<title>T</title>"%string) (Net 0 [])
  = (Returns tt, [title_line 0 "<title>T</title>"],
     Net 15 ((fun page_id => Get (format_url "https://habr.com/ru/articles/" "/" page_id))
               <$> Py.range 0 15)).
Proof.
  refine (proj1 (proj2 (main_requests_and_lines
                          (fun k _ => if k <? 1 then Answer (Response 200 "<title>T</title>")
                                      else Answer (Response 404 ""))
                          (fun _ => Some "<title>T</title>"%string) (Net 0 [])) _)).
  intros j Hj. cbn [served]. destruct (0 + j <? 1); eexists; reflexivity.
Defined.

End HttpParser.
